(* ===================================================================== *)
(*  WordPecker manual-mode content engine: a shallow embedding            *)
(*                                                                       *)
(*  Embedded classes                                                     *)
(*    ManualDataService        -> Module DataService                     *)
(*    ExerciseTemplateService  -> Module ExerciseTemplate                *)
(*    SentenceService          -> Module Sentence                        *)
(*    ManualWordService        -> Module WordService                     *)
(*    DataLoader               -> Module Loader                          *)
(*                                                                       *)
(*  Strings are sequences of 8-bit code units read as the code points    *)
(*  U+0000..U+00FF; the host string functions are embedded on that       *)
(*  range.  A JavaScript Map, and an object used as a record of strings, *)
(*  is a gmap over its own keys: the order in which a Map enumerates its *)
(*  keys is not represented.  A read of a name that an object inherits   *)
(*  (JS.objectPrototypeNames) gives a value that is no string: where the *)
(*  code makes such a read the embedding says so by a test of its own    *)
(*  (DataService.returnsInherited) or the read is outside the stated     *)
(*  domain of the function.                                              *)
(*  The store is taken as loaded; reading and writing files is left out. *)
(* ===================================================================== *)

From Stdlib Require Import QArith Qround Floats Uint63 Ascii.
From stdpp Require Import gmap strings list fin_maps pretty sorting.

Open Scope string_scope.
Open Scope list_scope.

(* ===================================================================== *)
(** * Host string functions *)
(* ===================================================================== *)

Module JS.

Definition code (c : ascii) : N := N_of_ascii c.

(** The double-quote character, written by its code. *)
Definition dquote : string := String (ascii_of_nat 34) EmptyString.

(** [quoted s] is [s] between double quotes, as in a template <<"${s}">>. *)
Definition quoted (s : string) : string := dquote +:+ s +:+ dquote.

(** Upper-case letters of the range: A-Z, and U+00C0..U+00DE without the
    multiplication sign U+00D7. *)
Definition isUpper (c : ascii) : bool :=
  let n := code c in
  ((65 <=? n) && (n <=? 90) || (192 <=? n) && (n <=? 222) && negb (n =? 215))%N.

Definition lowerChar (c : ascii) : ascii :=
  if isUpper c then ascii_of_N (code c + 32) else c.

(** String.prototype.toLowerCase *)
Fixpoint toLowerCase (s : string) : string :=
  match s with
  | EmptyString => EmptyString
  | String c r => String (lowerChar c) (toLowerCase r)
  end.

(** WhiteSpace and LineTerminator code points of the range:
    TAB, LF, VT, FF, CR, SPACE, NBSP.  Also the class \s of RegExp. *)
Definition isSpace (c : ascii) : bool :=
  let n := code c in
  ((9 <=? n) && (n <=? 13) || (n =? 32) || (n =? 160))%N.

(** The class \w of RegExp: A-Z a-z 0-9 _ *)
Definition isWordChar (c : ascii) : bool :=
  let n := code c in
  ((65 <=? n) && (n <=? 90) || (97 <=? n) && (n <=? 122)
   || (48 <=? n) && (n <=? 57) || (n =? 95))%N.

Definition isEmpty (s : string) : bool :=
  match s with EmptyString => true | _ => false end.

(** Truthiness of a string value: every string but the empty one. *)
Definition truthy (s : string) : bool := negb (isEmpty s).

Fixpoint trimStart (s : string) : string :=
  match s with
  | EmptyString => EmptyString
  | String c r => if isSpace c then trimStart r else s
  end.

Fixpoint trimEnd (s : string) : string :=
  match s with
  | EmptyString => EmptyString
  | String c r =>
      let r' := trimEnd r in
      if isSpace c && isEmpty r' then EmptyString else String c r'
  end.

(** String.prototype.trim *)
Definition trim (s : string) : string := trimEnd (trimStart s).

(** String.prototype.includes *)
Fixpoint includes (s sub : string) : bool :=
  String.prefix sub s ||
  match s with
  | EmptyString => false
  | String _ r => includes r sub
  end.

(** String.prototype.indexOf, on a substring that occurs; [None] is -1. *)
Fixpoint indexOf (s sub : string) : option nat :=
  if String.prefix sub s then Some 0
  else match s with
       | EmptyString => None
       | String _ r => S <$> indexOf r sub
       end.

(** <<s.replace(/[^\w\s]/g, '')>> *)
Fixpoint stripPunctuation (s : string) : string :=
  match s with
  | EmptyString => EmptyString
  | String c r =>
      if isWordChar c || isSpace c then String c (stripPunctuation r)
      else stripPunctuation r
  end.

(** <<s.split(' ')>> *)
Fixpoint splitSpace_go (cur : string) (s : string) : list string :=
  match s with
  | EmptyString => [cur]
  | String c r =>
      if (code c =? 32)%N then cur :: splitSpace_go EmptyString r
      else splitSpace_go (cur +:+ String c EmptyString) r
  end.

Definition splitSpace (s : string) : list string := splitSpace_go EmptyString s.

(** <<parts.join(' ')>> *)
Fixpoint joinSpace (parts : list string) : string :=
  match parts with
  | [] => EmptyString
  | [p] => p
  | p :: rest => p +:+ " " +:+ joinSpace rest
  end.

(** <<s.split(/\s+/).length>>: one more than the number of maximal runs of
    white space.  [inRun] tells whether the previous character was white
    space. *)
Fixpoint countSpaceRuns (inRun : bool) (s : string) : nat :=
  match s with
  | EmptyString => 0
  | String c r =>
      if isSpace c
      then (if inRun then 0 else 1) + countSpaceRuns true r
      else countSpaceRuns false r
  end.

Definition splitWhitespaceLength (s : string) : nat :=
  S (countSpaceRuns false s).

(** Template interpolation of an integral number. *)
Definition numberToString (z : Z) : string := pretty z.

(** <<Math.ceil(n / d)>> for integral n and positive integral d. *)
Definition ceilDiv (n d : Z) : Z := (- ((- n) `div` d))%Z.

(** <<m > n * 0.7>> on string lengths, in binary64 as the host computes it. *)
Definition exceedsSeventyPercent (m n : nat) : bool :=
  PrimFloat.ltb
    (PrimFloat.mul (PrimFloat.of_uint63 (Uint63.of_Z (Z.of_nat n)))
                   0x1.6666666666666p-1%float)
    (PrimFloat.of_uint63 (Uint63.of_Z (Z.of_nat m))).

(** The names of the properties of Object.prototype.  An object made by an
    object literal or by JSON.parse answers a read of one of them, when it
    has no property of its own under that name, with the inherited value: a
    function, or the prototype itself for __proto__; none is a string. *)
Definition objectPrototypeNames : list string :=
  ["constructor"; "__proto__"; "hasOwnProperty"; "isPrototypeOf";
   "propertyIsEnumerable"; "toLocaleString"; "toString"; "valueOf";
   "__defineGetter__"; "__defineSetter__"; "__lookupGetter__";
   "__lookupSetter__"].

End JS.

(* ===================================================================== *)
(** * class ManualDataService *)
(* ===================================================================== *)

Module DataService.
Import JS.

Inductive Difficulty := beginner | intermediate | advanced.

Definition difficultyName (d : Difficulty) : string :=
  match d with
  | beginner => "beginner"
  | intermediate => "intermediate"
  | advanced => "advanced"
  end.

(** interface Definition *)
Record DefinitionRec := mkDefinition {
  def_word : string;
  general : string;
  contextual : gmap string string;
  def_difficulty : Difficulty;
  part_of_speech : string;
  pronunciation : option string;
  def_audio_file : option string
}.

(** interface SentenceExample *)
Record SentenceExample := mkSentence {
  sentence : string;
  translation : option string;
  sent_context : string;
  sent_difficulty : string;
  sent_audio_file : option string;
  context_note : option string
}.

(** interface SimilarWord; the score is kept as a fraction. *)
Record SimilarWord := mkSimilar {
  sim_word : string;
  sim_meaning : string;
  similarity_score : Q;
  usage_note : string
}.

(** The private maps of class ManualDataService. *)
Record Store := mkStore {
  definitionsDB : gmap string DefinitionRec;
  sentencesDB : gmap string (list SentenceExample);
  similarWordsDB : gmap string (list SimilarWord);
  distractorsDB : gmap string (list string)
}.

Definition emptyStore : Store := mkStore ∅ ∅ ∅ ∅.

Definition notFoundMessage (word : string) : string :=
  "Definition not found for " +:+ quoted word +:+
  ". Please add it to the definitions database.".

(** Whether getDefinition(word, context?) reads an inherited property: the
    word is stored, the context is not empty, and the lower-cased context
    is no key of the definition's contextual object but a name that every
    object inherits.  The code then returns that inherited value, which is
    truthy and no string. *)
Definition returnsInherited (st : Store) (word : string)
    (context : option string) : bool :=
  match definitionsDB st !! toLowerCase word, context with
  | Some definition, Some c =>
      truthy c &&
      bool_decide (contextual definition !! toLowerCase c = None) &&
      bool_decide (toLowerCase c ∈ objectPrototypeNames)
  | _, _ => false
  end.

(** getDefinition(word, context?): the string returned, for definitions
    whose contextual field is an object, as the interface Definition has
    it.  Where [returnsInherited] holds the code returns the inherited
    value instead, and this string is not what it returns. *)
Definition getDefinition (st : Store) (word : string) (context : option string)
  : string :=
  match definitionsDB st !! toLowerCase word with
  | None => notFoundMessage word
  | Some definition =>
      match context with
      | Some c =>
          if truthy c then
            match contextual definition !! toLowerCase c with
            | Some v => if truthy v then v else general definition
            | None => general definition
            end
          else general definition
      | None => general definition
      end
  end.

(** getSentenceExamples(word, context?) *)
Definition getSentenceExamples (st : Store) (word : string)
    (context : option string) : list SentenceExample :=
  let sentences := default [] (sentencesDB st !! toLowerCase word) in
  match context with
  | Some c =>
      if truthy c
      then List.filter
             (fun s => String.eqb (toLowerCase (sent_context s)) (toLowerCase c))
             sentences
      else sentences
  | None => sentences
  end.

(** getSimilarWords(word) *)
Definition getSimilarWords (st : Store) (word : string) : list SimilarWord :=
  default [] (similarWordsDB st !! toLowerCase word).

(** generateBasicDistractors(word) *)
Definition generateBasicDistractors (word : string) : list string :=
  ["incorrect definition A"; "incorrect definition B"; "incorrect definition C"].

(** The key computed on the first line of getDistractors. *)
Definition contextKey (word : string) (context : option string) : string :=
  match context with
  | Some c =>
      if truthy c then toLowerCase c +:+ "_" +:+ toLowerCase word
      else toLowerCase word
  | None => toLowerCase word
  end.

(** The second half of getDistractors: the word-only entries, then the
    generic ones. *)
Definition generalOrBasic (st : Store) (word : string) : list string :=
  let generalDistractors := default [] (distractorsDB st !! toLowerCase word) in
  if (3 <=? length generalDistractors)%nat then take 3 generalDistractors
  else generateBasicDistractors word.

(** getDistractors(word, context?) *)
Definition getDistractors (st : Store) (word : string) (context : option string)
  : list string :=
  let specificDistractors := distractorsDB st !! contextKey word context in
  match specificDistractors with
  | Some l => if (3 <=? length l)%nat then take 3 l else generalOrBasic st word
  | None => generalOrBasic st word
  end.

(** hasWord(word) *)
Definition hasWord (st : Store) (word : string) : bool :=
  bool_decide (is_Some (definitionsDB st !! toLowerCase word)).

(** getAllWords(): the keys of the definitions map. *)
Definition getAllWords (st : Store) : list string :=
  (map_to_list (definitionsDB st)).*1.

(** ** Mutations of the store *)

(** The argument object of addAdminDefinition and updateDefinition. *)
Record DefinitionData := mkDefinitionData {
  dd_general : string;
  dd_contextual : option (gmap string string);
  dd_difficulty : option Difficulty;
  dd_part_of_speech : option string
}.

(** The argument object of addSentenceExample. *)
Record SentenceData := mkSentenceData {
  sd_sentence : string;
  sd_translation : option string;
  sd_context : option string;
  sd_difficulty : option string
}.

(** <<a || b>> on an optional string. *)
Definition orElse (o : option string) (d : string) : string :=
  match o with Some s => if truthy s then s else d | None => d end.

Definition setDefinition (st : Store) (key : string) (d : DefinitionRec) : Store :=
  mkStore (<[key := d]> (definitionsDB st)) (sentencesDB st)
          (similarWordsDB st) (distractorsDB st).

Definition setSentences (st : Store) (key : string) (l : list SentenceExample)
  : Store :=
  mkStore (definitionsDB st) (<[key := l]> (sentencesDB st))
          (similarWordsDB st) (distractorsDB st).

(** The body of the forEach in loadDefinitions, over one parsed file. *)
Definition loadDefinitions (st : Store) (data : list DefinitionRec) : Store :=
  foldl (fun acc d => setDefinition acc (toLowerCase (def_word d)) d) st data.

(** loadSentences, loadSimilarWords, loadDistractors: one file each, named
    after the key. *)
Definition loadSentences (st : Store) (file : string)
    (data : list SentenceExample) : Store :=
  setSentences st (toLowerCase file) data.

Definition loadSimilarWords (st : Store) (file : string)
    (data : list SimilarWord) : Store :=
  mkStore (definitionsDB st) (sentencesDB st)
          (<[toLowerCase file := data]> (similarWordsDB st)) (distractorsDB st).

Definition loadDistractors (st : Store) (file : string) (data : list string)
  : Store :=
  mkStore (definitionsDB st) (sentencesDB st) (similarWordsDB st)
          (<[toLowerCase file := data]> (distractorsDB st)).

(** addDefinition(definition) *)
Definition addDefinition (st : Store) (d : DefinitionRec) : Store :=
  setDefinition st (toLowerCase (def_word d)) d.

(** addSentenceExamples(word, sentences) *)
Definition addSentenceExamples (st : Store) (word : string)
    (l : list SentenceExample) : Store :=
  let existing := default [] (sentencesDB st !! toLowerCase word) in
  setSentences st (toLowerCase word) (existing ++ l).

(** addAdminDefinition(word, definitionData) *)
Definition addAdminDefinition (st : Store) (word : string) (dd : DefinitionData)
  : Store :=
  setDefinition st (toLowerCase word)
    (mkDefinition (toLowerCase word) (dd_general dd)
       (default ∅ (dd_contextual dd))
       (default intermediate (dd_difficulty dd))
       (orElse (dd_part_of_speech dd) "noun") None None).

(** updateDefinition(word, definitionData); [None] when it throws because the
    word has no definition. *)
Definition updateDefinition (st : Store) (word : string) (dd : DefinitionData)
  : option Store :=
  match definitionsDB st !! toLowerCase word with
  | None => None
  | Some existing =>
      Some (setDefinition st (toLowerCase word)
              (mkDefinition (def_word existing) (dd_general dd)
                 (default (contextual existing) (dd_contextual dd))
                 (default (def_difficulty existing) (dd_difficulty dd))
                 (orElse (dd_part_of_speech dd) (part_of_speech existing))
                 (pronunciation existing) (def_audio_file existing)))
  end.

(** removeDefinition(word) *)
Definition removeDefinition (st : Store) (word : string) : Store :=
  mkStore (delete (toLowerCase word) (definitionsDB st)) (sentencesDB st)
          (similarWordsDB st) (distractorsDB st).

(** addSentenceExample(word, sentenceData) *)
Definition addSentenceExample (st : Store) (word : string) (sd : SentenceData)
  : Store :=
  let s := mkSentence (sd_sentence sd)
             (match sd_translation sd with
              | Some t => if truthy t then Some t else None
              | None => None
              end)
             (orElse (sd_context sd) "general")
             (orElse (sd_difficulty sd) "intermediate") None None in
  let existing := default [] (sentencesDB st !! toLowerCase word) in
  setSentences st (toLowerCase word) (existing ++ [s]).

(** One call on the store. *)
Inductive Mutation :=
| LoadDefinitions (data : list DefinitionRec)
| LoadSentences (file : string) (data : list SentenceExample)
| LoadSimilarWords (file : string) (data : list SimilarWord)
| LoadDistractors (file : string) (data : list string)
| AddDefinition (d : DefinitionRec)
| AddSentenceExamples (word : string) (l : list SentenceExample)
| AddAdminDefinition (word : string) (dd : DefinitionData)
| UpdateDefinition (word : string) (dd : DefinitionData)
| RemoveDefinition (word : string)
| AddSentenceExample (word : string) (sd : SentenceData).

(** A call that throws leaves the store as it was. *)
Definition applyMutation (st : Store) (m : Mutation) : Store :=
  match m with
  | LoadDefinitions data => loadDefinitions st data
  | LoadSentences f data => loadSentences st f data
  | LoadSimilarWords f data => loadSimilarWords st f data
  | LoadDistractors f data => loadDistractors st f data
  | AddDefinition d => addDefinition st d
  | AddSentenceExamples w l => addSentenceExamples st w l
  | AddAdminDefinition w dd => addAdminDefinition st w dd
  | UpdateDefinition w dd => default st (updateDefinition st w dd)
  | RemoveDefinition w => removeDefinition st w
  | AddSentenceExample w sd => addSentenceExample st w sd
  end.

(** Every key of the definitions map is in lower case. *)
Definition lowerCaseKeys (st : Store) : Prop :=
  forall k d, definitionsDB st !! k = Some d -> toLowerCase k = k.

(** The stores the service can hold: the empty one of the constructor,
    followed by any calls. *)
Inductive reachable : Store -> Prop :=
| reachable_empty : reachable emptyStore
| reachable_step st m : reachable st -> reachable (applyMutation st m).

End DataService.

(* ===================================================================== *)
(** * The host: random numbers, the clock, regular expressions *)
(* ===================================================================== *)

Module Host.
Import JS.

(** What the host will answer: the coming results of Math.random() and the
    coming readings of Date.now(). *)
Record World := mkWorld {
  randoms : nat -> Q;
  clock : nat -> Z
}.

(** Math.random() returns a number in [0, 1). *)
Definition unitDraws (w : World) : Prop :=
  forall n, (0 <= randoms w n)%Q /\ (randoms w n < 1)%Q.

(** A computation returns a value and the rest of the world, or throws. *)
Inductive Completion (A : Type) :=
| Normal (a : A) (w : World)
| Throw (e : string).
Arguments Normal {A} a w.
Arguments Throw {A} e.

Definition M (A : Type) : Type := World -> Completion A.

Definition ret {A} (a : A) : M A := fun w => Normal a w.

Definition bind {A B} (m : M A) (k : A -> M B) : M B :=
  fun w => match m w with
           | Normal a w' => k a w'
           | Throw e => Throw e
           end.

Definition throw {A} (e : string) : M A := fun _ => Throw e.

(** The value a computation returned, if it did. *)
Definition returned {A} (c : Completion A) : option A :=
  match c with Normal a _ => Some a | Throw _ => None end.

Definition random : M Q :=
  fun w => Normal (randoms w 0) (mkWorld (fun n => randoms w (S n)) (clock w)).

Definition now : M Z :=
  fun w => Normal (clock w 0) (mkWorld (randoms w) (fun n => clock w (S n))).

(** <<Math.floor(Math.random() * n)>>, the product taken exactly; the
    binary64 product of a draw below 1 and n stays below n as well. *)
Definition randomIndex (n : nat) : M nat :=
  bind random (fun r => ret (Z.to_nat (Qfloor (r * inject_Z (Z.of_nat n))))).

(** The two uses the services make of RegExp, for a word w and a subject s.
    - [replaceWholeWord w s] is
      <<s.replace(new RegExp(`\\b${w}\\b`, 'gi'), '_____')>>
    - [matchWholeWord w s] is <<s.match(new RegExp(`\\b${w}\\b`, 'i'))>>,
      [Some None] for null and [Some (Some m)] for a match whose element 0
      is m.
    The word is spliced into the pattern as it is, so the constructor
    throws a SyntaxError on some words: [None]. *)
Record RegExp := mkRegExp {
  replaceWholeWord : string -> string -> option string;
  matchWholeWord : string -> string -> option (option string)
}.

(** ** An engine for plain words

    For a word made of word characters only the pattern is the word itself
    between two word boundaries.  [literalRegExp] implements that case
    only: it is used on such words, and its answer [None] on any other
    word says nothing about the host's RegExp. *)

Fixpoint allWordChars (s : string) : bool :=
  match s with
  | EmptyString => true
  | String c r => isWordChar c && allWordChars r
  end.

Definition plainWord (w : string) : bool := truthy w && allWordChars w.

(** The word, whatever its case, starts [s] and ends on a word boundary. *)
Definition matchesHere (w s : string) : bool :=
  String.prefix (toLowerCase w) (toLowerCase s) &&
  match String.get (String.length w) s with
  | Some c => negb (isWordChar c)
  | None => true
  end.

Fixpoint findWholeWord (prevIsWord : bool) (w s : string) : option nat :=
  match s with
  | EmptyString => None
  | String c r =>
      if negb prevIsWord && matchesHere w s then Some 0
      else S <$> findWholeWord (isWordChar c) w r
  end.

Fixpoint replaceWholeWords (prevIsWord : bool) (skip : nat) (w s : string)
  : string :=
  match s with
  | EmptyString => EmptyString
  | String c r =>
      match skip with
      | S k => replaceWholeWords true k w r
      | O =>
          if negb prevIsWord && matchesHere w s
          then "_____" +:+ replaceWholeWords true (String.length w - 1) w r
          else String c (replaceWholeWords (isWordChar c) 0 w r)
      end
  end.

Definition literalRegExp : RegExp :=
  mkRegExp
    (fun w s => if plainWord w then Some (replaceWholeWords false 0 w s) else None)
    (fun w s =>
       if plainWord w
       then Some ((fun p => String.substring p (String.length w) s)
                    <$> findWholeWord false w s)
       else None).

End Host.

(* ===================================================================== *)
(** * class ExerciseTemplateService *)
(* ===================================================================== *)

Module ExerciseTemplate.
Import JS DataService Host.

Inductive ExerciseKind :=
| multiple_choice | fill_in_blank | matching | true_false | sentence_completion.

(** An element of the words argument: {id, value, meaning}. *)
Record WordItem := mkWord {
  w_id : string;
  value : string;
  meaning : string
}.

(** interface Exercise *)
Record Exercise := mkExercise {
  id : string;
  type : ExerciseKind;
  question : string;
  options : option (list string);
  correct : string;
  word : string;
  context : string;
  difficulty : string;
  explanation : option string
}.

(** getDifficultyForWord(word) *)
Definition getDifficultyForWord (w : string) : string :=
  if (String.length w <=? 4)%nat then "beginner"
  else if (String.length w <=? 8)%nat then "intermediate"
  else "advanced".

(** <<[a[i], a[j]] = [a[j], a[i]]>> for two indices inside the array; the
    loop of shuffleArray produces no others from draws in [0, 1).  (Outside,
    the host would grow the array with holes, which a list does not
    represent: the array is then left as it is.) *)
Definition swap {T} (a : list T) (i j : nat) : list T :=
  match a !! i, a !! j with
  | Some x, Some y => <[j := x]> (<[i := y]> a)
  | _, _ => a
  end.

(** The loop of shuffleArray, entered with i = [n]: it runs for
    i = n, n-1, ..., 1. *)
Fixpoint shuffleLoop {T} (n : nat) (shuffled : list T) : M (list T) :=
  match n with
  | O => ret shuffled
  | S n' =>
      bind (randomIndex (n + 1)) (fun j =>
      shuffleLoop n' (swap shuffled n j))
  end.

(** shuffleArray(array) *)
Definition shuffleArray {T} (array : list T) : M (list T) :=
  shuffleLoop (length array - 1) array.

(** <<`prefix_${id}_${Date.now()}`>> *)
Definition makeId (pfx : string) (w : WordItem) (t : Z) : string :=
  pfx +:+ "_" +:+ w_id w +:+ "_" +:+ numberToString t.

(** A context string spliced into a template stands for itself. *)
Definition contextArg (ctx : string) : option string := Some ctx.

(** generateMultipleChoice(word, context) *)
Definition generateMultipleChoice (st : Store) (w : WordItem) (ctx : string)
  : M Exercise :=
  let distractors := getDistractors st (value w) (contextArg ctx) in
  let allOptions := meaning w :: take 3 distractors in
  bind (shuffleArray allOptions) (fun shuffledOptions =>
  bind now (fun t =>
  ret (mkExercise
         (makeId "mc" w t)
         multiple_choice
         ("What does " +:+ quoted (value w) +:+ " mean" +:+
          (if truthy ctx then " in the context of " +:+ ctx else EmptyString)
          +:+ "?")
         (Some shuffledOptions)
         (meaning w)
         (value w)
         ctx
         (getDifficultyForWord (value w))
         (Some (quoted (value w) +:+ " means: " +:+ meaning w))))).

Section WithRegExp.
Variable re : RegExp.

(** generateFillInBlank(word, context) *)
Definition generateFillInBlank (st : Store) (w : WordItem) (ctx : string)
  : M Exercise :=
  let sentences := getSentenceExamples st (value w) (contextArg ctx) in
  if (0 <? length sentences)%nat then
    bind (randomIndex (length sentences)) (fun k =>
    match sentences !! k with
    | None => throw "TypeError"
    | Some s =>
        match replaceWholeWord re (value w) (sentence s) with
        | None => throw "SyntaxError"
        | Some questionSentence =>
            bind now (fun t =>
            ret (mkExercise
                   (makeId "fib" w t)
                   fill_in_blank
                   ("Fill in the blank: " +:+ questionSentence)
                   None
                   (value w)
                   (value w)
                   ctx
                   (getDifficultyForWord (value w))
                   (Some ("The correct word is " +:+ quoted (value w) +:+
                          " which means: " +:+ meaning w))))
        end
    end)
  else
    bind now (fun t =>
    ret (mkExercise
           (makeId "fib" w t)
           fill_in_blank
           ("Complete the sentence: " +:+
            quoted "I need to use the _____ to complete this task." +:+
            " (Hint: " +:+ meaning w +:+ ")")
           None
           (value w)
           (value w)
           ctx
           (getDifficultyForWord (value w))
           (Some ("The correct word is " +:+ quoted (value w))))).

(** generateMatching(word, context) *)
Definition generateMatching (st : Store) (w : WordItem) (ctx : string)
  : M Exercise :=
  let distractors := getDistractors st (value w) (contextArg ctx) in
  let allOptions := meaning w :: take 3 distractors in
  bind (shuffleArray allOptions) (fun shuffledOptions =>
  bind now (fun t =>
  ret (mkExercise
         (makeId "match" w t)
         matching
         ("Match " +:+ quoted (value w) +:+ " with its correct definition:")
         (Some shuffledOptions)
         (meaning w)
         (value w)
         ctx
         (getDifficultyForWord (value w))
         (Some (quoted (value w) +:+ " matches with: " +:+ meaning w))))).

(** The statement of a true/false exercise about a candidate definition. *)
Definition statementOf (w : WordItem) (definition : string) : string :=
  quoted (value w) +:+ " means: " +:+ definition.

(** <<distractors[0] || 'an incorrect definition'>> *)
Definition falseDefinitionOf (st : Store) (w : WordItem) (ctx : string)
  : string :=
  let distractors := getDistractors st (value w) (contextArg ctx) in
  orElse (distractors !! 0%nat) "an incorrect definition".

(** generateTrueFalse(word, context) *)
Definition generateTrueFalse (st : Store) (w : WordItem) (ctx : string)
  : M Exercise :=
  bind random (fun r =>
  let isTrue := negb (Qle_bool r (1 # 2)) in
  let '(statement, correctAnswer) :=
    if isTrue then (statementOf w (meaning w), "True")
    else (statementOf w (falseDefinitionOf st w ctx), "False") in
  bind now (fun t =>
  ret (mkExercise
         (makeId "tf" w t)
         true_false
         ("True or False: " +:+ statement)
         (Some ["True"; "False"])
         correctAnswer
         (value w)
         ctx
         (getDifficultyForWord (value w))
         (Some ("The correct answer is " +:+ correctAnswer +:+ ". " +:+
                quoted (value w) +:+ " means: " +:+ meaning w))))).

(** <<words.findIndex(w => w.toLowerCase().includes(target.toLowerCase()))>> *)
Fixpoint findIndexIncluding (target : string) (ws : list string) : option nat :=
  match ws with
  | [] => None
  | x :: rest =>
      if includes (toLowerCase x) (toLowerCase target) then Some 0%nat
      else S <$> findIndexIncluding target rest
  end.

(** generateSentenceCompletion(word, context) *)
Definition generateSentenceCompletion (st : Store) (w : WordItem) (ctx : string)
  : M Exercise :=
  let fallback : M Exercise :=
    bind now (fun t =>
    ret (mkExercise
           (makeId "sc" w t)
           sentence_completion
           ("Use " +:+ quoted (value w) +:+
            " in a sentence that demonstrates its meaning: " +:+ meaning w)
           None
           (value w)
           (value w)
           ctx
           (getDifficultyForWord (value w))
           (Some ("Sample usage: The word " +:+ quoted (value w) +:+
                  " can be used to express " +:+ meaning w)))) in
  let sentences := getSentenceExamples st (value w) (contextArg ctx) in
  if (0 <? length sentences)%nat then
    bind (randomIndex (length sentences)) (fun k =>
    match sentences !! k with
    | None => throw "TypeError"
    | Some s =>
        let words := splitSpace (sentence s) in
        match findIndexIncluding (value w) words with
        | Some wordIndex =>
            let incompleteSentence :=
              joinSpace (imap (fun i x => if (i =? wordIndex)%nat then "_____" else x)
                              words) in
            bind now (fun t =>
            ret (mkExercise
                   (makeId "sc" w t)
                   sentence_completion
                   ("Complete this sentence: " +:+ incompleteSentence)
                   None
                   (value w)
                   (value w)
                   ctx
                   (getDifficultyForWord (value w))
                   (Some ("The complete sentence is: " +:+ sentence s))))
        | None => fallback
        end
    end)
  else fallback.

(** The switch of generateExerciseForWord; [None] is the value undefined,
    read past the end of an empty exerciseTypes. *)
Definition dispatch (st : Store) (w : WordItem) (ctx : string)
    (exerciseType : option string) : M Exercise :=
  match exerciseType with
  | Some t =>
      if String.eqb t "multiple_choice" then generateMultipleChoice st w ctx
      else if String.eqb t "fill_in_blank" then generateFillInBlank st w ctx
      else if String.eqb t "matching" then generateMatching st w ctx
      else if String.eqb t "true_false" then generateTrueFalse st w ctx
      else if String.eqb t "sentence_completion"
           then generateSentenceCompletion st w ctx
      else generateMultipleChoice st w ctx
  | None => generateMultipleChoice st w ctx
  end.

(** generateExerciseForWord(word, context, exerciseTypes, ...): its result
    type is <<Exercise | null>>. *)
Definition generateExerciseForWord (st : Store) (w : WordItem) (ctx : string)
    (exerciseTypes : list string) : M (option Exercise) :=
  bind (randomIndex (length exerciseTypes)) (fun k =>
  bind (dispatch st w ctx (exerciseTypes !! k)) (fun e =>
  ret (Some e))).

(** The loop of generateExercises. *)
Fixpoint generateExercisesLoop (st : Store) (words : list WordItem)
    (ctx : string) (exerciseTypes : list string) (exercises : list Exercise)
  : M (list Exercise) :=
  match words with
  | [] => ret exercises
  | w :: rest =>
      bind (generateExerciseForWord st w ctx exerciseTypes) (fun wordExercise =>
      match wordExercise with
      | Some e => generateExercisesLoop st rest ctx exerciseTypes (exercises ++ [e])
      | None => generateExercisesLoop st rest ctx exerciseTypes exercises
      end)
  end.

(** generateExercises(words, context, exerciseTypes, baseLanguage,
    targetLanguage), on a loaded store; the two languages are not used. *)
Definition generateExercises (st : Store) (words : list WordItem)
    (ctx : string) (exerciseTypes : list string) : M (list Exercise) :=
  generateExercisesLoop st words ctx exerciseTypes [].

End WithRegExp.

(** normalizeAnswer(answer) *)
Definition normalizeAnswer (answer : string) : string :=
  toLowerCase (trim answer).

(** The result of validateAnswer. *)
Record Validation := mkValidation {
  isCorrect : bool;
  v_explanation : string;
  feedback : string
}.

(** validateAnswer(userAnswer, correctAnswer, exercise) *)
Definition validateAnswer (userAnswer correctAnswer : string) (e : Exercise)
  : Validation :=
  let ok := String.eqb (normalizeAnswer userAnswer) (normalizeAnswer correctAnswer) in
  mkValidation ok
    (orElse (explanation e) ("The correct answer is: " +:+ correctAnswer))
    (if ok
     then "Correct! " +:+ quoted (word e) +:+ " " +:+
          orElse (explanation e) correctAnswer
     else "Incorrect. The right answer is: " +:+ correctAnswer).

End ExerciseTemplate.

(* ===================================================================== *)
(** * class SentenceService *)
(* ===================================================================== *)

Module Sentence.
Import JS DataService Host.

(** An element of the words argument: {value, meaning}. *)
Record PassageWord := mkPassageWord {
  pw_value : string;
  pw_meaning : string
}.

Record Highlight := mkHighlight {
  h_word : string;
  h_definition : string;
  position : nat
}.

(** interface ReadingPassage *)
Record ReadingPassage := mkPassage {
  title : string;
  content : string;
  word_count : Z;
  reading_time_minutes : Z;
  highlighted_words : list Highlight;
  p_difficulty : Difficulty;
  p_context : string
}.

(** The three functions below read a table, an object literal, under the
    context as it is given and fall back on the entry default.  They are
    embedded for a context that is not in [objectPrototypeNames]: under
    such a name the table answers with an inherited value, which is truthy
    and no string, and the code carries that value on. *)

(** generateIntroSentence(context) *)
Definition generateIntroSentence (ctx : string) : string :=
  match ctx with
  | "business" => "In the business world, understanding key terminology is essential."
  | "daily" => "In our everyday lives, we encounter many important concepts."
  | "technology" => "Modern technology relies on specific terminology that's important to understand."
  | "sports" => "Sports and athletic activities involve specialized vocabulary."
  | "geography" => "Understanding geographical terms helps us describe the world around us."
  | "academic" => "Academic study requires familiarity with specialized vocabulary."
  | _ => "Learning new vocabulary helps us communicate more effectively."
  end.

(** generateConclusionSentence(context) *)
Definition generateConclusionSentence (ctx : string) : string :=
  match ctx with
  | "business" => "These terms form the foundation of business communication."
  | "daily" => "These words help us express ourselves in daily conversations."
  | "technology" => "Understanding these terms is key to navigating the digital world."
  | "sports" => "This vocabulary is essential for discussing athletic activities."
  | "geography" => "These terms help us describe and understand our physical world."
  | "academic" => "This vocabulary is fundamental for academic success."
  | _ => "Mastering these words will improve your communication skills."
  end.

(** generateTitle(context) *)
Definition generateTitle (ctx : string) : string :=
  match ctx with
  | "business" => "Business Vocabulary in Context"
  | "daily" => "Everyday English Conversations"
  | "technology" => "Technology Terms and Usage"
  | "sports" => "Sports and Athletic Vocabulary"
  | "geography" => "Geographical Terms and Descriptions"
  | "academic" => "Academic Vocabulary in Practice"
  | _ => "Vocabulary in Context"
  end.

(** The sentences getSentencesForWords stores for one word: those of the
    context, then those of the level. *)
Definition sentencesAtLevel (st : Store) (w : string) (ctx : string)
    (level : Difficulty) : list SentenceExample :=
  List.filter (fun s => String.eqb (sent_difficulty s) (difficultyName level))
              (getSentenceExamples st w (Some ctx)).

(** getSentencesForWords(words, context, difficulty), called with a level. *)
Definition getSentencesForWords (st : Store) (words : list string)
    (ctx : string) (level : Difficulty) : gmap string (list SentenceExample) :=
  foldl (fun sentenceMap w => <[w := sentencesAtLevel st w ctx level]> sentenceMap)
        ∅ words.

(** The variables of the loop of generateReadingPassage. *)
Record Draft := mkDraft {
  passageContent : string;
  currentPosition : nat;
  highlightedWords : list Highlight;
  usedSentences : list string
}.

Section WithRegExp.
Variable re : RegExp.

(** One turn of the loop <<for (const word of words)>>; [None] when the
    RegExp constructor throws. *)
Definition addWord (sentenceMap : gmap string (list SentenceExample))
    (d : Draft) (w : PassageWord) : option Draft :=
  match default [] (sentenceMap !! pw_value w) with
  | [] => Some d
  | s :: _ =>
      match matchWholeWord re (pw_value w) (sentence s) with
      | None => None
      | Some wordMatch =>
          let highlights :=
            match wordMatch with
            | Some m =>
                let wordPositionInSentence :=
                  default 0%nat (indexOf (sentence s) m) in
                (highlightedWords d ++
                  [mkHighlight (pw_value w) (pw_meaning w)
                     (currentPosition d + wordPositionInSentence)%nat])%list
            | None => highlightedWords d
            end in
          let passage := passageContent d +:+ sentence s +:+ " " in
          Some (mkDraft passage (String.length passage) highlights
                        (usedSentences d ++ [sentence s])%list)
      end
  end.

Fixpoint addWords (sentenceMap : gmap string (list SentenceExample))
    (d : Draft) (words : list PassageWord) : option Draft :=
  match words with
  | [] => Some d
  | w :: rest =>
      match addWord sentenceMap d w with
      | Some d' => addWords sentenceMap d' rest
      | None => None
      end
  end.

(** generateReadingPassage(words, context, difficulty), on a loaded store;
    [None] when it throws. *)
Definition generateReadingPassage (st : Store) (words : list PassageWord)
    (ctx : string) (level : Difficulty) : option ReadingPassage :=
  let sentenceMap := getSentencesForWords st (pw_value <$> words) ctx level in
  let intro := generateIntroSentence ctx in
  let d0 := mkDraft (intro +:+ " ") (String.length intro + 1)%nat [] [] in
  match addWords sentenceMap d0 words with
  | None => None
  | Some d =>
      let passage := passageContent d +:+ generateConclusionSentence ctx in
      let wordCount := Z.of_nat (splitWhitespaceLength passage) in
      let readingTimeMinutes := ceilDiv wordCount 200 in
      Some (mkPassage (generateTitle ctx) (trim passage) wordCount
                      readingTimeMinutes (highlightedWords d) level ctx)
  end.

End WithRegExp.

End Sentence.

(* ===================================================================== *)
(** * class ManualWordService *)
(* ===================================================================== *)

Module WordService.
Import JS DataService Host Sentence.

(** interface ValidationResult *)
Record ValidationResult := mkValidationResult {
  isCorrect : bool;
  explanation : string;
  feedback : string
}.

(** The local normalizeAnswer of validateAnswer. *)
Definition normalizeAnswer (answer : string) : string :=
  stripPunctuation (toLowerCase (trim answer)).

(** The flag isCorrect of validateAnswer. *)
Definition isAccepted (userAnswer correctAnswer : string) : bool :=
  let normalizedUser := normalizeAnswer userAnswer in
  let normalizedCorrect := normalizeAnswer correctAnswer in
  let isExactMatch := String.eqb normalizedUser normalizedCorrect in
  let isPartialMatch :=
    includes normalizedUser normalizedCorrect ||
    includes normalizedCorrect normalizedUser in
  isExactMatch ||
  (isPartialMatch &&
   exceedsSeventyPercent (String.length normalizedUser)
                         (String.length normalizedCorrect)).

(** validateAnswer(userAnswer, correctAnswer, context, baseLanguage,
    targetLanguage); the last three arguments are not used. *)
Definition validateAnswer (userAnswer correctAnswer : string)
  : ValidationResult :=
  let normalizedUser := normalizeAnswer userAnswer in
  let normalizedCorrect := normalizeAnswer correctAnswer in
  let isPartialMatch :=
    includes normalizedUser normalizedCorrect ||
    includes normalizedCorrect normalizedUser in
  let ok := isAccepted userAnswer correctAnswer in
  if ok then
    mkValidationResult ok
      ("Correct! " +:+ quoted correctAnswer +:+ " is the right answer.")
      ("Well done! Your answer " +:+ quoted userAnswer +:+ " is correct.")
  else if isPartialMatch then
    mkValidationResult ok
      ("Close, but not quite right. The correct answer is " +:+
       quoted correctAnswer +:+ ".")
      ("You're on the right track with " +:+ quoted userAnswer +:+
       ", but the exact answer is " +:+ quoted correctAnswer +:+ ".")
  else
    mkValidationResult ok
      ("Incorrect. The correct answer is " +:+ quoted correctAnswer +:+ ".")
      ("Not quite. Your answer " +:+ quoted userAnswer +:+ " doesn't match " +:+
       quoted correctAnswer +:+ ". Try again!").

(** interface ReadingResult *)
Record ReadingResult := mkReadingResult {
  r_title : string;
  r_content : string;
  r_word_count : Z;
  r_reading_time_minutes : Z;
  r_highlighted_words : list Highlight;
  list_name : string;
  list_context : string;
  level : string;
  words_included : nat;
  total_words_in_list : nat
}.

(** generateLightReading(words, context, baseLanguage, targetLanguage,
    level), on a loaded store; [None] when it throws. *)
Definition generateLightReading (re : RegExp) (st : Store)
    (words : list PassageWord) (ctx : string) (lvl : Difficulty)
  : option ReadingResult :=
  match generateReadingPassage re st words ctx lvl with
  | None => None
  | Some readingPassage =>
      Some (mkReadingResult
              (title readingPassage)
              (content readingPassage)
              (word_count readingPassage)
              (reading_time_minutes readingPassage)
              (highlighted_words readingPassage)
              (ctx +:+ " Vocabulary")
              ctx
              (difficultyName (p_difficulty readingPassage))
              (length (highlighted_words readingPassage))
              (length words))
  end.

End WordService.

(* ===================================================================== *)
(** * class DataLoader *)
(* ===================================================================== *)

Module Loader.
Import JS DataService.

(** interface DataLoadStats *)
Record DataLoadStats := mkLoadStats {
  definitionsLoaded : nat;
  sentencesLoaded : nat;
  exerciseTemplatesLoaded : nat;
  similarWordsLoaded : nat;
  distractorsLoaded : nat;
  loadTime : Z;
  load_errors : list string
}.

Record ValidationStats := mkValidationStats {
  totalWords : nat;
  wordsWithSentences : nat;
  wordsWithSimilar : nat;
  wordsWithDistractions : nat;
  contextsFound : list string
}.

(** interface DataValidationResult *)
Record DataValidationResult := mkValidationResult {
  isValid : bool;
  errors : list string;
  warnings : list string;
  stats : ValidationStats
}.

(** The variables of the loop of validateDataIntegrity; the Set
    contextsFound is the list of its elements in insertion order. *)
Record Tally := mkTally {
  t_errors : list string;
  t_warnings : list string;
  t_wordsWithSentences : nat;
  t_wordsWithSimilar : nat;
  t_wordsWithDistractions : nat;
  t_contextsFound : list string
}.

(** <<set.add(x)>> *)
Definition setAdd (set : list string) (x : string) : list string :=
  if bool_decide (x ∈ set) then set else (set ++ [x])%list.

(** One turn of the loop <<for (const word of allWords)>>. *)
Definition checkWord (st : Store) (t : Tally) (word : string) : Tally :=
  let sentences := getSentenceExamples st word None in
  let t1 :=
    if (0 <? length sentences)%nat
    then mkTally (t_errors t) (t_warnings t) (S (t_wordsWithSentences t))
                 (t_wordsWithSimilar t) (t_wordsWithDistractions t)
                 (foldl setAdd (t_contextsFound t) (sent_context <$> sentences))
    else mkTally (t_errors t)
                 (t_warnings t ++
                    ["Word " +:+ quoted word +:+ " has no example sentences"])%list
                 (t_wordsWithSentences t) (t_wordsWithSimilar t)
                 (t_wordsWithDistractions t) (t_contextsFound t) in
  let similar := getSimilarWords st word in
  let t2 :=
    if (0 <? length similar)%nat
    then mkTally (t_errors t1) (t_warnings t1) (t_wordsWithSentences t1)
                 (S (t_wordsWithSimilar t1)) (t_wordsWithDistractions t1)
                 (t_contextsFound t1)
    else t1 in
  let distractors := getDistractors st word None in
  let t3 :=
    if (3 <=? length distractors)%nat
    then mkTally (t_errors t2) (t_warnings t2) (t_wordsWithSentences t2)
                 (t_wordsWithSimilar t2) (S (t_wordsWithDistractions t2))
                 (t_contextsFound t2)
    else mkTally (t_errors t2)
                 (t_warnings t2 ++
                    ["Word " +:+ quoted word +:+ " has insufficient distractors (" +:+
                     numberToString (Z.of_nat (length distractors)) +:+ "/3)"])%list
                 (t_wordsWithSentences t2) (t_wordsWithSimilar t2)
                 (t_wordsWithDistractions t2) (t_contextsFound t2) in
  let definition := getDefinition st word None in
  if includes definition "Definition not found"
  then mkTally (t_errors t3 ++ ["No definition found for word " +:+ quoted word])%list
               (t_warnings t3) (t_wordsWithSentences t3) (t_wordsWithSimilar t3)
               (t_wordsWithDistractions t3) (t_contextsFound t3)
  else t3.

(** validateExerciseTemplates(contexts, warnings): the warnings it adds. *)
Definition validateExerciseTemplates (contexts : list string) : list string :=
  let knownTemplates := ["business"; "daily"; "technology"; "sports"] in
  (fun c => "No exercise templates found for context " +:+ quoted c)
    <$> List.filter (fun c => negb (bool_decide (c ∈ knownTemplates))) contexts.

(** <<Array.from(contextsFound).sort()>>: order of code units. *)
Definition codeUnitLe (a b : string) : Prop := String.leb a b = true.

#[local] Instance codeUnitLe_dec a b : Decision (codeUnitLe a b) :=
  bool_eq_dec (String.leb a b) true.

Definition sortStrings (l : list string) : list string :=
  merge_sort codeUnitLe l.

(** validateDataIntegrity(); validateOrphanedSentences has an empty body. *)
Definition validateDataIntegrity (st : Store) : DataValidationResult :=
  let allWords := getAllWords st in
  let t := foldl (checkWord st) (mkTally [] [] 0 0 0 []) allWords in
  let warnings' := (t_warnings t ++ validateExerciseTemplates (t_contextsFound t))%list in
  mkValidationResult
    (bool_decide (length (t_errors t) = 0%nat))
    (t_errors t)
    warnings'
    (mkValidationStats (length allWords) (t_wordsWithSentences t)
       (t_wordsWithSimilar t) (t_wordsWithDistractions t)
       (sortStrings (t_contextsFound t))).

(** ** initializeWithRetry *)

(** How one call of loadAllData() ends: with statistics, or by throwing an
    Error with a message. *)
Inductive LoadOutcome :=
| Loaded (s : DataLoadStats)
| Failed (message : string).

(** How initializeWithRetry ends. *)
Inductive RetryOutcome :=
| Resolved (s : DataLoadStats)
| Rejected (message : string).

(** A run: the calls of loadAllData() made, the delays passed to setTimeout
    in order (milliseconds), and the end. *)
Record RetryRun := mkRun {
  calls : nat;
  delays : list Z;
  outcome : RetryOutcome
}.

(** <<Math.min(1000 * Math.pow(2, attempt - 1), 5000)>> *)
Definition backoff (attempt : Z) : Z :=
  Z.min (1000 * 2 ^ (attempt - 1)) 5000.

(** The message of the Error thrown after the loop; <<lastError?.message>>
    of null prints as undefined. *)
Definition exhaustedMessage (maxRetries : Z) (lastError : option string)
  : string :=
  "Failed to load data after " +:+ numberToString maxRetries +:+
  " attempts. Last error: " +:+ default "undefined" lastError.

Section Retry.
(** [load k] is the end of call number k (from 0) of loadAllData(). *)
Variable load : nat -> LoadOutcome.
Variable maxRetries : Z.

(** The loop <<for (attempt = 1; attempt <= maxRetries; attempt++)>> with
    [remaining] turns left before the test fails. *)
Fixpoint retryLoop (remaining : nat) (attempt : Z) (lastError : option string)
    (made : nat) (slept : list Z) : RetryRun :=
  match remaining with
  | O => mkRun made slept (Rejected (exhaustedMessage maxRetries lastError))
  | S remaining' =>
      match load made with
      | Loaded s => mkRun (S made) slept (Resolved s)
      | Failed message =>
          let slept' :=
            if (attempt <? maxRetries)%Z
            then (slept ++ [backoff attempt])%list
            else slept in
          retryLoop remaining' (attempt + 1)%Z (Some message) (S made) slept'
      end
  end.

(** initializeWithRetry(maxRetries), for an integral maxRetries. *)
Definition initializeWithRetry : RetryRun :=
  retryLoop (Z.to_nat maxRetries) 1%Z None 0%nat [].

End Retry.

End Loader.

(* ===================================================================== *)
(** * Concrete stores and inputs *)
(* ===================================================================== *)

Module Scenarios.
Import JS DataService Host.

Definition bankDefinition (contexts : gmap string string) : DefinitionRec :=
  mkDefinition "bank" "financial institution" contexts beginner "noun" None None.

(** The definition of the data README: contexts in lower case. *)
Definition bankStore : Store :=
  addDefinition emptyStore (bankDefinition {[ "geography" := "river edge" ]}).

(** The same entry under a capitalised context name. *)
Definition capitalisedContextStore : Store :=
  addDefinition emptyStore (bankDefinition {[ "Geography" := "river edge" ]}).

(** Two curated distractors for bank under daily, nothing else. *)
Definition twoCuratedStore : Store :=
  loadDistractors emptyStore "daily_bank" ["river side"; "sea shore"].

(** Three curated distractors for bank under daily, four for bank alone. *)
Definition curatedStore : Store :=
  loadDistractors
    (loadDistractors emptyStore "daily_bank" ["a loan"; "a shop"; "a bench"])
    "bank" ["a river"; "a boat"; "a bridge"; "a road"].

(** A world whose draws go 0, 1/4, 2/4, 3/4, 0, ... and whose clock ticks
    from 1700000000000. *)
Definition demoWorld : World :=
  mkWorld (fun n => Z.of_nat (n mod 4) # 4)
          (fun n => (1700000000000 + Z.of_nat n)%Z).

Definition zephyr : ExerciseTemplate.WordItem :=
  ExerciseTemplate.mkWord "1" "zephyr" "???".

Definition bank : ExerciseTemplate.WordItem :=
  ExerciseTemplate.mkWord "7" "bank" "financial institution".

(** A curated distractor list for bank that starts with the meaning the
    learner's list gives to bank. *)
Definition overlappingStore : Store :=
  loadDistractors emptyStore "daily_bank"
    ["financial institution"; "a bench"; "a shop"].

(** A definition whose own text holds the words of the not-found message. *)
Definition echoStore : Store :=
  addDefinition emptyStore
    (mkDefinition "sentinel"
       "the reply Definition not found, given in place of a definition"
       ∅ advanced "noun" None None).

(** A load that fails twice and then succeeds. *)
Definition loadedStats : Loader.DataLoadStats :=
  Loader.mkLoadStats 12 30 0 8 20 41 [].

Definition flakyLoad (k : nat) : Loader.LoadOutcome :=
  match k with
  | 0%nat => Loader.Failed "ENOENT: no such file or directory"
  | 1%nat => Loader.Failed "Unexpected token } in JSON"
  | _ => Loader.Loaded loadedStats
  end.

Definition daily (level text : string) : SentenceExample :=
  mkSentence text None "daily" level None None.

(** bank and river have a sentence for daily at the intermediate level,
    zephyr has none. *)
Definition passageStore : Store :=
  loadSentences
    (loadSentences emptyStore "bank"
       [daily "intermediate" "She went to the bank before lunch."])
    "river" [daily "intermediate" "The river was calm."].



Definition passageWords : list Sentence.PassageWord :=
  [Sentence.mkPassageWord "bank" "financial institution";
   Sentence.mkPassageWord "river" "a stream of water";
   Sentence.mkPassageWord "zephyr" "a soft wind"].

End Scenarios.

(* ===================================================================== *)
(** * class ManualDataService: statistics and import *)
(* ===================================================================== *)

Module DataAdmin.
Import JS DataService.

(** <<distribution[pos] = (distribution[pos] || 0) + 1>> on the object
    distribution, which starts empty, for a part of speech that is not in
    [objectPrototypeNames]: under such a name the first read gives an
    inherited value and the sum is no number. *)
Definition countPartOfSpeech (dist : gmap string nat) (pos : string)
  : gmap string nat :=
  <[pos := S (default 0%nat (dist !! pos))]> dist.

(** getPartOfSpeechDistribution() *)
Definition getPartOfSpeechDistribution (st : Store) : gmap string nat :=
  foldl (fun dist kd => countPartOfSpeech dist (part_of_speech kd.2))
        ∅ (map_to_list (definitionsDB st)).

(** The Set built by getAvailableContexts(), in insertion order. *)
Definition collectContexts (st : Store) : list string :=
  let fromDefinitions :=
    foldl (fun contexts kd =>
             foldl Loader.setAdd contexts (map_to_list (contextual kd.2)).*1)
          [] (map_to_list (definitionsDB st)) in
  foldl (fun contexts kl => foldl Loader.setAdd contexts (sent_context <$> kl.2))
        fromDefinitions (map_to_list (sentencesDB st)).

(** getAvailableContexts() *)
Definition getAvailableContexts (st : Store) : list string :=
  Loader.sortStrings (collectContexts st).







End DataAdmin.

(* ===================================================================== *)
(** * class ExerciseTemplateService: quiz questions *)
(* ===================================================================== *)

Module ExerciseQuiz.
Import JS DataService Host ExerciseTemplate.

(** <<array.slice(0, end)>> for an integral end; a negative end counts back
    from the end of the array. *)
Definition sliceTo {A} (l : list A) (end_ : Z) : list A :=
  if (0 <=? end_)%Z then take (Z.to_nat end_) l
  else take (length l - Z.to_nat (- end_)) l.

(** The loop <<for (const word of selectedWords)>> of
    generateQuizQuestions. *)
Fixpoint quizLoop (st : Store) (selectedWords : list WordItem) (ctx : string)
    (exercises : list Exercise) : M (list Exercise) :=
  match selectedWords with
  | [] => ret exercises
  | w :: rest =>
      bind (generateMultipleChoice st w ctx) (fun exercise =>
      quizLoop st rest ctx (exercises ++ [exercise]))
  end.

(** generateQuizQuestions(words, context, baseLanguage, targetLanguage,
    questionCount), on a loaded store; the two languages are not used, and
    questionCount is 10 when it is not given. *)
Definition generateQuizQuestions (st : Store) (words : list WordItem)
    (ctx : string) (questionCount : Z) : M (list Exercise) :=
  bind (shuffleArray words) (fun shuffledWords =>
  let selectedWords := sliceTo shuffledWords questionCount in
  quizLoop st selectedWords ctx []).

End ExerciseQuiz.

(* ===================================================================== *)
(** * class SentenceService: search, checks and additions *)
(* ===================================================================== *)

Module SentenceSearch.
Import JS DataService Host ExerciseTemplate ExerciseQuiz.

(** interface SentenceSearchOptions; a limit is an integral number. *)
Record SentenceSearchOptions := mkSearch {
  o_context : option string;
  o_difficulty : option Difficulty;
  o_limit : option Z;
  o_includeTranslations : option bool
}.

(** getSentenceExamples(word, options), on a loaded store. *)
Definition getSentenceExamples (st : Store) (word : string)
    (options : SentenceSearchOptions) : list SentenceExample :=
  let sentences := DataService.getSentenceExamples st word (o_context options) in
  let sentences :=
    match o_difficulty options with
    | Some level =>
        List.filter (fun s => String.eqb (sent_difficulty s) (difficultyName level))
                    sentences
    | None => sentences
    end in
  let sentences :=
    match o_limit options with
    | Some limit => if (limit =? 0)%Z then sentences else sliceTo sentences limit
    | None => sentences
    end in
  match o_includeTranslations options with
  | Some false =>
      (fun s => mkSentence (sentence s) None (sent_context s) (sent_difficulty s)
                           (sent_audio_file s) (context_note s)) <$> sentences
  | _ => sentences
  end.

(** <<words.filter(word => sentence.toLowerCase().includes(word.toLowerCase()))>> *)
Definition wordsInSentence (words : list string) (s : SentenceExample)
  : list string :=
  List.filter (fun w => includes (toLowerCase (sentence s)) (toLowerCase w)) words.

(** <<self.findIndex(s => s.sentence === text)>>; [None] is -1. *)
Fixpoint findIndexOfText (text : string) (self : list SentenceExample)
  : option nat :=
  match self with
  | [] => None
  | s :: rest =>
      if String.eqb (sentence s) text then Some 0%nat
      else S <$> findIndexOfText text rest
  end.

(** <<self.filter((sentence, index, self) =>
      index === self.findIndex(s => s.sentence === sentence.sentence))>>,
    from the element of index [index] on. *)
Fixpoint keepFirstFrom (self : list SentenceExample) (index : nat)
    (rest : list SentenceExample) : list SentenceExample :=
  match rest with
  | [] => []
  | s :: rest' =>
      match findIndexOfText (sentence s) self with
      | Some k =>
          if (index =? k)%nat then s :: keepFirstFrom self (S index) rest'
          else keepFirstFrom self (S index) rest'
      | None => keepFirstFrom self (S index) rest'
      end
  end.

(** findSentencesWithMultipleWords(words, context, minWords), on a loaded
    store; minWords is 2 when it is not given. *)
Definition findSentencesWithMultipleWords (st : Store) (words : list string)
    (context : option string) (minWords : Z) : list SentenceExample :=
  let allSentences :=
    concat ((fun w => DataService.getSentenceExamples st w context) <$> words) in
  let validSentences :=
    List.filter (fun s => (minWords <=? Z.of_nat (length (wordsInSentence words s)))%Z)
                allSentences in
  keepFirstFrom validSentences 0 validSentences.

(** getSentencesByDifficulty(difficulty, context, limit), on a loaded
    store. *)
Definition getSentencesByDifficulty (st : Store) (level : Difficulty)
    (context : option string) (limit : option Z) : M (list SentenceExample) :=
  let sentences :=
    concat ((fun w =>
               List.filter
                 (fun s => String.eqb (sent_difficulty s) (difficultyName level))
                 (DataService.getSentenceExamples st w context))
              <$> getAllWords st) in
  bind (shuffleArray sentences) (fun shuffled =>
  ret (match limit with
       | Some n => if (n =? 0)%Z then shuffled else sliceTo shuffled n
       | None => shuffled
       end)).

(** The result of validateSentenceUsage. *)
Record UsageCheck := mkUsage {
  u_isValid : bool;
  u_feedback : string;
  u_suggestions : list string
}.

(** validateSentenceUsage(sentence, word, expectedMeaning) *)
Definition validateSentenceUsage (text word expectedMeaning : string)
  : UsageCheck :=
  let containsWord := includes (toLowerCase text) (toLowerCase word) in
  if negb containsWord then
    mkUsage false
      ("The sentence should contain the word " +:+ quoted word +:+ ".")
      ["Try using " +:+ quoted word +:+ " in your sentence.";
       "Make sure to spell " +:+ quoted word +:+ " correctly."]
  else
    let isValid := (10 <? String.length text)%nat && includes text " " in
    mkUsage isValid
      (if isValid
       then "Good use of " +:+ quoted word +:+ " in context!"
       else "The sentence could be improved to better demonstrate the meaning of "
            +:+ quoted word +:+ ".")
      (if isValid then []
       else ["Try to show the meaning of " +:+ quoted word +:+ " more clearly.";
             "Consider adding more context to your sentence.";
             "Make sure your sentence demonstrates: " +:+ expectedMeaning]).

(** A sentence as addSentenceExamples receives it: a SentenceExample without
    its audio file. *)
Definition withAudioFile (word : string) (s : SentenceExample) (t : Z)
  : SentenceExample :=
  mkSentence (sentence s) (translation s) (sent_context s) (sent_difficulty s)
             (Some (word +:+ "_" +:+ sent_context s +:+ "_" +:+
                    numberToString t +:+ ".mp3"))
             (context_note s).

(** The map of addSentenceExamples: one reading of the clock per sentence. *)
Fixpoint nameAudioFiles (word : string) (sentences : list SentenceExample)
  : M (list SentenceExample) :=
  match sentences with
  | [] => ret []
  | s :: rest =>
      bind now (fun t =>
      bind (nameAudioFiles word rest) (fun rest' =>
      ret (withAudioFile word s t :: rest')))
  end.

(** addSentenceExamples(word, sentences): the store afterwards. *)
Definition addSentenceExamples (st : Store) (word : string)
    (sentences : list SentenceExample) : M Store :=
  bind (nameAudioFiles word sentences) (fun fullSentences =>
  ret (DataService.addSentenceExamples st word fullSentences)).

End SentenceSearch.

(* ===================================================================== *)
(** * class DataLoader: loading and health *)
(* ===================================================================== *)

Module DataLoader.
Import JS DataService Host Loader.

(** How <<await manualDataService.loadAllData()>> ends: with the store in
    memory, or by throwing an Error with a message. *)
Inductive ServiceLoad :=
| DataReady (st : Store)
| DataError (message : string).

(** The private fields of class DataLoader. *)
Record LoaderState := mkLoader {
  isLoaded : bool;
  loadStats : option DataLoadStats
}.

(** <<new DataLoader()>> *)
Definition newLoader : LoaderState := mkLoader false None.

(** countSentences() *)
Definition countSentences (st : Store) : nat :=
  foldl (fun totalSentences word =>
           (totalSentences + length (getSentenceExamples st word None))%nat)
        0%nat (getAllWords st).

(** countSimilarWords() *)
Definition countSimilarWords (st : Store) : nat :=
  foldl (fun totalSimilar word =>
           (totalSimilar + length (getSimilarWords st word))%nat)
        0%nat (getAllWords st).

(** countDistractors() *)
Definition countDistractors (st : Store) : nat :=
  foldl (fun totalDistractors word =>
           (totalDistractors + length (getDistractors st word None))%nat)
        0%nat (getAllWords st).

(** loadAllData(): the fields afterwards and how the call ends.  The catch
    block adds to the local statistics and throws the error again; the
    fields are as before. *)
Definition loadAllData (service : ServiceLoad) (l : LoaderState)
  : M (LoaderState * LoadOutcome) :=
  bind now (fun startTime =>
  match service with
  | DataError message => ret (l, Failed message)
  | DataReady st =>
      let validation := validateDataIntegrity st in
      let errors' := if negb (isValid validation) then errors validation else [] in
      bind now (fun endTime =>
      let stats :=
        mkLoadStats (length (getAllWords st)) (countSentences st) 0
                    (countSimilarWords st) (countDistractors st)
                    (endTime - startTime)%Z errors' in
      ret (mkLoader true (Some stats), Loaded stats))
  end).

(** isDataLoaded() *)
Definition isDataLoaded (l : LoaderState) : bool := isLoaded l.

(** getLoadStats() *)
Definition getLoadStats (l : LoaderState) : option DataLoadStats := loadStats l.

(** reloadData() *)
Definition reloadData (service : ServiceLoad) (l : LoaderState)
  : M (LoaderState * LoadOutcome) :=
  loadAllData service (mkLoader false None).

Inductive Status := healthy | warning | error.

(** The object <<details>> of a health report; a field that is absent is
    [None]. *)
Record HealthDetails := mkDetails {
  d_loaded : bool;
  d_errors : option (list string);
  d_stats : option (option DataLoadStats)
}.

Record Health := mkHealth {
  status : Status;
  message : string;
  details : HealthDetails
}.

(** getHealthStatus() *)
Definition getHealthStatus (l : LoaderState) : Health :=
  if negb (isLoaded l) then
    mkHealth error "Data not loaded" (mkDetails false None None)
  else
    match loadStats l with
    | None =>
        mkHealth warning "Load stats unavailable" (mkDetails true None (Some None))
    | Some s =>
        if (0 <? length (load_errors s))%nat then
          mkHealth error "Data loaded with errors"
                   (mkDetails true (Some (load_errors s)) (Some (Some s)))
        else
          mkHealth healthy "All data loaded successfully"
                   (mkDetails true None (Some (Some s)))
    end.

(** The states of a loader: a new one, and what loadAllData() and
    reloadData() leave, however the data service answers. *)
Inductive reachable : LoaderState -> Prop :=
| reachable_new : reachable newLoader
| reachable_load l service w l' o w' :
    reachable l ->
    loadAllData service l w = Normal (l', o) w' ->
    reachable l'
| reachable_reload l service w l' o w' :
    reachable l ->
    reloadData service l w = Normal (l', o) w' ->
    reachable l'.

End DataLoader.


(* ===================================================================== *)
(** * class ManualLearnService *)
(* ===================================================================== *)

Module LearnService.
Import JS DataService Host ExerciseTemplate.

(** The object returned by getExerciseDifficultyRecommendations. *)
Record Recommendations := mkRecommendations {
  rec_beginner : list string;
  rec_intermediate : list string;
  rec_advanced : list string
}.

(** One turn of the loop of getExerciseDifficultyRecommendations. *)
Definition categorize (categorized : Recommendations) (word : WordItem)
  : Recommendations :=
  let length_ := String.length (value word) in
  let complexity := length (splitSpace (meaning word)) in
  if (length_ <=? 4)%nat && (complexity <=? 10)%nat then
    mkRecommendations (rec_beginner categorized ++ [value word])
                      (rec_intermediate categorized) (rec_advanced categorized)
  else if (length_ <=? 8)%nat && (complexity <=? 20)%nat then
    mkRecommendations (rec_beginner categorized)
                      (rec_intermediate categorized ++ [value word])
                      (rec_advanced categorized)
  else
    mkRecommendations (rec_beginner categorized) (rec_intermediate categorized)
                      (rec_advanced categorized ++ [value word]).

(** getExerciseDifficultyRecommendations(words) *)
Definition getExerciseDifficultyRecommendations (words : list WordItem)
  : Recommendations :=
  foldl categorize (mkRecommendations [] [] []) words.

(** The object returned by checkExerciseGenerationCapability. *)
Record Capability := mkCapability {
  canGenerate : bool;
  missingData : list string;
  suggestions : list string
}.

(** One turn of the loop of checkExerciseGenerationCapability, on the two
    arrays missingData and suggestions. *)
Definition checkWord (st : Store) (context : string)
    (found : list string * list string) (word : WordItem)
  : list string * list string :=
  let hasDefinition := hasWord st (value word) in
  let found1 :=
    if negb hasDefinition then
      (found.1 ++ ["Definition for " +:+ quoted (value word)],
       found.2 ++ ["Add definition for " +:+ quoted (value word) +:+
                   " to the manual database"])
    else found in
  let distractors := getDistractors st (value word) (contextArg context) in
  if (length distractors <? 3)%nat then
    (found1.1 ++ ["Distractors for " +:+ quoted (value word)],
     found1.2 ++ ["Add more distractors for " +:+ quoted (value word) +:+
                  " (currently " +:+
                  numberToString (Z.of_nat (length distractors)) +:+ "/3)"])
  else found1.

(** checkExerciseGenerationCapability(words, context), on a loaded store. *)
Definition checkExerciseGenerationCapability (st : Store)
    (words : list WordItem) (context : string) : Capability :=
  let found := foldl (checkWord st context) ([], []) words in
  mkCapability (bool_decide (length found.1 = 0%nat)) found.1 found.2.

End LearnService.

(* ===================================================================== *)
(** * class ManualQuizService: difficulty of a question *)
(* ===================================================================== *)

Module QuizService.
Import JS.

Inductive QuizDifficulty := easy | medium | hard.

(** assessDifficultyScore(word, context) *)
Definition assessDifficultyScore (word context : string) : Z :=
  let score := 0%Z in
  let score := if (8 <? String.length word)%nat then (score + 2)%Z else score in
  let score := if (12 <? String.length word)%nat then (score + 1)%Z else score in
  let complexContexts := ["academic"; "legal"; "medical"; "technology"] in
  let score :=
    if bool_decide (toLowerCase context ∈ complexContexts)
    then (score + 2)%Z else score in
  let commonWords :=
    ["the"; "and"; "or"; "but"; "in"; "on"; "at"; "to"; "for"; "with"] in
  let score :=
    if bool_decide (toLowerCase word ∈ commonWords)
    then (score - 2)%Z else score in
  Z.max 1 (Z.min 10 score).

(** assessDifficulty(word, context) *)
Definition assessDifficulty (word context : string) : QuizDifficulty :=
  let difficultyScore := assessDifficultyScore word context in
  if (difficultyScore <=? 3)%Z then easy
  else if (difficultyScore <=? 6)%Z then medium
  else hard.

End QuizService.

(* ===================================================================== *)
(** * class ManualVocabularyService *)
(* ===================================================================== *)

Module VocabularyService.
Import JS DataService Host ExerciseTemplate ExerciseQuiz.

(** assessWordDifficulty(word, context); the result is one of the strings
    basic, intermediate and advanced. *)
Definition assessWordDifficulty (word context : string) : string :=
  let length_ := String.length word in
  let complexContexts := ["academic"; "legal"; "medical"; "technology"] in
  let isComplexContext := bool_decide (toLowerCase context ∈ complexContexts) in
  if (length_ <=? 5)%nat && negb isComplexContext then "basic"
  else if (length_ <=? 8)%nat && negb isComplexContext then "intermediate"
  else "advanced".

(** filterByDifficulty(words, difficulty, context) *)
Definition filterByDifficulty (words : list string) (difficulty context : string)
  : list string :=
  List.filter (fun word => String.eqb (assessWordDifficulty word context) difficulty)
              words.

(** String.prototype.endsWith *)
Definition endsWith (s suffix : string) : bool :=
  (String.length suffix <=? String.length s)%nat &&
  String.eqb (String.substring (String.length s - String.length suffix)
                               (String.length suffix) s)
             suffix.

(** getPartOfSpeech(word) *)
Definition getPartOfSpeech (word : string) : string :=
  let commonNouns := ["book"; "house"; "car"; "tree"; "person"] in
  let commonVerbs := ["run"; "walk"; "eat"; "think"; "write"] in
  let commonAdjectives := ["big"; "small"; "beautiful"; "difficult"; "easy"] in
  if bool_decide (toLowerCase word ∈ commonNouns) then "noun"
  else if bool_decide (toLowerCase word ∈ commonVerbs) then "verb"
  else if bool_decide (toLowerCase word ∈ commonAdjectives) then "adjective"
  else if endsWith word "ing" then "verb"
  else if endsWith word "ly" then "adverb"
  else if endsWith word "ed" then "verb"
  else "noun".

(** getPronunciation(word) *)
Definition getPronunciation (word : string) : string := "/" +:+ word +:+ "/".

(** An element of the array returned by generateWords. *)
Record GeneratedWord := mkGenerated {
  gw_word : string;
  gw_meaning : string;
  gw_example : string;
  gw_difficulty_level : string;
  gw_context : string;
  gw_part_of_speech : string;
  gw_similar_words : list SimilarWord;
  gw_pronunciation : string
}.

(** <<definition && !definition.includes('Definition not found')>> for the
    definition of the word in the context; [None] when the definition read
    is an inherited value: it is truthy and has no method includes, so the
    call throws a TypeError. *)
Definition definedIn (st : Store) (context word : string) : option bool :=
  if returnsInherited st word (Some context) then None
  else
    let definition := getDefinition st word (Some context) in
    Some (truthy definition && negb (includes definition "Definition not found")).

(** <<array.filter(test)>> for a test that may throw; [None] when it does. *)
Fixpoint filterThrowing {A} (test : A -> option bool) (array : list A)
  : option (list A) :=
  match array with
  | [] => Some []
  | x :: rest =>
      match test x with
      | None => None
      | Some keep =>
          match filterThrowing test rest with
          | None => None
          | Some kept => Some (if keep then x :: kept else kept)
          end
      end
  end.

(** The words left by the three filters of generateWords; [None] when the
    first one throws. *)
Definition filteredWords (st : Store) (difficulty context : string)
    (excludeWords : list string) : option (list string) :=
  let allWords := getAllWords st in
  match filterThrowing (definedIn st context) allWords with
  | None => None
  | Some contextWords =>
      let availableWords :=
        List.filter
          (fun word =>
             negb (existsb (fun excluded =>
                              String.eqb (toLowerCase excluded) (toLowerCase word))
                           excludeWords))
          contextWords in
      Some (filterByDifficulty availableWords difficulty context)
  end.

(** The object made for one selected word; its definition was read as a
    string by the first filter. *)
Definition describeWord (st : Store) (context word : string) : GeneratedWord :=
  let definition := getDefinition st word (Some context) in
  let examples := getSentenceExamples st word None in
  let similarWords := getSimilarWords st word in
  mkGenerated
    word
    definition
    (match examples with
     | e :: _ => sentence e
     | [] => "Example sentence for " +:+ quoted word +:+ " would go here."
     end)
    (assessWordDifficulty word context)
    context
    (getPartOfSpeech word)
    (take 3 similarWords)
    (getPronunciation word).

(** generateWords(count, difficulty, context, baseLanguage, targetLanguage,
    excludeWords), on a loaded store and for an integral count; the two
    languages are not used, and excludeWords is empty when it is not
    given. *)
Definition generateWords (st : Store) (count : Z) (difficulty context : string)
    (excludeWords : list string) : M (list GeneratedWord) :=
  match filteredWords st difficulty context excludeWords with
  | None => throw "TypeError"
  | Some filtered =>
      bind (shuffleArray filtered) (fun shuffled =>
      let selectedWords :=
        sliceTo shuffled (Z.min count (Z.of_nat (length shuffled))) in
      ret (describeWord st context <$> selectedWords))
  end.

End VocabularyService.

(* ===================================================================== *)
(** * class ManualWordService: examples and new definitions *)
(* ===================================================================== *)

Module WordExamples.
Import JS DataService Host SentenceSearch.

(** generateExamples(word, meaning, context, baseLanguage, targetLanguage),
    on a loaded store; the two languages are not used. *)
Definition generateExamples (st : Store) (word meaning context : string)
  : list SentenceExample :=
  let sentences :=
    SentenceSearch.getSentenceExamples st word
      (mkSearch (Some context) None (Some 5%Z) (Some true)) in
  if (length sentences =? 0)%nat then
    [mkSentence
       ("Here is an example using " +:+ quoted word +:+
        ": This demonstrates the meaning of " +:+ word +:+ ".")
       (Some ("Aqu√≠ hay un ejemplo usando " +:+ quoted word +:+
              ": Esto demuestra el significado de " +:+ word +:+ "."))
       (if truthy context then context else "general")
       "beginner"
       None
       (Some ("Basic example for the word " +:+ quoted word +:+
              " meaning: " +:+ meaning))]
  else sentences.

(** generateSimilarWords(word, ...): the array similar_words. *)
Definition generateSimilarWords (st : Store) (word : string) : list SimilarWord :=
  let similarWords := getSimilarWords st word in
  if (length similarWords =? 0)%nat then [] else similarWords.

(** addWordDefinition(word, definition, context, difficulty, partOfSpeech):
    the store afterwards. *)
Definition addWordDefinition (st : Store) (word definition context : string)
    (difficulty : Difficulty) (partOfSpeech : string) : Store :=
  addDefinition st
    (mkDefinition word definition {[ context := definition ]} difficulty
                  partOfSpeech (Some EmptyString) (Some (word +:+ ".mp3"))).

End WordExamples.


(* ===================================================================== *)
(** * Further concrete stores *)
(* ===================================================================== *)

Module Lessons.
Import JS DataService.

(** bank has a definition and one sentence for daily, written for
    beginners. *)
Definition lessonStore : Store :=
  loadSentences Scenarios.bankStore "bank"
    [Scenarios.daily "beginner" "The bank is open."].

End Lessons.


(* ===================================================================== *)
(** * Properties of the host string functions *)
(* ===================================================================== *)

Import JS DataService Host.

Lemma lowerChar_idem c : lowerChar (lowerChar c) = lowerChar c.
Proof. destruct c as [[] [] [] [] [] [] [] []]; reflexivity. Qed.

Lemma toLowerCase_idem s : toLowerCase (toLowerCase s) = toLowerCase s.
Proof.
  induction s as [|c r IH]; simpl; [reflexivity|].
  rewrite lowerChar_idem, IH. reflexivity.
Qed.

Lemma append_nil (b : string) : EmptyString +:+ b = b.
Proof. reflexivity. Qed.

Lemma append_cons c (r b : string) : String c r +:+ b = String c (r +:+ b).
Proof. reflexivity. Qed.

Lemma prefix_nil s : String.prefix EmptyString s = true.
Proof. destruct s; reflexivity. Qed.

Lemma prefix_append w b : String.prefix w (w +:+ b) = true.
Proof.
  induction w as [|c r IH].
  - apply prefix_nil.
  - rewrite append_cons. simpl.
    destruct (ascii_dec c c); [exact IH | congruence].
Qed.

Lemma includes_here s sub : String.prefix sub s = true -> includes s sub = true.
Proof. intros H. destruct s; simpl in *; rewrite H; reflexivity. Qed.

Lemma includes_append a w b : includes (a +:+ w +:+ b) w = true.
Proof.
  induction a as [|c r IH].
  - rewrite append_nil. apply includes_here, prefix_append.
  - rewrite append_cons. simpl. rewrite IH. apply orb_true_r.
Qed.

Lemma append_assoc (a b c : string) : (a +:+ b) +:+ c = a +:+ (b +:+ c).
Proof.
  induction a as [|x r IH]; [reflexivity|].
  rewrite !append_cons, IH. reflexivity.
Qed.

Lemma truthy_true s : truthy s = true <-> s <> EmptyString.
Proof. destruct s; cbn; split; intros; done. Qed.

Lemma truthy_false s : truthy s = false <-> s = EmptyString.
Proof. destruct s; cbn; split; intros; done. Qed.

(* ===================================================================== *)
(** * The content store *)
(* ===================================================================== *)

Lemma notFoundMessage_includes W : includes (notFoundMessage W) W = true.
Proof.
  unfold notFoundMessage, quoted.
  rewrite !append_assoc.
  rewrite <- (append_assoc _ dquote). apply includes_append.
Qed.

(** C1.  The failing input.  The definition of bank holds a contextual
    definition under the key Geography, as addDefinition, addAdminDefinition
    and the data files may store it: no write path lower-cases these keys.
    The request (bank, Geography) reads an own property (nothing is
    inherited here), but under the lower-cased key geography, finds nothing
    and answers with the general definition, not with the contextual
    definition that is stored for the context asked for. *)
Lemma getDefinition_capitalised_context :
  definitionsDB Scenarios.capitalisedContextStore !! "bank"
    = Some (Scenarios.bankDefinition {[ "Geography" := "river edge" ]}) /\
  contextual (Scenarios.bankDefinition {[ "Geography" := "river edge" ]})
    !! "Geography" = Some "river edge" /\
  returnsInherited Scenarios.capitalisedContextStore "bank" (Some "Geography")
    = false /\
  getDefinition Scenarios.capitalisedContextStore "bank" (Some "Geography")
    = "financial institution" /\
  getDefinition Scenarios.capitalisedContextStore "bank" (Some "Geography")
    <> "river edge".
Proof. repeat split; first [ reflexivity | discriminate ]. Qed.

(** The same unguarded read, at a name every object inherits: for the
    request (bank, constructor) the code returns the inherited value (the
    function Object), which is neither the general definition nor any
    string. *)
Lemma getDefinition_inherited_context :
  returnsInherited Scenarios.bankStore "bank" (Some "constructor") = true /\
  returnsInherited Scenarios.bankStore "bank" (Some "Constructor") = true /\
  returnsInherited Scenarios.bankStore "bank" (Some "__PROTO__") = true /\
  returnsInherited Scenarios.bankStore "bank" (Some "geography") = false /\
  returnsInherited Scenarios.bankStore "bank" None = false.
Proof. repeat split; vm_compute; reflexivity. Qed.

(** X29.  What getDefinition returns, case by case.  It is the contextual
    definition stored under the lower-cased context, when a non-empty
    context is given and that entry is a non-empty string.  It is the
    general definition of the word stored under the lower-cased word when
    no such entry is stored, provided the read is not one of an inherited
    property (otherwise it is that inherited value).  It is the not-found
    message, which contains the requested word as it was written, when the
    word is not stored.  A read of an inherited property only happens for
    a stored word and a context that lower-cases to constructor or
    __proto__. *)
Theorem getDefinition_resolution (st : Store) (W : string) (C : option string) :
  (forall d c v,
      definitionsDB st !! toLowerCase W = Some d ->
      C = Some c -> c <> EmptyString ->
      contextual d !! toLowerCase c = Some v -> v <> EmptyString ->
      returnsInherited st W C = false /\ getDefinition st W C = v) /\
  (forall d,
      definitionsDB st !! toLowerCase W = Some d ->
      returnsInherited st W C = false ->
      (forall c v, C = Some c -> c <> EmptyString ->
                   contextual d !! toLowerCase c = Some v -> v = EmptyString) ->
      getDefinition st W C = general d) /\
  (definitionsDB st !! toLowerCase W = None ->
      returnsInherited st W C = false /\
      getDefinition st W C = notFoundMessage W /\
      includes (getDefinition st W C) W = true) /\
  (returnsInherited st W C = true ->
      is_Some (definitionsDB st !! toLowerCase W) /\
      exists c, C = Some c /\
                (toLowerCase c = "constructor" \/ toLowerCase c = "__proto__")).
Proof.
  unfold getDefinition, returnsInherited. split; [|split; [|split]].
  - intros d c v Hd -> Hc Hv Hne. rewrite Hd.
    apply truthy_true in Hc. apply truthy_true in Hne.
    rewrite Hc, Hv, Hne. split; [|reflexivity].
    rewrite (bool_decide_eq_false_2 _); [reflexivity | discriminate].
  - intros d Hd _ Hno. rewrite Hd.
    destruct C as [c|]; [|reflexivity].
    destruct (truthy c) eqn:Hc; [|reflexivity].
    destruct (contextual d !! toLowerCase c) as [v|] eqn:Hv; [|reflexivity].
    apply truthy_true in Hc.
    rewrite (Hno c v eq_refl Hc Hv). reflexivity.
  - intros ->. split; [reflexivity|].
    split; [reflexivity | apply notFoundMessage_includes].
  - destruct (definitionsDB st !! toLowerCase W) as [d|]; [|discriminate].
    destruct C as [c|]; [|discriminate].
    intros H. apply andb_true_iff in H as [_ H].
    apply bool_decide_eq_true in H. split; [eauto|].
    exists c. split; [reflexivity|].
    unfold objectPrototypeNames in H.
    apply elem_of_cons in H as [H|H]; [now left|].
    apply elem_of_cons in H as [H|H]; [now right|].
    exfalso. revert H. generalize (toLowerCase_idem c).
    generalize (toLowerCase c). intros l Hl H.
    repeat (apply elem_of_cons in H as [->|H]; [discriminate Hl|]).
    inversion H.
Qed.

(** Scenario A of the specification, through the theorem. *)
Lemma getDefinition_resolution_witness :
  returnsInherited Scenarios.bankStore "bank" (Some "geography") = false /\
  getDefinition Scenarios.bankStore "bank" (Some "geography") = "river edge".
Proof.
  apply (proj1 (getDefinition_resolution Scenarios.bankStore "bank"
                  (Some "geography"))
           (Scenarios.bankDefinition {[ "geography" := "river edge" ]})
           "geography" "river edge");
    first [ reflexivity | discriminate ].
Defined.

Lemma generalOrBasic_length st W : length (generalOrBasic st W) = 3%nat.
Proof.
  unfold generalOrBasic.
  destruct (3 <=? _)%nat eqn:H; [|reflexivity].
  apply Nat.leb_le in H. rewrite length_take. lia.
Qed.

Lemma generalOrBasic_curated st W l :
  distractorsDB st !! toLowerCase W = Some l -> (3 <= length l)%nat ->
  generalOrBasic st W = take 3 l.
Proof.
  intros Hl Hlen. unfold generalOrBasic. rewrite Hl.
  change (default [] (Some l)) with l. cbv zeta.
  apply Nat.leb_le in Hlen. rewrite Hlen. reflexivity.
Qed.

Lemma generalOrBasic_basic st W :
  ~ (exists l, distractorsDB st !! toLowerCase W = Some l /\ (3 <= length l)%nat) ->
  generalOrBasic st W = generateBasicDistractors W.
Proof.
  intros Hno. unfold generalOrBasic.
  destruct (distractorsDB st !! toLowerCase W) as [l|] eqn:Hl; [|reflexivity].
  change (default [] (Some l)) with l. cbv zeta.
  destruct (3 <=? length l)%nat eqn:Hlen; [|reflexivity].
  exfalso. apply Hno. exists l. split; [reflexivity|]. now apply Nat.leb_le.
Qed.

Lemma getDistractors_length st W C : length (getDistractors st W C) = 3%nat.
Proof.
  unfold getDistractors.
  destruct (distractorsDB st !! contextKey W C) as [l|];
    [|apply generalOrBasic_length].
  destruct (3 <=? length l)%nat eqn:H; [|apply generalOrBasic_length].
  apply Nat.leb_le in H. rewrite length_take. lia.
Qed.

(** C2.  getDistractors returns exactly three strings: the first three
    entries under the composite key (lower-cased context, underscore,
    lower-cased word) when a context is given and that key holds at least
    three; otherwise the first three entries under the lower-cased word when
    that key holds at least three; otherwise the three generic
    placeholders.  (An empty context string counts as no context.) *)
Theorem getDistractors_resolution (st : Store) (W : string) (C : option string) :
  let composite := fun c => toLowerCase c +:+ "_" +:+ toLowerCase W in
  let compositeHasThree :=
    exists c l, C = Some c /\ c <> EmptyString /\
                distractorsDB st !! composite c = Some l /\ (3 <= length l)%nat in
  let wordHasThree :=
    exists l, distractorsDB st !! toLowerCase W = Some l /\ (3 <= length l)%nat in
  length (getDistractors st W C) = 3%nat /\
  (forall c l, C = Some c -> c <> EmptyString ->
               distractorsDB st !! composite c = Some l -> (3 <= length l)%nat ->
               getDistractors st W C = take 3 l) /\
  (forall l, ~ compositeHasThree ->
             distractorsDB st !! toLowerCase W = Some l -> (3 <= length l)%nat ->
             getDistractors st W C = take 3 l) /\
  (~ compositeHasThree -> ~ wordHasThree ->
   getDistractors st W C =
     ["incorrect definition A"; "incorrect definition B"; "incorrect definition C"]).
Proof.
  intros composite compositeHasThree wordHasThree.
  split; [apply getDistractors_length|].
  unfold getDistractors, contextKey.
  split; [|split].
  - intros c l -> Hc Hl Hlen. apply truthy_true in Hc. rewrite Hc.
    fold (composite c). rewrite Hl.
    apply Nat.leb_le in Hlen. rewrite Hlen. reflexivity.
  - intros l Hno Hl Hlen.
    pose proof (generalOrBasic_curated st W l Hl Hlen) as Hword.
    destruct C as [c|]; [destruct (truthy c) eqn:Hc|].
    + fold (composite c).
      destruct (distractorsDB st !! composite c) as [l'|] eqn:Hl'; [|exact Hword].
      destruct (3 <=? length l')%nat eqn:Hlen'; [|exact Hword].
      exfalso. apply Hno. exists c, l'. apply truthy_true in Hc.
      apply Nat.leb_le in Hlen'. auto.
    + rewrite Hl. apply Nat.leb_le in Hlen. rewrite Hlen. reflexivity.
    + rewrite Hl. apply Nat.leb_le in Hlen. rewrite Hlen. reflexivity.
  - intros Hno Hnw.
    pose proof (generalOrBasic_basic st W Hnw) as Hbasic.
    unfold generateBasicDistractors in Hbasic.
    destruct C as [c|]; [destruct (truthy c) eqn:Hc|].
    + fold (composite c).
      destruct (distractorsDB st !! composite c) as [l'|] eqn:Hl'; [|exact Hbasic].
      destruct (3 <=? length l')%nat eqn:Hlen'; [|exact Hbasic].
      exfalso. apply Hno. exists c, l'. apply truthy_true in Hc.
      apply Nat.leb_le in Hlen'. auto.
    + destruct (distractorsDB st !! toLowerCase W) as [l|] eqn:Hl; [|exact Hbasic].
      destruct (3 <=? length l)%nat eqn:Hlen; [|exact Hbasic].
      exfalso. apply Hnw. exists l. split; [reflexivity|]. now apply Nat.leb_le.
    + destruct (distractorsDB st !! toLowerCase W) as [l|] eqn:Hl; [|exact Hbasic].
      destruct (3 <=? length l)%nat eqn:Hlen; [|exact Hbasic].
      exfalso. apply Hnw. exists l. split; [reflexivity|]. now apply Nat.leb_le.
Qed.

(** The composite key wins over the word-only key. *)
Lemma getDistractors_resolution_witness :
  getDistractors Scenarios.curatedStore "Bank" (Some "Daily")
    = ["a loan"; "a shop"; "a bench"].
Proof.
  apply (proj1 (proj2 (getDistractors_resolution Scenarios.curatedStore "Bank"
                         (Some "Daily")))
           "Daily" ["a loan"; "a shop"; "a bench"]);
    first [ reflexivity | discriminate | cbn; lia ].
Defined.

(** C3 (as amended).  With exactly two curated entries for bank under daily
    and no word-only entry, getDistractors("bank", "daily") returns the three
    generic placeholders: a key with fewer than three entries is passed over
    whole, nothing is padded. *)
Theorem getDistractors_two_curated (st : Store) (a b : string) :
  distractorsDB st !! "daily_bank" = Some [a; b] ->
  distractorsDB st !! "bank" = None ->
  getDistractors st "bank" (Some "daily") =
    ["incorrect definition A"; "incorrect definition B"; "incorrect definition C"].
Proof.
  intros Hctx Hword. unfold getDistractors.
  change (contextKey "bank" (Some "daily")) with "daily_bank".
  rewrite Hctx. cbn [length Nat.leb].
  apply generalOrBasic_basic.
  intros (l & Hl & _). change (toLowerCase "bank") with "bank" in Hl. congruence.
Qed.

Lemma getDistractors_two_curated_witness :
  getDistractors Scenarios.twoCuratedStore "bank" (Some "daily") =
    ["incorrect definition A"; "incorrect definition B"; "incorrect definition C"].
Proof.
  apply (getDistractors_two_curated Scenarios.twoCuratedStore
           "river side" "sea shore"); reflexivity.
Defined.

(** C3 as written fails: neither curated entry is in the result. *)
Lemma getDistractors_two_curated_dropped :
  distractorsDB Scenarios.twoCuratedStore !! "daily_bank"
    = Some ["river side"; "sea shore"] /\
  distractorsDB Scenarios.twoCuratedStore !! "bank" = None /\
  getDistractors Scenarios.twoCuratedStore "bank" (Some "daily") =
    ["incorrect definition A"; "incorrect definition B"; "incorrect definition C"] /\
  ~ In "river side" (getDistractors Scenarios.twoCuratedStore "bank" (Some "daily")) /\
  ~ In "sea shore" (getDistractors Scenarios.twoCuratedStore "bank" (Some "daily")).
Proof.
  repeat split; try reflexivity;
    (cbn; intros H; repeat (destruct H as [H|H]; [discriminate H|]); exact H).
Qed.

(* ===================================================================== *)
(** * The exercise generator *)
(* ===================================================================== *)

Import ExerciseTemplate.

Section Shuffle.
Context {T : Type}.

Lemma insert_exchange (l : list T) (j : nat) (a y : T) :
  l !! j = Some y -> y :: <[j := a]> l ≡ₚ a :: l.
Proof.
  revert j. induction l as [|x l IH]; intros [|j] H; simplify_eq/=.
  - apply Permutation_swap.
  - etrans; [apply Permutation_swap|].
    etrans; [apply Permutation_skip, (IH j H)|]. apply Permutation_swap.
Qed.

Lemma swap_Permutation (l : list T) (i j : nat) (x y : T) :
  l !! i = Some x -> l !! j = Some y -> swap l i j ≡ₚ l.
Proof.
  unfold swap. intros Hi Hj. rewrite Hi, Hj.
  revert i j Hi Hj. induction l as [|a l IH]; intros [|i] [|j] Hi Hj; simplify_eq/=.
  - reflexivity.
  - now apply insert_exchange.
  - now apply insert_exchange.
  - constructor. now apply IH.
Qed.

Lemma swap_length (l : list T) (i j : nat) : length (swap l i j) = length l.
Proof.
  unfold swap. destruct (l !! i), (l !! j); try reflexivity.
  now rewrite !length_insert.
Qed.

End Shuffle.

Lemma unitDraws_tail w :
  unitDraws w -> unitDraws (mkWorld (fun n => randoms w (S n)) (clock w)).
Proof. intros H n. apply (H (S n)). Qed.

(** A draw in [0, 1) scaled by n and floored is an index below n. *)
Lemma randomIndex_range (n : nat) (w : World) :
  unitDraws w -> (0 < n)%nat ->
  exists j w', randomIndex n w = Normal j w' /\ (j < n)%nat /\ unitDraws w'.
Proof.
  intros Hw Hn. unfold randomIndex, bind, random, ret.
  eexists _, _. split; [reflexivity|]. split; [|now apply unitDraws_tail].
  destruct (Hw 0%nat) as [H0 H1].
  set (r := randoms w 0) in *. set (q := (r * inject_Z (Z.of_nat n))%Q).
  assert (Hpos : (0 < inject_Z (Z.of_nat n))%Q).
  { change 0%Q with (inject_Z 0). rewrite <- Zlt_Qlt. lia. }
  assert (Hlo : (0 <= Qfloor q)%Z).
  { change 0%Z with (Qfloor (inject_Z 0)). apply Qfloor_resp_le.
    change (inject_Z 0) with 0%Q. unfold q.
    apply Qmult_le_0_compat; [exact H0 | now apply Qlt_le_weak]. }
  assert (Hhi : (Qfloor q < Z.of_nat n)%Z).
  { rewrite Zlt_Qlt. eapply Qle_lt_trans; [apply Qfloor_le|].
    unfold q. rewrite <- (Qmult_1_l (inject_Z (Z.of_nat n))) at 2.
    now apply Qmult_lt_compat_r. }
  lia.
Qed.

Lemma shuffleLoop_permutation {T} (n : nat) :
  forall (l : list T) (w : World),
    unitDraws w -> (n < length l \/ n = 0)%nat ->
    exists shuffled w',
      shuffleLoop n l w = Normal shuffled w' /\ shuffled ≡ₚ l /\ unitDraws w'.
Proof.
  induction n as [|n IH]; intros l w Hw Hn.
  - exists l, w. split; [reflexivity|]. split; [reflexivity | exact Hw].
  - destruct Hn as [Hn|Hn]; [|discriminate].
    destruct (randomIndex_range (S n + 1) w Hw ltac:(lia)) as (j & w1 & Hj & Hlt & Hw1).
    cbn [shuffleLoop]. unfold bind at 1. rewrite Hj.
    destruct (lookup_lt_is_Some_2 l (S n) Hn) as [x Hx].
    destruct (lookup_lt_is_Some_2 l j ltac:(lia)) as [y Hy].
    destruct (IH (swap l (S n) j) w1 Hw1) as (res & w2 & Hres & Hperm & Hw2).
    { rewrite swap_length. lia. }
    exists res, w2. split; [exact Hres|]. split; [|exact Hw2].
    rewrite Hperm. eapply swap_Permutation; eassumption.
Qed.

(** C7.  For every input sequence and every sequence of draws in [0, 1),
    shuffleArray returns (it does not throw) a permutation of its input:
    the same elements with the same multiplicities, and so the same
    length. *)
Theorem shuffleArray_permutation {T} (array : list T) (w : World) :
  unitDraws w ->
  exists shuffled w',
    shuffleArray array w = Normal shuffled w' /\
    shuffled ≡ₚ array /\
    length shuffled = length array.
Proof.
  intros Hw. unfold shuffleArray.
  destruct (shuffleLoop_permutation (length array - 1) array w Hw)
    as (res & w' & Hres & Hperm & _).
  { destruct array; cbn; [right; reflexivity | left; lia]. }
  exists res, w'. split; [exact Hres|]. split; [exact Hperm|].
  now apply Permutation_length.
Qed.

Lemma shuffleArray_permutation_witness :
  exists shuffled w',
    shuffleArray ["a"; "b"; "c"; "d"] Scenarios.demoWorld = Normal shuffled w' /\
    shuffled ≡ₚ ["a"; "b"; "c"; "d"] /\
    length shuffled = length ["a"; "b"; "c"; "d"].
Proof.
  apply (shuffleArray_permutation ["a"; "b"; "c"; "d"] Scenarios.demoWorld).
  intros n. unfold Scenarios.demoWorld, Qle, Qlt. cbn.
  pose proof (Nat.mod_upper_bound n 4). lia.
Defined.

(** C6 (as amended).  generateTrueFalse returns a true_false exercise whose
    options are True and False.  Its statement and its answer come from one
    draw: above one half the statement gives the word's meaning and the
    answer is True; otherwise the statement gives the first resolved
    distractor (or the fixed phrase, when that one is empty) and the answer
    is False.  Provided that distractor differs from the word's meaning, the
    answer is True exactly when the statement gives the meaning, and False
    exactly when it gives the distractor. *)
Theorem generateTrueFalse_consistent (st : Store) (w : WordItem) (ctx : string)
    (wd : World) :
  exists e wd',
    generateTrueFalse st w ctx wd = Normal e wd' /\
    type e = true_false /\
    options e = Some ["True"; "False"] /\
    (((1 # 2) < randoms wd 0)%Q /\ correct e = "True" /\
       question e = "True or False: " +:+ statementOf w (meaning w)
     \/
     (randoms wd 0 <= (1 # 2))%Q /\ correct e = "False" /\
       question e = "True or False: " +:+ statementOf w (falseDefinitionOf st w ctx)) /\
    (falseDefinitionOf st w ctx <> meaning w ->
       (correct e = "True" <->
          question e = "True or False: " +:+ statementOf w (meaning w)) /\
       (correct e = "False" <->
          question e = "True or False: " +:+ statementOf w (falseDefinitionOf st w ctx))).
Proof.
  unfold generateTrueFalse, bind, random, now, ret.
  destruct (Qle_bool (randoms wd 0) (1 # 2)) eqn:Hr; cbn [negb].
  - apply Qle_bool_iff in Hr.
    eexists _, _. split; [reflexivity|]. cbn.
    split; [reflexivity|]. split; [reflexivity|].
    split; [right; auto|].
    intros Hne. split; split; intros H; try reflexivity; try discriminate.
    exfalso. apply Hne.
    apply String.app_inj in H. unfold statementOf in H.
    apply String.app_inj in H. apply String.app_inj in H. exact H.
  - assert (Hgt : ((1 # 2) < randoms wd 0)%Q).
    { apply Qnot_le_lt. intros H. apply Qle_bool_iff in H. congruence. }
    eexists _, _. split; [reflexivity|]. cbn.
    split; [reflexivity|]. split; [reflexivity|].
    split; [left; auto|].
    intros Hne. split; split; intros H; try reflexivity; try discriminate.
    exfalso. apply Hne.
    apply String.app_inj in H. unfold statementOf in H.
    apply String.app_inj in H. apply String.app_inj in H. now symmetry.
Qed.

Lemma generateTrueFalse_consistent_witness :
  exists e wd',
    generateTrueFalse Scenarios.twoCuratedStore Scenarios.bank "daily"
      Scenarios.demoWorld = Normal e wd' /\
    correct e = "False" /\
    (correct e = "False" <->
       question e = "True or False: " +:+
         statementOf Scenarios.bank "incorrect definition A").
Proof.
  destruct (generateTrueFalse_consistent Scenarios.twoCuratedStore Scenarios.bank
              "daily" Scenarios.demoWorld)
    as (e & wd' & Hrun & _ & _ & Hdraw & Hiff).
  exists e, wd'. split; [exact Hrun|]. split.
  - destruct Hdraw as [(Hgt & _)|(_ & Hc & _)]; [|exact Hc].
    vm_compute in Hgt. discriminate Hgt.
  - apply Hiff. vm_compute. discriminate.
Defined.

(** C6 as written fails: when the first curated distractor is the meaning
    the learner's list gives to the word, the exercise states that meaning
    and is marked False. *)
Lemma generateTrueFalse_disagreement :
  exists e,
    returned (generateTrueFalse Scenarios.overlappingStore Scenarios.bank "daily"
                Scenarios.demoWorld) = Some e /\
    question e = "True or False: " +:+
                 statementOf Scenarios.bank (meaning Scenarios.bank) /\
    correct e = "False" /\ correct e <> "True".
Proof.
  eexists. split; [vm_compute; reflexivity|].
  repeat split; first [ reflexivity | discriminate ].
Qed.

Lemma shuffleLoop_returns {T} (n : nat) (l : list T) (w : World) :
  exists shuffled w', shuffleLoop n l w = Normal shuffled w'.
Proof.
  revert l w. induction n as [|n IH]; intros l w; cbn [shuffleLoop].
  - eexists _, _. reflexivity.
  - unfold bind at 1, randomIndex, bind, random, ret. apply IH.
Qed.

Lemma generateMultipleChoice_returns st w ctx wd :
  exists e wd',
    generateMultipleChoice st w ctx wd = Normal e wd' /\
    type e = multiple_choice /\ correct e = meaning w /\ word e = value w.
Proof.
  unfold generateMultipleChoice, shuffleArray.
  destruct (shuffleLoop_returns
              (length (meaning w :: take 3 (getDistractors st (value w) (contextArg ctx))) - 1)
              (meaning w :: take 3 (getDistractors st (value w) (contextArg ctx))) wd)
    as (opts & wd1 & Hs).
  unfold bind at 1. rewrite Hs. unfold bind, now, ret.
  eexists _, _. split; [reflexivity|]. cbn. auto.
Qed.

(** Steps through the binds of a generator that returned. *)
Ltac run_generator H :=
  unfold bind, ret, throw, now, random, randomIndex in H;
  repeat case_match; simplify_eq; try reflexivity.

Section OnePerWord.
Variable re : RegExp.
Variable st : Store.
Variable ctx : string.

Lemma generateMultipleChoice_word w wd e wd' :
  generateMultipleChoice st w ctx wd = Normal e wd' -> word e = value w.
Proof.
  intros H.
  destruct (generateMultipleChoice_returns st w ctx wd) as (e0 & wd0 & H0 & _ & _ & Hw).
  congruence.
Qed.

Lemma generateMatching_word w wd e wd' :
  generateMatching st w ctx wd = Normal e wd' -> word e = value w.
Proof. unfold generateMatching. intros H. run_generator H. Qed.

Lemma generateTrueFalse_word w wd e wd' :
  generateTrueFalse st w ctx wd = Normal e wd' -> word e = value w.
Proof. unfold generateTrueFalse. intros H. run_generator H. Qed.

Lemma generateFillInBlank_word w wd e wd' :
  generateFillInBlank re st w ctx wd = Normal e wd' -> word e = value w.
Proof. unfold generateFillInBlank. intros H. run_generator H. Qed.

Lemma generateSentenceCompletion_word w wd e wd' :
  generateSentenceCompletion st w ctx wd = Normal e wd' -> word e = value w.
Proof. unfold generateSentenceCompletion. intros H. run_generator H. Qed.

Lemma dispatch_word w t wd e wd' :
  dispatch re st w ctx t wd = Normal e wd' -> word e = value w.
Proof.
  unfold dispatch. intros H.
  repeat case_match;
    eauto using generateMultipleChoice_word, generateMatching_word,
      generateTrueFalse_word, generateFillInBlank_word,
      generateSentenceCompletion_word.
Qed.

Lemma generateExercisesLoop_words types :
  forall words acc wd res wd',
    generateExercisesLoop re st words ctx types acc wd = Normal res wd' ->
    word <$> res = (word <$> acc) ++ (value <$> words).
Proof.
  induction words as [|w rest IH]; intros acc wd res wd' H; cbn in H.
  - unfold ret in H. simplify_eq. now rewrite app_nil_r.
  - unfold bind at 1, generateExerciseForWord in H.
    unfold bind at 1, randomIndex, bind, random, ret in H.
    destruct (dispatch re st w ctx _ _) as [e wd1|] eqn:Hd; [|discriminate].
    apply dispatch_word in Hd.
    apply IH in H. rewrite H, fmap_app, <- app_assoc. cbn. now rewrite Hd.
Qed.

End OnePerWord.

Lemma generateExercisesLoop_multiple_choice re st ctx :
  forall words acc wd,
    exists res wd',
      generateExercisesLoop re st words ctx ["multiple_choice"] acc wd
        = Normal (acc ++ res) wd' /\
      Forall2 (fun e w => type e = multiple_choice /\ correct e = meaning w /\
                          word e = value w) res words.
Proof.
  induction words as [|w rest IH]; intros acc wd; cbn.
  - exists [], wd. rewrite app_nil_r. split; [reflexivity | constructor].
  - unfold bind at 1, generateExerciseForWord.
    unfold bind at 1, randomIndex, bind, random, ret.
    set (k := Z.to_nat _). set (wd0 := mkWorld _ _).
    assert (Hd : dispatch re st w ctx (["multiple_choice"] !! k) wd0
                 = generateMultipleChoice st w ctx wd0).
    { unfold dispatch.
      destruct (["multiple_choice"] !! k) as [s|] eqn:Ht; [|reflexivity].
      apply list_elem_of_lookup_2, list_elem_of_singleton in Ht.
      subst s. reflexivity. }
    rewrite Hd.
    destruct (generateMultipleChoice_returns st w ctx wd0)
      as (e & wd1 & -> & Ht & Hc & Hw).
    destruct (IH (acc ++ [e]) wd1) as (res & wd2 & -> & Hall).
    exists (e :: res), wd2. rewrite <- app_assoc. split; [reflexivity|].
    constructor; auto.
Qed.

(** ** Generation returns unless the RegExp constructor throws *)

Lemma bind_Normal {A B} (m : M A) (k : A -> M B) w a w1 :
  m w = Normal a w1 -> bind m k w = k a w1.
Proof. intros H. unfold bind. now rewrite H. Qed.

Lemma now_returns {B} (k : Z -> M B) wd :
  unitDraws wd ->
  exists t wd1, bind now k wd = k t wd1 /\ unitDraws wd1.
Proof. intros H. eexists _, _. split; [reflexivity | exact H]. Qed.

Lemma randomIndex_returns n wd :
  unitDraws wd ->
  exists j wd1, randomIndex n wd = Normal j wd1 /\ unitDraws wd1.
Proof.
  intros H. eexists _, _. split; [reflexivity | now apply unitDraws_tail].
Qed.

(** Closes a goal [exists e wd', k t wd = Normal e wd' /\ unitDraws wd']
    whose computation ends with a reading of the clock. *)
Ltac finish_with_clock H :=
  let t := fresh "t" in let wd := fresh "wd" in
  let E := fresh "E" in let U := fresh "U" in
  match goal with
  | |- exists e wd', bind now ?k ?w = _ /\ _ =>
      destruct (now_returns k w H) as (t & wd & E & U);
      rewrite E; unfold ret; eexists _, _; split; [reflexivity | exact U]
  end.

Section Returns.
Variable re : RegExp.
Variable st : Store.
Variable ctx : string.

Lemma shuffled_generator_returns (w : WordItem) (k : list string -> M Exercise) wd :
  unitDraws wd ->
  (forall opts wd1, unitDraws wd1 ->
     exists e wd', k opts wd1 = Normal e wd' /\ unitDraws wd') ->
  exists e wd',
    bind (shuffleArray (meaning w :: take 3 (getDistractors st (value w) (contextArg ctx))))
         k wd = Normal e wd' /\ unitDraws wd'.
Proof.
  intros Hwd Hk. unfold shuffleArray.
  destruct (shuffleLoop_permutation
              (length (meaning w :: take 3 (getDistractors st (value w) (contextArg ctx))) - 1)
              (meaning w :: take 3 (getDistractors st (value w) (contextArg ctx)))
              wd Hwd) as (opts & wd1 & Hs & _ & Hwd1).
  { cbn [length]. left. lia. }
  rewrite (bind_Normal _ _ _ _ _ Hs). now apply Hk.
Qed.

Lemma generateMultipleChoice_total w wd :
  unitDraws wd ->
  exists e wd', generateMultipleChoice st w ctx wd = Normal e wd' /\ unitDraws wd'.
Proof.
  intros Hwd. unfold generateMultipleChoice.
  apply shuffled_generator_returns; [exact Hwd|].
  intros opts wd1 Hwd1. finish_with_clock Hwd1.
Qed.

Lemma generateMatching_total w wd :
  unitDraws wd ->
  exists e wd', generateMatching st w ctx wd = Normal e wd' /\ unitDraws wd'.
Proof.
  intros Hwd. unfold generateMatching.
  apply shuffled_generator_returns; [exact Hwd|].
  intros opts wd1 Hwd1. finish_with_clock Hwd1.
Qed.

Lemma generateTrueFalse_total w wd :
  unitDraws wd ->
  exists e wd', generateTrueFalse st w ctx wd = Normal e wd' /\ unitDraws wd'.
Proof.
  intros Hwd. unfold generateTrueFalse.
  unfold bind at 1, random.
  destruct (negb _); finish_with_clock (unitDraws_tail wd Hwd).
Qed.

Lemma generateFillInBlank_total w wd :
  unitDraws wd ->
  (forall s, replaceWholeWord re (value w) s <> None) ->
  exists e wd', generateFillInBlank re st w ctx wd = Normal e wd' /\ unitDraws wd'.
Proof.
  intros Hwd Hre. unfold generateFillInBlank.
  destruct (0 <? length _)%nat eqn:Hlen; [|finish_with_clock Hwd].
  apply Nat.ltb_lt in Hlen.
  destruct (randomIndex_range _ wd Hwd Hlen) as (k & wd1 & Hk & Hlt & Hwd1).
  rewrite (bind_Normal _ _ _ _ _ Hk).
  destruct (lookup_lt_is_Some_2 _ k Hlt) as [s ->].
  destruct (replaceWholeWord re (value w) (sentence s)) eqn:Hs;
    [|now apply Hre in Hs].
  finish_with_clock Hwd1.
Qed.

Lemma generateSentenceCompletion_total w wd :
  unitDraws wd ->
  exists e wd',
    generateSentenceCompletion st w ctx wd = Normal e wd' /\ unitDraws wd'.
Proof.
  intros Hwd. unfold generateSentenceCompletion.
  destruct (0 <? length _)%nat eqn:Hlen; [|finish_with_clock Hwd].
  apply Nat.ltb_lt in Hlen.
  destruct (randomIndex_range _ wd Hwd Hlen) as (k & wd1 & Hk & Hlt & Hwd1).
  rewrite (bind_Normal _ _ _ _ _ Hk).
  destruct (lookup_lt_is_Some_2 _ k Hlt) as [s ->].
  destruct (findIndexIncluding _ _); finish_with_clock Hwd1.
Qed.

Lemma dispatch_total w t wd :
  unitDraws wd ->
  (forall s, replaceWholeWord re (value w) s <> None) ->
  exists e wd', dispatch re st w ctx t wd = Normal e wd' /\ unitDraws wd'.
Proof.
  intros Hwd Hre. unfold dispatch.
  repeat case_match;
    auto using generateMultipleChoice_total, generateMatching_total,
      generateTrueFalse_total, generateFillInBlank_total,
      generateSentenceCompletion_total.
Qed.

Lemma generateExercisesLoop_total types :
  forall words acc wd,
    unitDraws wd ->
    (forall w s, w ∈ words -> replaceWholeWord re (value w) s <> None) ->
    exists res wd',
      generateExercisesLoop re st words ctx types acc wd = Normal res wd'.
Proof.
  induction words as [|w rest IH]; intros acc wd Hwd Hre; cbn [generateExercisesLoop].
  - eexists _, _. reflexivity.
  - unfold generateExerciseForWord.
    destruct (randomIndex_returns (length types) wd Hwd) as (k & wd1 & Hk & Hwd1).
    unfold bind at 1. unfold bind at 1. rewrite Hk.
    destruct (dispatch_total w (types !! k) wd1 Hwd1) as (e & wd2 & He & Hwd2).
    { intros s. apply Hre. apply list_elem_of_here. }
    unfold bind at 1. rewrite He. unfold ret.
    apply IH; [exact Hwd2|].
    intros w' s Hin. apply Hre. now apply list_elem_of_further.
Qed.

End Returns.

(** C4 (as amended).  generateExercises takes each word's meaning from the
    caller and never looks a definition up, so no word is skipped: whenever
    it returns, the result holds one Exercise per input word, in input
    order, and it does return unless the RegExp built from a word throws.
    With the allowed types [multiple_choice] it always returns, one
    multiple_choice exercise per word whose correct answer is the meaning
    given with the word, whatever the store holds. *)
Theorem generateExercises_one_per_word (re : RegExp) (st : Store)
    (words : list WordItem) (ctx : string) :
  (forall types wd res wd',
      generateExercises re st words ctx types wd = Normal res wd' ->
      word <$> res = value <$> words /\ length res = length words) /\
  (forall types wd,
      unitDraws wd ->
      (forall w s, w ∈ words -> replaceWholeWord re (value w) s <> None) ->
      exists res wd',
        generateExercises re st words ctx types wd = Normal res wd' /\
        length res = length words) /\
  (forall wd, exists res wd',
      generateExercises re st words ctx ["multiple_choice"] wd = Normal res wd' /\
      Forall2 (fun e w => type e = multiple_choice /\ correct e = meaning w /\
                          word e = value w) res words).
Proof.
  assert (Hlen : forall types wd res wd',
             generateExercises re st words ctx types wd = Normal res wd' ->
             word <$> res = value <$> words /\ length res = length words).
  { intros types wd res wd' H. unfold generateExercises in H.
    apply generateExercisesLoop_words in H. cbn in H. split; [exact H|].
    rewrite <- (length_fmap word res), H. apply length_fmap. }
  split; [exact Hlen|]. split.
  - intros types wd Hwd Hre.
    destruct (generateExercisesLoop_total re st ctx types words [] wd Hwd Hre)
      as (res & wd' & H).
    exists res, wd'. split; [exact H|]. apply (Hlen types wd res wd' H).
  - intros wd. unfold generateExercises.
    destruct (generateExercisesLoop_multiple_choice re st ctx words [] wd)
      as (res & wd' & H & Hall).
    exists res, wd'. split; [exact H | exact Hall].
Qed.

Lemma generateExercises_one_per_word_witness :
  exists res wd',
    generateExercises literalRegExp Scenarios.bankStore
      [Scenarios.bank; Scenarios.zephyr] "daily"
      ["true_false"; "fill_in_blank"] Scenarios.demoWorld = Normal res wd' /\
    length res = 2%nat.
Proof.
  apply (proj1 (proj2 (generateExercises_one_per_word literalRegExp
                         Scenarios.bankStore [Scenarios.bank; Scenarios.zephyr]
                         "daily"))
           ["true_false"; "fill_in_blank"] Scenarios.demoWorld).
  - intros n. unfold Scenarios.demoWorld, Qle, Qlt. cbn.
    pose proof (Nat.mod_upper_bound n 4). lia.
  - intros w s Hw.
    apply elem_of_cons in Hw as [->|Hw];
      [|apply list_elem_of_singleton in Hw as ->]; discriminate.
Defined.

(** C4 as written fails: zephyr has no stored data, its definition lookup
    gives the not-found message, and generateExercises still returns one
    exercise for it. *)
Lemma generateExercises_unknown_word_kept :
  hasWord emptyStore "zephyr" = false /\
  getDefinition emptyStore "zephyr" (Some "daily") = notFoundMessage "zephyr" /\
  returned (generateExercises literalRegExp emptyStore [Scenarios.zephyr] "daily"
              ["multiple_choice"] Scenarios.demoWorld)
  = Some [ mkExercise "mc_1_1700000000000" multiple_choice
             ("What does " +:+ quoted "zephyr" +:+ " mean in the context of daily?")
             (Some ["???"; "incorrect definition B"; "incorrect definition C";
                    "incorrect definition A"])
             "???" "zephyr" "daily" "intermediate"
             (Some (quoted "zephyr" +:+ " means: ???")) ] /\
  returned (generateExercises literalRegExp emptyStore [Scenarios.zephyr] "daily"
              ["multiple_choice"] Scenarios.demoWorld) <> Some [].
Proof.
  split; [reflexivity|]. split; [reflexivity|].
  split; [vm_compute; reflexivity | vm_compute; discriminate].
Qed.

(* ===================================================================== *)
(** * Answer validation *)
(* ===================================================================== *)

Lemma WordService_isCorrect_isAccepted U C :
  WordService.isCorrect (WordService.validateAnswer U C) = WordService.isAccepted U C.
Proof.
  unfold WordService.validateAnswer.
  destruct (WordService.isAccepted U C) eqn:H; [reflexivity|].
  now destruct (_ || _).
Qed.

Lemma stripPunctuation_keeps (s : string) :
  String.list_ascii_of_string (stripPunctuation s)
  = List.filter (fun c => isWordChar c || isSpace c) (String.list_ascii_of_string s).
Proof.
  induction s as [|c r IH]; cbn; [reflexivity|].
  destruct (isWordChar c || isSpace c); cbn; now rewrite IH.
Qed.

(** C5 (as amended).  The exercise layer's validateAnswer reports
    isCorrect = true exactly when the two answers are equal after trimming
    and lower-casing.  The word service's validateAnswer accepts every such
    pair as well, but is not limited to them.  It normalizes further: after
    trimming and lower-casing it removes every character that is neither a
    word character nor white space, keeping the others in order.  It
    reports isCorrect = true exactly when the two answers so normalized are
    equal, or one of them contains the other and the length of the user's
    exceeds 0.7 times the length of the correct one, the product taken in
    binary64. *)
Theorem validateAnswer_normalized_equality (U C : string) :
  let nU := stripPunctuation (toLowerCase (trim U)) in
  let nC := stripPunctuation (toLowerCase (trim C)) in
  (forall e, ExerciseTemplate.isCorrect (ExerciseTemplate.validateAnswer U C e) = true
             <-> toLowerCase (trim U) = toLowerCase (trim C)) /\
  (toLowerCase (trim U) = toLowerCase (trim C) ->
   WordService.isCorrect (WordService.validateAnswer U C) = true) /\
  (String.list_ascii_of_string nU
   = List.filter (fun c => isWordChar c || isSpace c)
                 (String.list_ascii_of_string (toLowerCase (trim U))) /\
   String.list_ascii_of_string nC
   = List.filter (fun c => isWordChar c || isSpace c)
                 (String.list_ascii_of_string (toLowerCase (trim C)))) /\
  (WordService.isCorrect (WordService.validateAnswer U C) = true <->
     nU = nC \/
     ((includes nU nC = true \/ includes nC nU = true) /\
      exceedsSeventyPercent (String.length nU) (String.length nC) = true)).
Proof.
  intros nU nC. split; [|split; [|split]].
  - intros e. unfold ExerciseTemplate.validateAnswer, ExerciseTemplate.normalizeAnswer.
    cbn [ExerciseTemplate.isCorrect]. apply String.eqb_eq.
  - intros H. rewrite WordService_isCorrect_isAccepted.
    unfold WordService.isAccepted, WordService.normalizeAnswer.
    rewrite H, String.eqb_refl. reflexivity.
  - split; apply stripPunctuation_keeps.
  - rewrite WordService_isCorrect_isAccepted.
    unfold WordService.isAccepted, WordService.normalizeAnswer. cbv zeta.
    fold nU nC.
    rewrite orb_true_iff, andb_true_iff, orb_true_iff, String.eqb_eq.
    reflexivity.
Qed.

Lemma validateAnswer_normalized_equality_witness :
  WordService.isCorrect (WordService.validateAnswer "  River Edge " "river edge")
    = true.
Proof.
  apply (proj1 (proj2 (validateAnswer_normalized_equality "  River Edge "
                         "river edge"))).
  reflexivity.
Defined.

(** C5 as written fails for the word service: the answer [the bank] is
    accepted for [bank], and [bank!] as well, though neither equals [bank]
    after trimming and lower-casing. *)
Lemma validateAnswer_partial_match_accepted :
  WordService.isCorrect (WordService.validateAnswer "the bank" "bank") = true /\
  toLowerCase (trim "the bank") <> toLowerCase (trim "bank") /\
  WordService.isCorrect (WordService.validateAnswer "bank!" "bank") = true /\
  toLowerCase (trim "bank!") <> toLowerCase (trim "bank").
Proof.
  repeat split; first [ vm_compute; reflexivity | vm_compute; discriminate ].
Qed.

(* ===================================================================== *)
(** * The data loader *)
(* ===================================================================== *)

Import Loader.

Lemma includes_suffix a w : includes (a +:+ w) w = true.
Proof.
  induction a as [|c r IH].
  - rewrite append_nil. apply includes_here.
    induction w as [|x w IHw]; [reflexivity|].
    simpl. destruct (ascii_dec x x); [exact IHw | congruence].
  - rewrite append_cons. simpl. rewrite IH. apply orb_true_r.
Qed.

Section RetryFacts.
Variable load : nat -> LoadOutcome.
Variable maxRetries : Z.

Abbreviation loop := (retryLoop load maxRetries).

Lemma retryLoop_calls remaining :
  forall attempt lastError made slept,
    (calls (loop remaining attempt lastError made slept) <= made + remaining)%nat.
Proof.
  induction remaining as [|r IH]; intros attempt lastError made slept; cbn.
  - lia.
  - destruct (load made); cbn; [lia|].
    etrans; [apply IH|]. lia.
Qed.

Lemma retryLoop_resolved n :
  forall remaining made lastError slept s,
    ((0 < remaining)%nat -> Z.of_nat (made + remaining) = maxRetries) ->
    (n < remaining)%nat ->
    (forall k, (k < n)%nat -> exists m, load (made + k)%nat = Failed m) ->
    load (made + n)%nat = Loaded s ->
    loop remaining (Z.of_nat (S made)) lastError made slept
    = mkRun (S (made + n))
            (slept ++ (backoff <$> (Z.of_nat <$> seq (S made) n)))
            (Resolved s).
Proof.
  induction n as [|n IH]; intros [|r] made lastError slept s Hinv Hn Hfail Hok;
    try lia; cbn [retryLoop].
  - rewrite Nat.add_0_r in Hok. rewrite Hok. cbn. now rewrite app_nil_r, Nat.add_0_r.
  - destruct (Hfail 0%nat ltac:(lia)) as [m Hm]. rewrite Nat.add_0_r in Hm.
    rewrite Hm.
    assert (Hlt : (Z.of_nat (S made) <? maxRetries)%Z = true).
    { apply Z.ltb_lt. rewrite <- Hinv by lia. lia. }
    rewrite Hlt.
    replace (Z.of_nat (S made) + 1)%Z with (Z.of_nat (S (S made))) by lia.
    rewrite (IH r (S made) (Some m) _ s).
    + cbn [seq fmap list_fmap]. rewrite <- app_assoc. cbn.
      f_equal. lia.
    + intros _. rewrite <- Hinv by lia. f_equal. lia.
    + lia.
    + intros k Hk. replace (S made + k)%nat with (made + S k)%nat by lia.
      apply Hfail. lia.
    + now replace (S made + n)%nat with (made + S n)%nat by lia.
Qed.

Lemma retryLoop_exhausted remaining :
  forall made lastError slept,
    ((0 < remaining)%nat -> Z.of_nat (made + remaining) = maxRetries) ->
    (forall k, (k < remaining)%nat -> exists m, load (made + k)%nat = Failed m) ->
    exists last,
      loop remaining (Z.of_nat (S made)) lastError made slept
      = mkRun (made + remaining)
              (slept ++ (backoff <$> (Z.of_nat <$> seq (S made) (remaining - 1))))
              (Rejected (exhaustedMessage maxRetries last)) /\
      (remaining = 0%nat -> last = lastError) /\
      (forall m, (0 < remaining)%nat ->
                 load (made + remaining - 1)%nat = Failed m -> last = Some m).
Proof.
  induction remaining as [|r IH]; intros made lastError slept Hinv Hfail;
    cbn [retryLoop].
  - exists lastError. cbn. rewrite app_nil_r, Nat.add_0_r.
    split; [reflexivity|]. split; [reflexivity | lia].
  - destruct (Hfail 0%nat ltac:(lia)) as [m Hm]. rewrite Nat.add_0_r in Hm.
    rewrite Hm.
    replace (Z.of_nat (S made) + 1)%Z with (Z.of_nat (S (S made))) by lia.
    destruct r as [|r].
    + assert (Hlt : (Z.of_nat (S made) <? maxRetries)%Z = false).
      { apply Z.ltb_ge. rewrite <- Hinv by lia. lia. }
      rewrite Hlt. cbn [retryLoop]. exists (Some m). cbn.
      rewrite app_nil_r. replace (made + 1)%nat with (S made) by lia.
      split; [reflexivity|]. split; [discriminate|].
      intros m' _ Hm'. replace (S made - 1)%nat with made in Hm' by lia.
      congruence.
    + assert (Hlt : (Z.of_nat (S made) <? maxRetries)%Z = true).
      { apply Z.ltb_lt. rewrite <- Hinv by lia. lia. }
      rewrite Hlt.
      destruct (IH (S made) (Some m) (slept ++ [backoff (Z.of_nat (S made))]))
        as (last & Hrun & _ & Hlast).
      * intros _. rewrite <- Hinv by lia. f_equal. lia.
      * intros k Hk. replace (S made + k)%nat with (made + S k)%nat by lia.
        apply Hfail. lia.
      * exists last. rewrite Hrun. split; [|split; [discriminate|]].
        -- replace (S made + S r)%nat with (made + S (S r))%nat by lia.
           replace (S (S r) - 1)%nat with (S r) by lia.
           replace (S r - 1)%nat with r by lia.
           cbn [seq fmap list_fmap]. now rewrite <- app_assoc.
        -- intros m' _ Hm'. apply Hlast; [lia|].
           now replace (S made + S r - 1)%nat with (made + S (S r) - 1)%nat by lia.
Qed.

End RetryFacts.

(** C8.  initializeWithRetry(maxRetries) calls the load at most maxRetries
    times.  When the first load to succeed is call number n+1 (n failures
    before it, within the limit), it resolves with that call's statistics,
    makes no further call, and has waited min(1000 * 2^(k-1), 5000) ms after
    each failed attempt k = 1..n.  When every attempt fails it has waited so
    after each attempt but the last, and rejects with an error whose message
    contains the attempt count and the message of the last attempt's
    error. *)
Theorem initializeWithRetry_behaviour (load : nat -> LoadOutcome) (maxRetries : Z) :
  let run := initializeWithRetry load maxRetries in
  let wait := fun k : Z => Z.min (1000 * 2 ^ (k - 1)) 5000 in
  (calls run <= Z.to_nat maxRetries)%nat /\
  (forall n s,
      (n < Z.to_nat maxRetries)%nat ->
      (forall k, (k < n)%nat -> exists m, load k = Failed m) ->
      load n = Loaded s ->
      outcome run = Resolved s /\ calls run = S n /\
      delays run = wait <$> (Z.of_nat <$> seq 1 n)) /\
  ((forall k, (k < Z.to_nat maxRetries)%nat -> exists m, load k = Failed m) ->
   calls run = Z.to_nat maxRetries /\
   delays run = wait <$> (Z.of_nat <$> seq 1 (Z.to_nat maxRetries - 1)) /\
   exists msg,
     outcome run = Rejected msg /\
     includes msg (numberToString maxRetries) = true /\
     forall m, (0 < maxRetries)%Z ->
               load (Z.to_nat maxRetries - 1)%nat = Failed m ->
               includes msg m = true).
Proof.
  intros run wait. subst run. unfold initializeWithRetry.
  change 1%Z with (Z.of_nat 1).
  assert (Hinv : (0 < Z.to_nat maxRetries)%nat ->
                 Z.of_nat (0 + Z.to_nat maxRetries) = maxRetries) by lia.
  split; [|split].
  - etrans; [apply retryLoop_calls|]. lia.
  - intros n s Hn Hfail Hok.
    rewrite (retryLoop_resolved load maxRetries n _ 0%nat None [] s Hinv Hn Hfail Hok).
    cbn. auto.
  - intros Hfail.
    destruct (retryLoop_exhausted load maxRetries _ 0%nat None [] Hinv Hfail)
      as (last & -> & _ & Hlast).
    cbn. split; [reflexivity|]. split; [reflexivity|].
    eexists. split; [reflexivity|]. split.
    + unfold exhaustedMessage. apply includes_append.
    + intros m Hpos Hm. rewrite (Hlast m) by (assumption || lia).
      unfold exhaustedMessage. cbn [default from_option id].
      rewrite <- !append_assoc. apply includes_suffix.
Qed.

(** Scenario D of the specification: two failures, then a success. *)
Lemma initializeWithRetry_behaviour_witness :
  outcome (initializeWithRetry Scenarios.flakyLoad 3) = Resolved Scenarios.loadedStats /\
  calls (initializeWithRetry Scenarios.flakyLoad 3) = 3%nat /\
  delays (initializeWithRetry Scenarios.flakyLoad 3) = [1000; 2000]%Z.
Proof.
  apply (proj1 (proj2 (initializeWithRetry_behaviour Scenarios.flakyLoad 3))
           2%nat Scenarios.loadedStats).
  - cbn. lia.
  - intros k Hk. destruct k as [|[|k]]; [eexists; reflexivity .. | lia].
  - reflexivity.
Defined.

(* ===================================================================== *)
(** * The passage composer *)
(* ===================================================================== *)

Import Sentence.


Lemma ceilDiv_bounds (n : Z) :
  (200 * (ceilDiv n 200 - 1) < n <= 200 * ceilDiv n 200)%Z.
Proof.
  unfold ceilDiv.
  pose proof (Z.mod_pos_bound (- n) 200 ltac:(lia)).
  pose proof (Z_div_mod_eq_full (- n) 200). lia.
Qed.

Section PassageFacts.
Variable re : RegExp.
Variable st : Store.
Variable ctx : string.
Variable lvl : Difficulty.

(** The word is highlighted: its first sentence of the context and level
    exists and matches the word between word boundaries. *)
Abbreviation highlighted :=
  (fun w : PassageWord =>
     match sentencesAtLevel st (pw_value w) ctx lvl with
     | s :: _ =>
         match matchWholeWord re (pw_value w) (sentence s) with
         | Some (Some _) => true
         | _ => false
         end
     | [] => false
     end).



End PassageFacts.




(* ===================================================================== *)
(** * Data validation *)
(* ===================================================================== *)

Lemma setDefinition_lowerCaseKeys st key d :
  lowerCaseKeys st -> lowerCaseKeys (setDefinition st (toLowerCase key) d).
Proof.
  intros Hst k d'. unfold setDefinition. cbn.
  destruct (decide (toLowerCase key = k)) as [<-|Hne].
  - intros _. apply toLowerCase_idem.
  - rewrite lookup_insert_ne by exact Hne. apply Hst.
Qed.

Lemma loadDefinitions_lowerCaseKeys data :
  forall st, lowerCaseKeys st -> lowerCaseKeys (loadDefinitions st data).
Proof.
  unfold loadDefinitions.
  induction data as [|d data IH]; intros st Hst; cbn; [exact Hst|].
  apply IH, setDefinition_lowerCaseKeys, Hst.
Qed.

Lemma reachable_lowerCaseKeys st : reachable st -> lowerCaseKeys st.
Proof.
  induction 1 as [|st m _ IH].
  - intros k d H. cbn in H. rewrite lookup_empty in H. discriminate.
  - destruct m as [data|f data|f data|f data|d|w l|w dd|w dd|w|w sd];
      cbn [applyMutation]; try exact IH.
    + now apply loadDefinitions_lowerCaseKeys.
    + now apply setDefinition_lowerCaseKeys.
    + now apply setDefinition_lowerCaseKeys.
    + unfold updateDefinition.
      destruct (definitionsDB st !! toLowerCase w); cbn; [|exact IH].
      now apply setDefinition_lowerCaseKeys.
    + intros k d. unfold removeDefinition. cbn. intros H.
      apply lookup_delete_Some in H as [_ H]. now apply (IH k d).
Qed.

Lemma getAllWords_defined st w :
  w ∈ getAllWords st -> exists d, definitionsDB st !! w = Some d.
Proof.
  unfold getAllWords. intros H.
  apply list_elem_of_fmap in H as ([k d] & -> & H).
  apply elem_of_map_to_list in H. exists d. exact H.
Qed.

Section ValidationFacts.
Variable st : Store.
Hypothesis Hkeys : lowerCaseKeys st.
Hypothesis Hclean :
  forall k d, definitionsDB st !! k = Some d ->
              includes (general d) "Definition not found" = false.

Lemma checkWord_defined t w d :
  definitionsDB st !! w = Some d ->
  t_errors (checkWord st t w) = t_errors t /\
  t_wordsWithDistractions (checkWord st t w) = S (t_wordsWithDistractions t).
Proof.
  intros Hd. unfold checkWord.
  rewrite (getDistractors_length st w None). cbn [Nat.leb].
  assert (Hdef : getDefinition st w None = general d).
  { unfold getDefinition. now rewrite (Hkeys w d Hd), Hd. }
  rewrite Hdef, (Hclean w d Hd).
  destruct (0 <? length (getSentenceExamples st w None))%nat,
           (0 <? length (getSimilarWords st w))%nat; cbn; auto.
Qed.

Lemma foldl_checkWord ws :
  forall t,
    (forall w, w ∈ ws -> exists d, definitionsDB st !! w = Some d) ->
    t_errors (foldl (checkWord st) t ws) = t_errors t /\
    t_wordsWithDistractions (foldl (checkWord st) t ws)
    = (t_wordsWithDistractions t + length ws)%nat.
Proof.
  induction ws as [|w ws IH]; intros t Hws; cbn.
  - split; [reflexivity | lia].
  - destruct (Hws w (list_elem_of_here _ _)) as [d Hd].
    destruct (checkWord_defined t w d Hd) as [He Hc].
    destruct (IH (checkWord st t w)
                 (fun x Hx => Hws x (list_elem_of_further _ _ _ Hx))) as [He' Hc'].
    rewrite He', Hc', He, Hc. split; [reflexivity | lia].
Qed.

End ValidationFacts.

(** C10 (as amended).  For every reachable store in which no stored general
    definition contains the text [Definition not found],
    validateDataIntegrity returns isValid = true with an empty errors list,
    and every word counts as having enough distractors (the
    insufficient-distractors branch is never taken). *)
Theorem validateDataIntegrity_valid (st : Store) :
  reachable st ->
  (forall k d, definitionsDB st !! k = Some d ->
               includes (general d) "Definition not found" = false) ->
  isValid (validateDataIntegrity st) = true /\
  errors (validateDataIntegrity st) = [] /\
  wordsWithDistractions (stats (validateDataIntegrity st))
  = totalWords (stats (validateDataIntegrity st)).
Proof.
  intros Hreach Hclean. apply reachable_lowerCaseKeys in Hreach.
  destruct (foldl_checkWord st Hreach Hclean (getAllWords st)
              (mkTally [] [] 0 0 0 []) (getAllWords_defined st)) as [He Hc].
  unfold validateDataIntegrity. cbn. rewrite He, Hc. cbn. auto.
Qed.

Lemma validateDataIntegrity_valid_witness :
  isValid (validateDataIntegrity Scenarios.bankStore) = true /\
  errors (validateDataIntegrity Scenarios.bankStore) = [] /\
  wordsWithDistractions (stats (validateDataIntegrity Scenarios.bankStore))
  = totalWords (stats (validateDataIntegrity Scenarios.bankStore)).
Proof.
  apply (validateDataIntegrity_valid Scenarios.bankStore).
  - apply (reachable_step emptyStore
             (AddDefinition
                (Scenarios.bankDefinition {[ "geography" := "river edge" ]}))).
    apply reachable_empty.
  - intros k d H. unfold Scenarios.bankStore, addDefinition, setDefinition in H.
    cbn in H. apply lookup_insert_Some in H as [[_ <-]|[_ H]]; [reflexivity|].
    rewrite lookup_empty in H. discriminate.
Defined.

(** C10 as written fails: a stored general definition that itself contains
    the text of the not-found message is reported as a missing
    definition. *)
Lemma validateDataIntegrity_echo_invalid :
  reachable Scenarios.echoStore /\
  isValid (validateDataIntegrity Scenarios.echoStore) = false /\
  errors (validateDataIntegrity Scenarios.echoStore)
  = ["No definition found for word " +:+ quoted "sentinel"].
Proof.
  split.
  - apply (reachable_step emptyStore (AddDefinition _)), reachable_empty.
  - split; vm_compute; reflexivity.
Qed.

(* ===================================================================== *)
(** * The content store: mutations *)
(* ===================================================================== *)

Lemma getDefinition_found st w d :
  definitionsDB st !! toLowerCase w = Some d -> getDefinition st w None = general d.
Proof. intros H. unfold getDefinition. now rewrite H. Qed.

Lemma getDefinition_missing st w C :
  definitionsDB st !! toLowerCase w = None -> getDefinition st w C = notFoundMessage w.
Proof. intros H. unfold getDefinition. now rewrite H. Qed.

Lemma getDefinition_same_entry st st' w C :
  definitionsDB st' !! toLowerCase w = definitionsDB st !! toLowerCase w ->
  getDefinition st' w C = getDefinition st w C.
Proof. intros H. unfold getDefinition. now rewrite H. Qed.

(** X1.  Round trip: after addDefinition(d), looking the word up without a
    context returns d.general, however the word is cased in the request, and
    hasWord holds for it; the definitions of all other words stay as they
    were. *)
Theorem addDefinition_then_getDefinition (st : Store) (d : DefinitionRec)
    (w : string) :
  (toLowerCase w = toLowerCase (def_word d) ->
   getDefinition (addDefinition st d) w None = general d /\
   hasWord (addDefinition st d) w = true) /\
  (toLowerCase w <> toLowerCase (def_word d) ->
   forall C, getDefinition (addDefinition st d) w C = getDefinition st w C).
Proof.
  split.
  - intros Hw. split.
    + apply getDefinition_found. cbn. rewrite Hw. apply lookup_insert_eq.
    + unfold hasWord. apply bool_decide_eq_true. cbn. rewrite Hw.
      rewrite lookup_insert_eq. eauto.
  - intros Hw C. apply getDefinition_same_entry. cbn.
    now rewrite lookup_insert_ne.
Qed.

Lemma addDefinition_then_getDefinition_witness :
  getDefinition
    (addDefinition Scenarios.bankStore
       (mkDefinition "River" "a stream of water" ∅ beginner "noun" None None))
    "RIVER" None = "a stream of water".
Proof.
  apply (proj1 (addDefinition_then_getDefinition Scenarios.bankStore
                  (mkDefinition "River" "a stream of water" ∅ beginner "noun"
                     None None) "RIVER")).
  reflexivity.
Defined.

(** X2.  After removeDefinition(w) every lookup of the word, in any case and
    with any context, gives the not-found message and hasWord is false; the
    definitions of all other words stay as they were. *)
Theorem removeDefinition_then_getDefinition (st : Store) (w w' : string)
    (C : option string) :
  (toLowerCase w' = toLowerCase w ->
   getDefinition (removeDefinition st w) w' C = notFoundMessage w' /\
   hasWord (removeDefinition st w) w' = false) /\
  (toLowerCase w' <> toLowerCase w ->
   getDefinition (removeDefinition st w) w' C = getDefinition st w' C).
Proof.
  split.
  - intros Hw. split.
    + apply getDefinition_missing. cbn. rewrite Hw. apply lookup_delete_eq.
    + unfold hasWord. apply bool_decide_eq_false. cbn. rewrite Hw.
      rewrite lookup_delete_eq. intros [x Hx]. discriminate.
  - intros Hw. apply getDefinition_same_entry. cbn.
    now rewrite lookup_delete_ne.
Qed.

Lemma removeDefinition_then_getDefinition_witness :
  getDefinition (removeDefinition Scenarios.bankStore "Bank") "bank"
    (Some "geography") = notFoundMessage "bank".
Proof.
  apply (proj1 (removeDefinition_then_getDefinition Scenarios.bankStore
                  "Bank" "bank" (Some "geography"))).
  reflexivity.
Defined.

(** X3.  updateDefinition throws exactly when the word has no definition, and
    then changes nothing.  When it succeeds, the word's general definition is
    the new one, its stored word, pronunciation and audio file are kept, its
    contextual definitions are kept unless new ones are given, and no other
    word's entry changes. *)
Theorem updateDefinition_behaviour (st : Store) (w : string) (dd : DefinitionData) :
  (updateDefinition st w dd = None <-> hasWord st w = false) /\
  (forall st', updateDefinition st w dd = Some st' ->
     getDefinition st' w None = dd_general dd /\
     (exists old new,
        definitionsDB st !! toLowerCase w = Some old /\
        definitionsDB st' !! toLowerCase w = Some new /\
        def_word new = def_word old /\
        pronunciation new = pronunciation old /\
        def_audio_file new = def_audio_file old /\
        (dd_contextual dd = None -> contextual new = contextual old)) /\
     (forall k, k <> toLowerCase w ->
                definitionsDB st' !! k = definitionsDB st !! k) /\
     sentencesDB st' = sentencesDB st).
Proof.
  unfold updateDefinition, hasWord. split.
  - destruct (definitionsDB st !! toLowerCase w) as [old|] eqn:Hold.
    + split; [discriminate|]. intros H. apply bool_decide_eq_false in H.
      exfalso. apply H. eauto.
    + split; [|reflexivity]. intros _. apply bool_decide_eq_false.
      intros [x Hx]. discriminate.
  - intros st' H.
    destruct (definitionsDB st !! toLowerCase w) as [old|] eqn:Hold; [|discriminate].
    simplify_eq. split; [|split; [|split]].
    + erewrite getDefinition_found; [|cbn; apply lookup_insert_eq]. reflexivity.
    + eexists old, _. split; [reflexivity|]. split.
      * cbn. apply lookup_insert_eq.
      * cbn. repeat split. now intros ->.
    + intros k Hk. cbn. now rewrite lookup_insert_ne.
    + reflexivity.
Qed.

Lemma updateDefinition_behaviour_witness :
  exists st',
    updateDefinition Scenarios.bankStore "BANK"
      (mkDefinitionData "a place that keeps money" None None None) = Some st' /\
    getDefinition st' "BANK" None = "a place that keeps money" /\
    getDefinition st' "bank" (Some "geography") = "river edge".
Proof.
  eexists. split; [reflexivity|]. split.
  - apply (proj2 (updateDefinition_behaviour Scenarios.bankStore "BANK"
                    (mkDefinitionData "a place that keeps money" None None None))).
    reflexivity.
  - reflexivity.
Defined.

(** X4.  addSentenceExample appends: afterwards the examples of the word (in
    any case, no context filter) are the former ones followed by the new
    one, whose context is general and whose level is intermediate unless
    given; the examples of other words stay as they were. *)
Theorem addSentenceExample_appends (st : Store) (w w' : string) (sd : SentenceData) :
  (toLowerCase w' = toLowerCase w ->
   exists s,
     getSentenceExamples (addSentenceExample st w sd) w' None
     = getSentenceExamples st w' None ++ [s] /\
     sentence s = sd_sentence sd /\
     sent_context s = orElse (sd_context sd) "general" /\
     sent_difficulty s = orElse (sd_difficulty sd) "intermediate") /\
  (toLowerCase w' <> toLowerCase w ->
   forall C, getSentenceExamples (addSentenceExample st w sd) w' C
             = getSentenceExamples st w' C).
Proof.
  unfold getSentenceExamples, addSentenceExample. split.
  - intros ->. eexists. cbn. rewrite lookup_insert_eq. cbn.
    split; [reflexivity|]. cbn. auto.
  - intros Hw C. cbn. now rewrite lookup_insert_ne.
Qed.

Lemma addSentenceExample_appends_witness :
  exists s,
    getSentenceExamples
      (addSentenceExample Scenarios.passageStore "Bank"
         (mkSentenceData "The bank closes at five." None None None))
      "bank" None
    = getSentenceExamples Scenarios.passageStore "bank" None ++ [s] /\
    sentence s = "The bank closes at five." /\
    sent_context s = "general" /\
    sent_difficulty s = "intermediate".
Proof.
  apply (proj1 (addSentenceExample_appends Scenarios.passageStore "Bank" "bank"
                  (mkSentenceData "The bank closes at five." None None None))).
  reflexivity.
Defined.

(** X5.  On every reachable store getAllWords lists each stored word once
    and in lower case, and hasWord(w) holds exactly when the lower-cased w is
    in that list. *)
Theorem getAllWords_hasWord (st : Store) :
  reachable st ->
  NoDup (getAllWords st) /\
  (forall k, k ∈ getAllWords st -> toLowerCase k = k) /\
  (forall w, hasWord st w = true <-> toLowerCase w ∈ getAllWords st).
Proof.
  intros Hreach. apply reachable_lowerCaseKeys in Hreach.
  unfold getAllWords. split; [apply NoDup_fst_map_to_list|]. split.
  - intros k Hk. apply list_elem_of_fmap in Hk as ([k' d] & -> & Hk).
    apply elem_of_map_to_list in Hk. now apply (Hreach k' d).
  - intros w. unfold hasWord. rewrite bool_decide_eq_true. split.
    + intros [d Hd]. apply list_elem_of_fmap. exists (toLowerCase w, d).
      split; [reflexivity|]. now apply elem_of_map_to_list.
    + intros Hk. apply list_elem_of_fmap in Hk as ([k' d] & Hk' & Hk).
      apply elem_of_map_to_list in Hk. cbn in Hk'. subst k'. eauto.
Qed.

Lemma getAllWords_hasWord_witness :
  NoDup (getAllWords Scenarios.bankStore) /\
  (forall k, k ∈ getAllWords Scenarios.bankStore -> toLowerCase k = k) /\
  (forall w, hasWord Scenarios.bankStore w = true
             <-> toLowerCase w ∈ getAllWords Scenarios.bankStore).
Proof.
  apply (getAllWords_hasWord Scenarios.bankStore).
  apply (reachable_step emptyStore
           (AddDefinition (Scenarios.bankDefinition {[ "geography" := "river edge" ]}))).
  apply reachable_empty.
Defined.





(* ===================================================================== *)
(** * The content store: statistics *)
(* ===================================================================== *)

Lemma sum_list_Permutation (l l' : list nat) : l ≡ₚ l' -> sum_list l = sum_list l'.
Proof. induction 1; cbn; lia. Qed.

Lemma sum_values_insert (m : gmap string nat) (k : string) (n : nat) :
  (sum_list (map_to_list (<[k := n]> m)).*2 + default 0 (m !! k)
   = n + sum_list (map_to_list m).*2)%nat.
Proof.
  destruct (m !! k) as [x|] eqn:Hk; cbn.
  - rewrite <- (insert_delete_id m k x Hk) at 2.
    rewrite <- (insert_delete_eq m k n).
    rewrite (sum_list_Permutation _ _
               (fmap_Permutation snd _ _
                  (map_to_list_insert (delete k m) k n (lookup_delete_eq m k)))).
    rewrite (sum_list_Permutation _ _
               (fmap_Permutation snd _ _
                  (map_to_list_insert (delete k m) k x (lookup_delete_eq m k)))).
    cbn. lia.
  - rewrite (sum_list_Permutation _ _
               (fmap_Permutation snd _ _ (map_to_list_insert m k n Hk))).
    cbn. lia.
Qed.

Lemma countPartOfSpeech_sum (dist : gmap string nat) (pos : string) :
  sum_list (map_to_list (DataAdmin.countPartOfSpeech dist pos)).*2
  = S (sum_list (map_to_list dist).*2).
Proof.
  unfold DataAdmin.countPartOfSpeech.
  pose proof (sum_values_insert dist pos (S (default 0%nat (dist !! pos)))). lia.
Qed.

Lemma countPartOfSpeech_fold (l : list (string * DefinitionRec)) :
  forall dist,
    sum_list (map_to_list
                (foldl (fun dist kd =>
                          DataAdmin.countPartOfSpeech dist (part_of_speech kd.2))
                       dist l)).*2
    = (sum_list (map_to_list dist).*2 + length l)%nat.
Proof.
  induction l as [|kd l IH]; intros dist; cbn [foldl length]; [lia|].
  rewrite IH, countPartOfSpeech_sum. lia.
Qed.

Lemma countPartOfSpeech_lookup (dist : gmap string nat) (pos pos' : string) :
  default 0%nat (DataAdmin.countPartOfSpeech dist pos !! pos')
  = (default 0%nat (dist !! pos') + if bool_decide (pos = pos') then 1 else 0)%nat.
Proof.
  unfold DataAdmin.countPartOfSpeech. case_bool_decide as H.
  - subst pos'. rewrite lookup_insert_eq. cbn. lia.
  - rewrite lookup_insert_ne by exact H. lia.
Qed.

Lemma countPartOfSpeech_count (pos' : string) (l : list (string * DefinitionRec)) :
  forall dist,
    default 0%nat
      (foldl (fun dist kd => DataAdmin.countPartOfSpeech dist (part_of_speech kd.2))
             dist l !! pos')
    = (default 0%nat (dist !! pos')
       + length (List.filter
                   (fun kd => bool_decide (part_of_speech kd.2 = pos')) l))%nat.
Proof.
  induction l as [|kd l IH]; intros dist; cbn [foldl List.filter length]; [lia|].
  rewrite IH, countPartOfSpeech_lookup.
  destruct (bool_decide (part_of_speech kd.2 = pos')); cbn [length]; lia.
Qed.

(** X7.  When no stored definition has a part of speech that is the name of
    an inherited property, the histogram of getPartOfSpeechDistribution
    counts every definition exactly once: under each part of speech it
    holds the number of definitions that have it (and no entry when there
    is none), so its counters add up to the number of definitions, which
    getStats reports as totalWords. *)
Theorem getPartOfSpeechDistribution_total (st : Store) :
  (forall k d, definitionsDB st !! k = Some d ->
               part_of_speech d ∉ objectPrototypeNames) ->
  let distribution := DataAdmin.getPartOfSpeechDistribution st in
  sum_list (map_to_list distribution).*2 = size (definitionsDB st) /\
  (forall pos,
      default 0%nat (distribution !! pos)
      = length (List.filter (fun kd => bool_decide (part_of_speech kd.2 = pos))
                            (map_to_list (definitionsDB st)))) /\
  (forall pos n, distribution !! pos = Some n -> (1 <= n)%nat).
Proof.
  intros _ distribution. subst distribution.
  unfold DataAdmin.getPartOfSpeechDistribution. split; [|split].
  - rewrite <- (length_map_to_list (definitionsDB st)).
    rewrite countPartOfSpeech_fold, map_to_list_empty. reflexivity.
  - intros pos. rewrite countPartOfSpeech_count, lookup_empty. reflexivity.
  - generalize (map_to_list (definitionsDB st)). intros l.
    assert (Hpos : forall pos n, (∅ : gmap string nat) !! pos = Some n -> (1 <= n)%nat)
      by (intros pos n H; rewrite lookup_empty in H; discriminate).
    revert Hpos. generalize (∅ : gmap string nat).
    induction l as [|kd l IH]; intros dist Hdist; cbn [foldl]; [exact Hdist|].
    apply IH. intros pos n. unfold DataAdmin.countPartOfSpeech.
    destruct (decide (part_of_speech kd.2 = pos)) as [->|Hne].
    + rewrite lookup_insert_eq. intros [= <-]. lia.
    + rewrite lookup_insert_ne by exact Hne. apply Hdist.
Qed.

Lemma getPartOfSpeechDistribution_total_witness :
  let distribution := DataAdmin.getPartOfSpeechDistribution Scenarios.bankStore in
  sum_list (map_to_list distribution).*2 = size (definitionsDB Scenarios.bankStore) /\
  (forall pos,
      default 0%nat (distribution !! pos)
      = length (List.filter (fun kd => bool_decide (part_of_speech kd.2 = pos))
                            (map_to_list (definitionsDB Scenarios.bankStore)))) /\
  (forall pos n, distribution !! pos = Some n -> (1 <= n)%nat).
Proof.
  apply (getPartOfSpeechDistribution_total Scenarios.bankStore).
  intros k d H. cbn in H.
  apply lookup_insert_Some in H as [[_ <-]|[_ H]];
    [|rewrite lookup_empty in H; discriminate].
  apply (bool_decide_eq_false_1 _). reflexivity.
Defined.

Lemma elem_of_setAdd set x y : y ∈ Loader.setAdd set x <-> y ∈ set \/ y = x.
Proof.
  unfold Loader.setAdd. case_bool_decide as Hx.
  - split; [auto|]. intros [H| ->]; assumption.
  - rewrite elem_of_app, list_elem_of_singleton. reflexivity.
Qed.

Lemma NoDup_setAdd set x : NoDup set -> NoDup (Loader.setAdd set x).
Proof.
  intros H. unfold Loader.setAdd. case_bool_decide as Hx; [exact H|].
  apply NoDup_app. split; [exact H|]. split.
  - intros y Hy Hy'. apply list_elem_of_singleton in Hy'. congruence.
  - apply NoDup_singleton.
Qed.

Lemma elem_of_foldl_setAdd l :
  forall set y, y ∈ foldl Loader.setAdd set l <-> y ∈ set \/ y ∈ l.
Proof.
  induction l as [|x l IH]; intros set y; cbn.
  - split; [auto|]. intros [H|H]; [exact H | inversion H].
  - rewrite IH, elem_of_setAdd, elem_of_cons. tauto.
Qed.

Lemma NoDup_foldl_setAdd l :
  forall set, NoDup set -> NoDup (foldl Loader.setAdd set l).
Proof.
  induction l as [|x l IH]; intros set H; cbn; [exact H|].
  apply IH, NoDup_setAdd, H.
Qed.

(** Collecting into a Set from each item of a list. *)
Lemma elem_of_collect {A} (g : A -> list string) (items : list A) :
  forall set y,
    y ∈ foldl (fun contexts item => foldl Loader.setAdd contexts (g item)) set items
    <-> y ∈ set \/ exists item, item ∈ items /\ y ∈ g item.
Proof.
  induction items as [|i items IH]; intros set y; cbn.
  - split; [auto|]. intros [H|(i & H & _)]; [exact H | inversion H].
  - rewrite IH, elem_of_foldl_setAdd. split.
    + intros [[H|H]|(j & Hj & Hy)]; [auto| |].
      * right. exists i. split; [apply list_elem_of_here | exact H].
      * right. exists j. split; [now apply list_elem_of_further | exact Hy].
    + intros [H|(j & Hj & Hy)]; [auto|].
      apply elem_of_cons in Hj as [->|Hj]; [auto|].
      right. exists j. auto.
Qed.

Lemma NoDup_collect {A} (g : A -> list string) (items : list A) :
  forall set,
    NoDup set ->
    NoDup (foldl (fun contexts item => foldl Loader.setAdd contexts (g item))
                 set items).
Proof.
  induction items as [|i items IH]; intros set H; cbn; [exact H|].
  apply IH, NoDup_foldl_setAdd, H.
Qed.

#[local] Instance codeUnitLe_total : Total Loader.codeUnitLe.
Proof. intros a b. apply String.leb_total. Qed.

(** X8.  getAvailableContexts returns, in ascending code-unit order and
    without repetition, exactly the context names that are a key of some
    definition's contextual map or the context of some stored example
    sentence (as they are written: names that differ in case are
    different). *)
Theorem getAvailableContexts_exact (st : Store) :
  Sorted Loader.codeUnitLe (DataAdmin.getAvailableContexts st) /\
  NoDup (DataAdmin.getAvailableContexts st) /\
  (forall c,
     c ∈ DataAdmin.getAvailableContexts st <->
     (exists k d, definitionsDB st !! k = Some d /\ is_Some (contextual d !! c)) \/
     (exists k l s, sentencesDB st !! k = Some l /\ s ∈ l /\ sent_context s = c)).
Proof.
  unfold DataAdmin.getAvailableContexts, Loader.sortStrings.
  split; [apply Sorted_merge_sort, _|]. split.
  - rewrite merge_sort_Permutation. unfold DataAdmin.collectContexts.
    apply NoDup_collect, NoDup_collect, NoDup_nil_2.
  - intros c. rewrite merge_sort_Permutation. unfold DataAdmin.collectContexts.
    rewrite !elem_of_collect. split.
    + intros [[H|([k d] & Hkd & Hc)]|([k l] & Hkl & Hc)].
      * inversion H.
      * left. apply elem_of_map_to_list in Hkd. exists k, d. split; [exact Hkd|].
        cbn in Hc. apply list_elem_of_fmap in Hc as ([c' v] & -> & Hc).
        apply elem_of_map_to_list in Hc. eauto.
      * right. apply elem_of_map_to_list in Hkl. cbn in Hc.
        apply list_elem_of_fmap in Hc as (s & -> & Hs). exists k, l, s. auto.
    + intros [(k & d & Hd & [v Hv])|(k & l & s & Hl & Hs & <-)].
      * left. right. exists (k, d). split; [now apply elem_of_map_to_list|].
        cbn. apply list_elem_of_fmap. exists (c, v).
        split; [reflexivity | now apply elem_of_map_to_list].
      * right. exists (k, l). split; [now apply elem_of_map_to_list|].
        cbn. apply list_elem_of_fmap. exists s. auto.
Qed.

(* ===================================================================== *)
(** * The exercise generator: options and quiz questions *)
(* ===================================================================== *)

Lemma unitDraws_clock w c : unitDraws w -> unitDraws (mkWorld (randoms w) c).
Proof. intros H n. apply (H n). Qed.

Section Options.
Variable st : Store.
Variable ctx : string.

(** What a multiple-choice or matching exercise offers. *)
Abbreviation offersMeaning w e :=
  (correct e = meaning w /\ word e = value w /\
   exists opts, options e = Some opts /\
                opts ≡ₚ meaning w :: getDistractors st (value w) (Some ctx)).

Lemma take_distractors w :
  take 3 (getDistractors st (value w) (contextArg ctx))
  = getDistractors st (value w) (Some ctx).
Proof. apply take_ge. unfold contextArg. now rewrite getDistractors_length. Qed.

Lemma generateMultipleChoice_offers w wd :
  unitDraws wd ->
  exists e wd',
    generateMultipleChoice st w ctx wd = Normal e wd' /\ unitDraws wd' /\
    type e = multiple_choice /\ offersMeaning w e.
Proof.
  intros Hwd. unfold generateMultipleChoice, shuffleArray.
  destruct (shuffleLoop_permutation
              (length (meaning w :: take 3 (getDistractors st (value w) (contextArg ctx))) - 1)
              (meaning w :: take 3 (getDistractors st (value w) (contextArg ctx)))
              wd Hwd) as (opts & wd1 & Hs & Hperm & Hwd1).
  { cbn [length]. left. lia. }
  rewrite (bind_Normal _ _ _ _ _ Hs). unfold bind, now, ret.
  eexists _, _. split; [reflexivity|]. split; [now apply unitDraws_clock|].
  cbn. split; [reflexivity|]. split; [reflexivity|]. split; [reflexivity|].
  exists opts. split; [reflexivity|]. now rewrite <- take_distractors.
Qed.

Lemma generateMatching_offers w wd :
  unitDraws wd ->
  exists e wd',
    generateMatching st w ctx wd = Normal e wd' /\ unitDraws wd' /\
    type e = matching /\ offersMeaning w e.
Proof.
  intros Hwd. unfold generateMatching, shuffleArray.
  destruct (shuffleLoop_permutation
              (length (meaning w :: take 3 (getDistractors st (value w) (contextArg ctx))) - 1)
              (meaning w :: take 3 (getDistractors st (value w) (contextArg ctx)))
              wd Hwd) as (opts & wd1 & Hs & Hperm & Hwd1).
  { cbn [length]. left. lia. }
  rewrite (bind_Normal _ _ _ _ _ Hs). unfold bind, now, ret.
  eexists _, _. split; [reflexivity|]. split; [now apply unitDraws_clock|].
  cbn. split; [reflexivity|]. split; [reflexivity|]. split; [reflexivity|].
  exists opts. split; [reflexivity|]. now rewrite <- take_distractors.
Qed.

End Options.

(** X9.  For draws in [0, 1), a multiple-choice exercise and a matching
    exercise each offer exactly four options: the word's meaning and the
    three resolved distractors, in some order; the correct answer is the
    meaning, verbatim, and is one of the options. *)
Theorem choice_exercises_offer_the_meaning (st : Store) (w : WordItem)
    (ctx : string) (wd : World) :
  unitDraws wd ->
  let offers := fun run : M Exercise =>
    exists e wd' opts,
      run wd = Normal e wd' /\
      options e = Some opts /\
      opts ≡ₚ meaning w :: getDistractors st (value w) (Some ctx) /\
      length opts = 4%nat /\
      correct e = meaning w /\
      correct e ∈ opts in
  offers (generateMultipleChoice st w ctx) /\ offers (generateMatching st w ctx).
Proof.
  intros Hwd offers.
  assert (H : forall run,
             (exists e wd',
                 run wd = Normal e wd' /\ correct e = meaning w /\
                 exists opts, options e = Some opts /\
                              opts ≡ₚ meaning w :: getDistractors st (value w) (Some ctx)) ->
             offers run).
  { intros run (e & wd' & He & Hc & opts & Ho & Hperm).
    exists e, wd', opts. split; [exact He|]. split; [exact Ho|].
    split; [exact Hperm|]. split; [|split; [exact Hc|]].
    - rewrite (Permutation_length Hperm). cbn. now rewrite getDistractors_length.
    - rewrite Hc, Hperm. apply list_elem_of_here. }
  split; apply H.
  - destruct (generateMultipleChoice_offers st ctx w wd Hwd)
      as (e & wd' & He & _ & _ & Hc & _ & Ho). eauto.
  - destruct (generateMatching_offers st ctx w wd Hwd)
      as (e & wd' & He & _ & _ & Hc & _ & Ho). eauto.
Qed.

Lemma choice_exercises_offer_the_meaning_witness :
  exists e wd' opts,
    generateMatching Scenarios.curatedStore Scenarios.bank "daily"
      Scenarios.demoWorld = Normal e wd' /\
    options e = Some opts /\
    opts ≡ₚ "financial institution" :: ["a loan"; "a shop"; "a bench"] /\
    length opts = 4%nat /\
    correct e = "financial institution" /\
    correct e ∈ opts.
Proof.
  apply (choice_exercises_offer_the_meaning Scenarios.curatedStore Scenarios.bank
           "daily" Scenarios.demoWorld).
  intros n. unfold Scenarios.demoWorld, Qle, Qlt. cbn.
  pose proof (Nat.mod_upper_bound n 4). lia.
Defined.

(** Closes [unitDraws wd'] for a world a few draws and clock readings
    later than one with unit draws. *)
Ltac later_world H :=
  let n := fresh "n" in
  intros n; cbn;
  first [ exact (H n) | exact (H (S n)) | exact (H (S (S n))) ].

(** Case analysis on every test made by the computation in [H]. *)
Ltac cases_in H :=
  repeat match type of H with
         | context [match ?x with _ => _ end] => destruct x eqn:?
         end.

Section ExerciseShape.
Variable re : RegExp.
Variable st : Store.
Variable ctx : string.

(** The shape of an exercise made for the word w: a choice among options
    that hold the correct answer, or a typed answer that is the word. *)
Abbreviation wellFormedFor w e :=
  (word e = value w /\
   match type e with
   | multiple_choice | matching | true_false =>
       exists opts, options e = Some opts /\ correct e ∈ opts
   | fill_in_blank | sentence_completion =>
       options e = None /\ correct e = value w
   end).

Lemma generateMultipleChoice_shape w wd e wd' :
  unitDraws wd -> generateMultipleChoice st w ctx wd = Normal e wd' ->
  unitDraws wd' /\ wellFormedFor w e.
Proof.
  intros Hwd H.
  destruct (generateMultipleChoice_offers st ctx w wd Hwd)
    as (e0 & wd0 & He & Hu & Ht & Hc & Hw & opts & Ho & Hperm).
  rewrite He in H. simplify_eq. split; [exact Hu|]. split; [exact Hw|].
  rewrite Ht. exists opts. split; [exact Ho|].
  rewrite Hc, Hperm. apply list_elem_of_here.
Qed.

Lemma generateMatching_shape w wd e wd' :
  unitDraws wd -> generateMatching st w ctx wd = Normal e wd' ->
  unitDraws wd' /\ wellFormedFor w e.
Proof.
  intros Hwd H.
  destruct (generateMatching_offers st ctx w wd Hwd)
    as (e0 & wd0 & He & Hu & Ht & Hc & Hw & opts & Ho & Hperm).
  rewrite He in H. simplify_eq. split; [exact Hu|]. split; [exact Hw|].
  rewrite Ht. exists opts. split; [exact Ho|].
  rewrite Hc, Hperm. apply list_elem_of_here.
Qed.

Lemma generateTrueFalse_shape w wd e wd' :
  unitDraws wd -> generateTrueFalse st w ctx wd = Normal e wd' ->
  unitDraws wd' /\ wellFormedFor w e.
Proof.
  intros Hwd H. unfold generateTrueFalse, bind, random, now, ret in H.
  destruct (negb _); simplify_eq;
    (split; [later_world Hwd|]);
    (split; [reflexivity|]); cbn; eexists; (split; [reflexivity|]); set_solver.
Qed.

Lemma generateFillInBlank_shape w wd e wd' :
  unitDraws wd -> generateFillInBlank re st w ctx wd = Normal e wd' ->
  unitDraws wd' /\ wellFormedFor w e.
Proof.
  intros Hwd H. unfold generateFillInBlank in H.
  unfold randomIndex in H. unfold bind, ret, throw, now, random in H.
  cbv beta iota in H.
  cases_in H; simplify_eq; (split; [later_world Hwd | cbn; auto]).
Qed.

Lemma generateSentenceCompletion_shape w wd e wd' :
  unitDraws wd -> generateSentenceCompletion st w ctx wd = Normal e wd' ->
  unitDraws wd' /\ wellFormedFor w e.
Proof.
  intros Hwd H. unfold generateSentenceCompletion in H.
  unfold randomIndex in H. unfold bind, ret, throw, now, random in H.
  cbv beta iota in H.
  cases_in H; simplify_eq; (split; [later_world Hwd | cbn; auto]).
Qed.

Lemma dispatch_shape w t wd e wd' :
  unitDraws wd -> dispatch re st w ctx t wd = Normal e wd' ->
  unitDraws wd' /\ wellFormedFor w e.
Proof.
  unfold dispatch. intros Hwd H.
  cases_in H;
    eauto using generateMultipleChoice_shape, generateMatching_shape,
      generateTrueFalse_shape, generateFillInBlank_shape,
      generateSentenceCompletion_shape.
Qed.

Lemma generateExercisesLoop_shape types :
  forall words acc wd res wd',
    unitDraws wd ->
    generateExercisesLoop re st words ctx types acc wd = Normal res wd' ->
    exists new, res = acc ++ new /\ Forall2 (fun e w => wellFormedFor w e) new words.
Proof.
  induction words as [|w rest IH]; intros acc wd res wd' Hwd H; cbn in H.
  - unfold ret in H. simplify_eq. exists []. rewrite app_nil_r. split; [reflexivity|].
    constructor.
  - unfold bind at 1, generateExerciseForWord in H.
    unfold bind at 1, randomIndex, bind, random, ret in H.
    destruct (dispatch re st w ctx _ _) as [e wd1|] eqn:Hd; [|discriminate].
    apply dispatch_shape in Hd as [Hwd1 He]; [|now apply unitDraws_tail].
    apply IH in H as (new & -> & Hnew); [|exact Hwd1].
    exists (e :: new). rewrite <- app_assoc. split; [reflexivity|].
    constructor; assumption.
Qed.

End ExerciseShape.

(** X10.  For draws in [0, 1) and any list of allowed types, every exercise
    generateExercises returns is well formed for its word: it names the
    word; a multiple_choice, matching or true_false exercise carries options
    that include its correct answer; a fill_in_blank or sentence_completion
    exercise carries no options and its correct answer is the word as it was
    given. *)
Theorem generateExercises_well_formed (re : RegExp) (st : Store)
    (words : list WordItem) (ctx : string) (types : list string)
    (wd wd' : World) (res : list Exercise) :
  unitDraws wd ->
  generateExercises re st words ctx types wd = Normal res wd' ->
  Forall2 (fun e w =>
             word e = value w /\
             match type e with
             | multiple_choice | matching | true_false =>
                 exists opts, options e = Some opts /\ correct e ∈ opts
             | fill_in_blank | sentence_completion =>
                 options e = None /\ correct e = value w
             end) res words.
Proof.
  intros Hwd H. unfold generateExercises in H.
  apply generateExercisesLoop_shape in H as (new & -> & Hnew); [|exact Hwd].
  exact Hnew.
Qed.

Lemma generateExercises_well_formed_witness :
  exists res wd',
    generateExercises literalRegExp Scenarios.passageStore
      [Scenarios.bank; Scenarios.zephyr] "daily"
      ["fill_in_blank"; "true_false"; "sentence_completion"] Scenarios.demoWorld
    = Normal res wd' /\
    Forall2 (fun e w =>
               word e = value w /\
               match type e with
               | multiple_choice | matching | true_false =>
                   exists opts, options e = Some opts /\ correct e ∈ opts
               | fill_in_blank | sentence_completion =>
                   options e = None /\ correct e = value w
               end) res [Scenarios.bank; Scenarios.zephyr].
Proof.
  assert (Hr : is_Some (returned
             (generateExercises literalRegExp Scenarios.passageStore
                [Scenarios.bank; Scenarios.zephyr] "daily"
                ["fill_in_blank"; "true_false"; "sentence_completion"]
                Scenarios.demoWorld))).
  { vm_compute. eexists. reflexivity. }
  destruct (generateExercises literalRegExp Scenarios.passageStore
              [Scenarios.bank; Scenarios.zephyr] "daily"
              ["fill_in_blank"; "true_false"; "sentence_completion"]
              Scenarios.demoWorld) as [res wd'|err] eqn:H.
  - exists res, wd'. split; [reflexivity|].
    apply (generateExercises_well_formed literalRegExp Scenarios.passageStore
             [Scenarios.bank; Scenarios.zephyr] "daily"
             ["fill_in_blank"; "true_false"; "sentence_completion"]
             Scenarios.demoWorld wd' res); [|exact H].
    intros n. unfold Scenarios.demoWorld, Qle, Qlt. cbn.
    pose proof (Nat.mod_upper_bound n 4). lia.
  - destruct Hr as [x Hx]. discriminate Hx.
Defined.

Lemma quizLoop_returns st ctx :
  forall selected acc wd,
    unitDraws wd ->
    exists new wd',
      ExerciseQuiz.quizLoop st selected ctx acc wd = Normal (acc ++ new) wd' /\
      Forall2 (fun e w => type e = multiple_choice /\ word e = value w /\
                          correct e = meaning w) new selected.
Proof.
  induction selected as [|w rest IH]; intros acc wd Hwd; cbn [ExerciseQuiz.quizLoop].
  - exists [], wd. rewrite app_nil_r. split; [reflexivity | constructor].
  - destruct (generateMultipleChoice_offers st ctx w wd Hwd)
      as (e & wd1 & He & Hwd1 & Ht & Hc & Hw & _).
    rewrite (bind_Normal _ _ _ _ _ He).
    destruct (IH (acc ++ [e]) wd1 Hwd1) as (new & wd2 & -> & Hnew).
    exists (e :: new), wd2. rewrite <- app_assoc. split; [reflexivity|].
    constructor; auto.
Qed.

Lemma sliceTo_length {A} (l : list A) (q : Z) :
  length (ExerciseQuiz.sliceTo l q)
  = if (0 <=? q)%Z then Nat.min (Z.to_nat q) (length l)
    else (length l - Z.to_nat (- q))%nat.
Proof.
  unfold ExerciseQuiz.sliceTo. destruct (0 <=? q)%Z; rewrite length_take; lia.
Qed.

(** X11.  For draws in [0, 1), generateQuizQuestions returns multiple-choice
    exercises only, for distinct picks among the given words: as many as
    questionCount asks for, or all the words when there are fewer.  A
    negative questionCount instead leaves that many words out (as slice
    counts a negative end from the end of the array). *)
Theorem generateQuizQuestions_count (st : Store) (words : list WordItem)
    (ctx : string) (questionCount : Z) (wd : World) :
  unitDraws wd ->
  exists res wd' unused,
    ExerciseQuiz.generateQuizQuestions st words ctx questionCount wd
    = Normal res wd' /\
    length res
    = (if (0 <=? questionCount)%Z
       then Nat.min (Z.to_nat questionCount) (length words)
       else (length words - Z.to_nat (- questionCount))%nat) /\
    Forall (fun e => type e = multiple_choice) res /\
    (word <$> res) ++ unused ≡ₚ value <$> words.
Proof.
  intros Hwd. unfold ExerciseQuiz.generateQuizQuestions, shuffleArray.
  destruct (shuffleLoop_permutation (length words - 1) words wd Hwd)
    as (shuffled & wd1 & Hs & Hperm & Hwd1).
  { destruct words; cbn; [right; reflexivity | left; lia]. }
  rewrite (bind_Normal _ _ _ _ _ Hs). cbv zeta.
  destruct (quizLoop_returns st ctx (ExerciseQuiz.sliceTo shuffled questionCount)
              [] wd1 Hwd1) as (res & wd2 & Hq & Hres).
  cbn [app] in Hq.
  assert (Hsel : exists n, ExerciseQuiz.sliceTo shuffled questionCount = take n shuffled).
  { unfold ExerciseQuiz.sliceTo. destruct (0 <=? questionCount)%Z; eauto. }
  destruct Hsel as [n Hn].
  exists res, wd2, (value <$> drop n shuffled).
  split; [exact Hq|]. split; [|split].
  - rewrite (Forall2_length _ _ _ Hres), sliceTo_length.
    now rewrite (Permutation_length Hperm).
  - clear -Hres. induction Hres as [|e w new sel (Ht & _) _ IH]; constructor; auto.
  - assert (Hw : word <$> res = value <$> ExerciseQuiz.sliceTo shuffled questionCount).
    { clear -Hres. induction Hres as [|e w new sel (_ & Hw & _) _ IH]; cbn;
        [reflexivity | now rewrite Hw, IH]. }
    rewrite Hw, Hn, <- fmap_app, take_drop. now rewrite Hperm.
Qed.

Lemma generateQuizQuestions_count_witness :
  exists res wd' unused,
    ExerciseQuiz.generateQuizQuestions Scenarios.curatedStore
      [Scenarios.bank; Scenarios.zephyr; Scenarios.bank] "daily" 2
      Scenarios.demoWorld = Normal res wd' /\
    length res = 2%nat /\
    Forall (fun e => type e = multiple_choice) res /\
    (word <$> res) ++ unused ≡ₚ ["bank"; "zephyr"; "bank"].
Proof.
  apply (generateQuizQuestions_count Scenarios.curatedStore
           [Scenarios.bank; Scenarios.zephyr; Scenarios.bank] "daily" 2
           Scenarios.demoWorld).
  intros n. unfold Scenarios.demoWorld, Qle, Qlt. cbn.
  pose proof (Nat.mod_upper_bound n 4). lia.
Defined.

(* ===================================================================== *)
(** * The sentence service *)
(* ===================================================================== *)

Lemma sublist_List_filter {A} (f : A -> bool) (l : list A) :
  List.filter f l `sublist_of` l.
Proof.
  induction l as [|x l IH]; cbn; [constructor|].
  destruct (f x); now constructor.
Qed.

Lemma Forall_List_filter {A} (f : A -> bool) (l : list A) :
  Forall (fun x => f x = true) (List.filter f l).
Proof.
  induction l as [|x l IH]; cbn; [constructor|].
  destruct (f x) eqn:Hx; [constructor|]; assumption.
Qed.

Lemma Forall_sublist {A} (P : A -> Prop) (l1 l2 : list A) :
  Forall P l2 -> l1 `sublist_of` l2 -> Forall P l1.
Proof.
  rewrite !Forall_forall. intros H Hsub x Hx. apply H.
  eapply elem_of_sublist; eassumption.
Qed.

Lemma sliceTo_sublist {A} (l : list A) (n : Z) : ExerciseQuiz.sliceTo l n `sublist_of` l.
Proof. unfold ExerciseQuiz.sliceTo. destruct (0 <=? n)%Z; apply sublist_take. Qed.

(** X12.  The sentence service's getSentenceExamples returns examples of the
    word in stored order (a subsequence of those the store gives for the
    word and context, by their sentences); with a difficulty, only examples
    of that difficulty; with a positive limit, at most that many; and with
    includeTranslations false, none that carries a translation. *)
Theorem getSentenceExamples_options (st : Store) (word : string)
    (options : SentenceSearch.SentenceSearchOptions) :
  let result := SentenceSearch.getSentenceExamples st word options in
  sentence <$> result
    `sublist_of`
    sentence <$> getSentenceExamples st word (SentenceSearch.o_context options) /\
  (forall level, SentenceSearch.o_difficulty options = Some level ->
     Forall (fun s => sent_difficulty s = difficultyName level) result) /\
  (forall n, SentenceSearch.o_limit options = Some n -> (0 < n)%Z ->
     (Z.of_nat (length result) <= n)%Z) /\
  (SentenceSearch.o_includeTranslations options = Some false ->
     Forall (fun s => translation s = None) result).
Proof.
  destruct options as [context difficulty limit translations].
  unfold SentenceSearch.getSentenceExamples. cbn [SentenceSearch.o_context
    SentenceSearch.o_difficulty SentenceSearch.o_limit
    SentenceSearch.o_includeTranslations].
  set (found := getSentenceExamples st word context).
  set (levelled := match difficulty with
                   | Some level =>
                       List.filter (fun s => String.eqb (sent_difficulty s)
                                                        (difficultyName level)) found
                   | None => found
                   end).
  set (limited := match limit with
                  | Some n => if (n =? 0)%Z then levelled
                              else ExerciseQuiz.sliceTo levelled n
                  | None => levelled
                  end).
  assert (Hlev : levelled `sublist_of` found).
  { subst levelled. destruct difficulty; [apply sublist_List_filter | reflexivity]. }
  assert (Hlim : limited `sublist_of` levelled).
  { subst limited. destruct limit as [n|]; [|reflexivity].
    destruct (n =? 0)%Z; [reflexivity | apply sliceTo_sublist]. }
  assert (Hdiff : forall level, difficulty = Some level ->
            Forall (fun s => sent_difficulty s = difficultyName level) limited).
  { intros level ->. eapply Forall_sublist; [|exact Hlim].
    subst levelled. eapply Forall_impl; [apply Forall_List_filter|].
    intros s Hs. now apply String.eqb_eq. }
  assert (Hlen : forall n, limit = Some n -> (0 < n)%Z ->
            (Z.of_nat (length limited) <= n)%Z).
  { intros n -> Hn. subst limited.
    destruct (n =? 0)%Z eqn:H0; [lia|].
    unfold ExerciseQuiz.sliceTo. destruct (0 <=? n)%Z eqn:Hpos; [|lia].
    rewrite length_take. lia. }
  cbv zeta.
  assert (Hsub : sentence <$> limited `sublist_of` sentence <$> found).
  { apply fmap_sublist. etrans; eassumption. }
  destruct translations as [[|]|]; cbn.
  - split; [exact Hsub|]. split; [exact Hdiff|]. split; [exact Hlen | discriminate].
  - split; [|split; [|split]].
    + rewrite <- list_fmap_compose. exact Hsub.
    + intros level Hl. apply Forall_fmap.
      eapply Forall_impl; [apply (Hdiff level Hl)|]. auto.
    + intros n Hl Hn. rewrite length_fmap. now apply Hlen.
    + intros _. apply Forall_fmap. apply Forall_true. auto.
  - split; [exact Hsub|]. split; [exact Hdiff|]. split; [exact Hlen | discriminate].
Qed.

Lemma findIndexOfText_first text self :
  forall k,
    SentenceSearch.findIndexOfText text self = Some k ->
    forall j x, (j < k)%nat -> self !! j = Some x -> sentence x <> text.
Proof.
  induction self as [|s rest IH]; intros k Hk j x Hj Hx; cbn in Hk; [discriminate|].
  destruct (String.eqb (sentence s) text) eqn:Hs.
  - simplify_eq. lia.
  - destruct (SentenceSearch.findIndexOfText text rest) as [k'|] eqn:Hr;
      [|discriminate].
    cbn in Hk. simplify_eq. destruct j as [|j]; cbn in Hx.
    + simplify_eq. now apply String.eqb_neq.
    + apply (IH k' eq_refl j x); [lia | exact Hx].
Qed.

Lemma keepFirstFrom_spec self :
  forall rest pre,
    self = pre ++ rest ->
    let kept := SentenceSearch.keepFirstFrom self (length pre) rest in
    kept `sublist_of` rest /\
    NoDup (sentence <$> kept) /\
    (forall s x, s ∈ kept -> x ∈ pre -> sentence x <> sentence s).
Proof.
  induction rest as [|s rest IH]; intros pre Hself; cbn zeta;
    cbn [SentenceSearch.keepFirstFrom].
  - split; [constructor|]. split; [constructor|]. intros s x H. inversion H.
  - destruct (IH (pre ++ [s])) as (Hsub & Hnd & Hpre).
    { now rewrite <- app_assoc. }
    rewrite length_app, Nat.add_1_r in Hsub, Hnd, Hpre.
    assert (Hpre' : forall t x, t ∈ SentenceSearch.keepFirstFrom self (S (length pre)) rest ->
                                x ∈ pre -> sentence x <> sentence t).
    { intros t x Ht Hx. apply Hpre; [exact Ht|]. apply elem_of_app. now left. }
    destruct (SentenceSearch.findIndexOfText (sentence s) self) as [k|] eqn:Hk;
      [destruct (length pre =? k)%nat eqn:Hi|].
    + apply Nat.eqb_eq in Hi. subst k.
      split; [now constructor|]. split.
      * cbn. constructor; [|exact Hnd].
        intros Hin. apply list_elem_of_fmap in Hin as (t & Ht & Hin).
        apply (Hpre t s Hin); [|now symmetry].
        apply elem_of_app. right. apply list_elem_of_here.
      * intros t x Ht Hx. apply elem_of_cons in Ht as [->|Ht]; [|now apply Hpre'].
        apply list_elem_of_lookup in Hx as [j Hj].
        apply (findIndexOfText_first _ _ _ Hk j x).
        -- now apply lookup_lt_Some in Hj.
        -- rewrite Hself. now apply lookup_app_l_Some.
    + split; [now constructor|]. split; [exact Hnd | exact Hpre'].
    + split; [now constructor|]. split; [exact Hnd | exact Hpre'].
Qed.

(** X13.  findSentencesWithMultipleWords returns no sentence text twice, and
    every sentence it returns is a stored example, for the given context, of
    one of the given words, and contains at least minWords of the words
    (whatever their case, and also inside longer words). *)
Theorem findSentencesWithMultipleWords_unique (st : Store) (words : list string)
    (context : option string) (minWords : Z) :
  let result :=
    SentenceSearch.findSentencesWithMultipleWords st words context minWords in
  NoDup (sentence <$> result) /\
  Forall (fun s =>
            (exists w, w ∈ words /\ s ∈ getSentenceExamples st w context) /\
            (minWords <= Z.of_nat (length (SentenceSearch.wordsInSentence words s)))%Z)
         result.
Proof.
  unfold SentenceSearch.findSentencesWithMultipleWords. cbv zeta.
  set (valid := List.filter _ _).
  destruct (keepFirstFrom_spec valid valid [] eq_refl) as (Hsub & Hnd & _).
  cbn [length] in Hsub, Hnd. split; [exact Hnd|].
  eapply Forall_sublist; [|exact Hsub]. subst valid.
  apply Forall_forall. intros s Hs.
  apply list_elem_of_In, filter_In in Hs as [Hin Hmin]. split.
  - apply in_concat in Hin as (l & Hl & Hs).
    apply list_elem_of_In, list_elem_of_fmap in Hl as (w & -> & Hw).
    exists w. split; [exact Hw | now apply list_elem_of_In].
  - now apply Z.leb_le.
Qed.

(** X14.  validateSentenceUsage accepts a sentence exactly when it contains
    the word (in any case, and also inside a longer word), is longer than 10
    characters and contains a space; it gives suggestions exactly when it
    does not accept.  The expected meaning plays no part in the verdict or
    in the feedback: it only appears in a suggestion. *)
Theorem validateSentenceUsage_checks (text word expectedMeaning other : string) :
  let check := SentenceSearch.validateSentenceUsage text word expectedMeaning in
  let check' := SentenceSearch.validateSentenceUsage text word other in
  (SentenceSearch.u_isValid check = true <->
     includes (toLowerCase text) (toLowerCase word) = true /\
     (10 < String.length text)%nat /\
     includes text " " = true) /\
  (SentenceSearch.u_suggestions check = [] <-> SentenceSearch.u_isValid check = true) /\
  SentenceSearch.u_isValid check' = SentenceSearch.u_isValid check /\
  SentenceSearch.u_feedback check' = SentenceSearch.u_feedback check.
Proof.
  unfold SentenceSearch.validateSentenceUsage. cbv zeta.
  destruct (includes (toLowerCase text) (toLowerCase word)); cbn [negb].
  - cbn [SentenceSearch.u_isValid SentenceSearch.u_suggestions
         SentenceSearch.u_feedback].
    split; [|split; [|split; reflexivity]].
    + rewrite andb_true_iff, Nat.ltb_lt. tauto.
    + destruct (_ && _); split; intros H; first [reflexivity | discriminate].
  - cbn. split; [|split; [|split; reflexivity]]; split; intros H;
      try discriminate.
    destruct H as [H _]. discriminate.
Qed.

(* ===================================================================== *)
(** * The passage composer: highlights *)
(* ===================================================================== *)

Section HighlightOrder.
Variable re : RegExp.

Abbreviation highlightPair := (fun h : Highlight => (h_word h, h_definition h)).
Abbreviation requestPair := (fun w : PassageWord => (pw_value w, pw_meaning w)).

Lemma addWord_order sentenceMap d w d' :
  addWord re sentenceMap d w = Some d' ->
  exists new,
    highlightedWords d' = highlightedWords d ++ new /\
    highlightPair <$> new `sublist_of` [requestPair w].
Proof.
  unfold addWord. intros H.
  destruct (default [] (sentenceMap !! pw_value w)) as [|s ss].
  - simplify_eq. exists []. rewrite app_nil_r. split; [reflexivity|].
    apply sublist_nil_l.
  - destruct (matchWholeWord re (pw_value w) (sentence s)) as [[m|]|];
      simplify_eq; cbn.
    + eexists [_]. split; [reflexivity|]. cbn. reflexivity.
    + exists []. rewrite app_nil_r. split; [reflexivity|]. apply sublist_nil_l.
Qed.

Lemma addWords_order sentenceMap :
  forall words d d',
    addWords re sentenceMap d words = Some d' ->
    exists new,
      highlightedWords d' = highlightedWords d ++ new /\
      highlightPair <$> new `sublist_of` requestPair <$> words.
Proof.
  induction words as [|w rest IH]; intros d d' H; cbn [addWords] in H.
  - simplify_eq. exists []. rewrite app_nil_r. split; [reflexivity | constructor].
  - destruct (addWord re sentenceMap d w) as [d1|] eqn:Hw; [|discriminate].
    apply addWord_order in Hw as (new1 & Hd1 & Hs1).
    apply IH in H as (new2 & Hd2 & Hs2).
    exists (new1 ++ new2). rewrite Hd2, Hd1, <- app_assoc. split; [reflexivity|].
    rewrite fmap_app. change (requestPair <$> w :: rest)
      with ([requestPair w] ++ (requestPair <$> rest)).
    now apply sublist_app.
Qed.

End HighlightOrder.

(** X15.  In every passage returned, the highlighted words are requested
    words, each with the meaning given in the request, in the order of the
    request and at most once per requested entry; so words_included never
    exceeds total_words_in_list.  The word count and the reading time are
    at least 1. *)
Theorem generateLightReading_highlights (re : RegExp) (st : Store)
    (words : list PassageWord) (ctx : string) (lvl : Difficulty)
    (r : WordService.ReadingResult) :
  WordService.generateLightReading re st words ctx lvl = Some r ->
  (fun h => (h_word h, h_definition h)) <$> WordService.r_highlighted_words r
    `sublist_of` (fun w => (pw_value w, pw_meaning w)) <$> words /\
  WordService.words_included r = length (WordService.r_highlighted_words r) /\
  (WordService.words_included r <= WordService.total_words_in_list r)%nat /\
  (1 <= WordService.r_word_count r)%Z /\
  (1 <= WordService.r_reading_time_minutes r)%Z.
Proof.
  unfold WordService.generateLightReading, generateReadingPassage. intros H.
  destruct (addWords re _ _ words) as [d|] eqn:Hd; [|discriminate].
  simplify_eq. cbn.
  apply addWords_order in Hd as (new & Hnew & Hsub). cbn in Hnew. subst new.
  split; [exact Hsub|]. split; [reflexivity|]. split.
  - apply sublist_length in Hsub. now rewrite !length_fmap in Hsub.
  - set (n := Z.of_nat (splitWhitespaceLength _)).
    assert (Hn : (1 <= n)%Z) by (subst n; unfold splitWhitespaceLength; lia).
    split; [exact Hn|]. pose proof (ceilDiv_bounds n). lia.
Qed.

Lemma generateLightReading_highlights_witness :
  exists r,
    WordService.generateLightReading literalRegExp Scenarios.passageStore
      Scenarios.passageWords "daily" intermediate = Some r /\
    (WordService.words_included r <= WordService.total_words_in_list r)%nat /\
    (1 <= WordService.r_reading_time_minutes r)%Z.
Proof.
  eexists. split; [vm_compute; reflexivity|].
  split;
    apply (generateLightReading_highlights literalRegExp Scenarios.passageStore
             Scenarios.passageWords "daily" intermediate _ eq_refl).
Defined.

(** Walks a match on string literals, one bit at a time; every leaf is one
    of the listed results. *)
Ltac walk_string s :=
  first
    [ assumption
    | let a := fresh "a" in
      let s' := fresh "s" in
      destruct s as [|a s'];
      [ assumption
      | first
          [ assumption
          | destruct a as [b0 b1 b2 b3 b4 b5 b6 b7];
            destruct b0; first [ assumption |
            destruct b1; first [ assumption |
            destruct b2; first [ assumption |
            destruct b3; first [ assumption |
            destruct b4; first [ assumption |
            destruct b5; first [ assumption |
            destruct b6; first [ assumption |
            destruct b7; first [ assumption | walk_string s' ]]]]]]]] ] ] ].

Lemma generateIntroSentence_cases (P : string -> Prop) ctx :
  P "In the business world, understanding key terminology is essential." ->
  P "In our everyday lives, we encounter many important concepts." ->
  P "Modern technology relies on specific terminology that's important to understand." ->
  P "Sports and athletic activities involve specialized vocabulary." ->
  P "Understanding geographical terms helps us describe the world around us." ->
  P "Academic study requires familiarity with specialized vocabulary." ->
  P "Learning new vocabulary helps us communicate more effectively." ->
  P (generateIntroSentence ctx).
Proof.
  intros H1 H2 H3 H4 H5 H6 H7. unfold generateIntroSentence. walk_string ctx.
Qed.

Lemma generateConclusionSentence_cases (P : string -> Prop) ctx :
  P "These terms form the foundation of business communication." ->
  P "These words help us express ourselves in daily conversations." ->
  P "Understanding these terms is key to navigating the digital world." ->
  P "This vocabulary is essential for discussing athletic activities." ->
  P "These terms help us describe and understand our physical world." ->
  P "This vocabulary is fundamental for academic success." ->
  P "Mastering these words will improve your communication skills." ->
  P (generateConclusionSentence ctx).
Proof.
  intros H1 H2 H3 H4 H5 H6 H7. unfold generateConclusionSentence. walk_string ctx.
Qed.

Lemma length_append (a b : string) :
  String.length (a +:+ b) = (String.length a + String.length b)%nat.
Proof.
  induction a as [|c r IH]; [reflexivity|].
  rewrite append_cons. cbn. now rewrite IH.
Qed.

Lemma substring_append_skip (p x : string) (i n : nat) :
  String.substring (String.length p + i) n (p +:+ x) = String.substring i n x.
Proof.
  induction p as [|c r IH]; [reflexivity|].
  rewrite append_cons. cbn. exact IH.
Qed.

Lemma substring_append_keep (s t : string) :
  forall i n, (i + n <= String.length s)%nat ->
              String.substring i n (s +:+ t) = String.substring i n s.
Proof.
  induction s as [|c r IH]; intros i n H.
  - cbn in H. assert (i = 0%nat) as -> by lia. assert (n = 0%nat) as -> by lia.
    rewrite append_nil. destruct t; reflexivity.
  - rewrite append_cons. cbn in H. destruct i as [|i]; cbn.
    + destruct n as [|n]; [reflexivity|]. rewrite IH by lia. reflexivity.
    + apply IH. lia.
Qed.

Lemma prefix_length m s :
  String.prefix m s = true -> (String.length m <= String.length s)%nat.
Proof.
  revert s. induction m as [|c r IH]; intros s H; [cbn; lia|].
  destruct s as [|c' r']; cbn in H; [discriminate|].
  destruct (ascii_dec c c'); [|discriminate]. cbn. apply IH in H. lia.
Qed.

Lemma indexOf_unfold s m :
  indexOf s m
  = if String.prefix m s then Some 0%nat
    else match s with
         | EmptyString => None
         | String _ r => S <$> indexOf r m
         end.
Proof. destruct s; reflexivity. Qed.

Lemma includes_unfold s m :
  includes s m
  = String.prefix m s ||
    match s with
    | EmptyString => false
    | String _ r => includes r m
    end.
Proof. destruct s; reflexivity. Qed.

Lemma indexOf_found s m :
  forall i, indexOf s m = Some i ->
            String.substring i (String.length m) s = m /\
            (i + String.length m <= String.length s)%nat.
Proof.
  induction s as [|c r IH]; intros i H; rewrite indexOf_unfold in H;
    destruct (String.prefix m _) eqn:Hp; simplify_eq;
    try (split; [now apply String.prefix_correct | now apply prefix_length in Hp]).
  destruct (indexOf r m) as [j|] eqn:Hj; [|discriminate]. cbn in H. simplify_eq.
  destruct (IH j eq_refl) as [Hs Hl]. cbn. split; [exact Hs | lia].
Qed.

Lemma includes_indexOf s m : includes s m = true -> is_Some (indexOf s m).
Proof.
  induction s as [|c r IH]; rewrite includes_unfold, indexOf_unfold; intros H;
    destruct (String.prefix m _); eauto; cbn in H; [discriminate|].
  destruct (IH H) as [j ->]. cbn. eauto.
Qed.

Lemma trimStart_length s : (String.length (trimStart s) <= String.length s)%nat.
Proof. induction s as [|c r IH]; cbn; [lia|]. destruct (isSpace c); cbn; lia. Qed.

Lemma trimStart_append i x :
  trimStart i = i -> i <> EmptyString -> trimStart (i +:+ x) = i +:+ x.
Proof.
  destruct i as [|c r]; [congruence|]. intros H _. rewrite append_cons.
  cbn in H |- *. destruct (isSpace c); [|reflexivity].
  pose proof (trimStart_length r) as Hl. rewrite H in Hl. cbn in Hl. lia.
Qed.

Lemma append_empty (a b : string) : a +:+ b = EmptyString -> b = EmptyString.
Proof. destruct a; [now rewrite append_nil | rewrite append_cons; discriminate]. Qed.

Lemma trimEnd_append y c :
  trimEnd c = c -> c <> EmptyString -> trimEnd (y +:+ c) = y +:+ c.
Proof.
  intros Hc Hne. induction y as [|a r IH]; [now rewrite append_nil|].
  rewrite append_cons. cbn. rewrite IH.
  destruct (r +:+ c) eqn:Hr; [|now rewrite andb_false_r].
  apply append_empty in Hr. contradiction.
Qed.

Section HighlightPositions.
Variable re : RegExp.
(** The engine's answer: element 0 of a match occurs in the subject. *)
Hypothesis matchOccurs :
  forall w s m, matchWholeWord re w s = Some (Some m) -> includes s m = true.

(** The highlight points at the text matched for its word. *)
Abbreviation pointsAtMatch passage :=
  (fun h : Highlight =>
     exists m s,
       matchWholeWord re (h_word h) s = Some (Some m) /\
       String.substring (position h) (String.length m) passage = m /\
       Nat.le (position h + String.length m) (String.length passage)).

Lemma pointsAtMatch_extend passage x hs :
  Forall (pointsAtMatch passage) hs -> Forall (pointsAtMatch (passage +:+ x)) hs.
Proof.
  intros H. eapply Forall_impl; [exact H|]. intros h (m & s & Hm & Hs & Hl).
  exists m, s. split; [exact Hm|]. split.
  - now rewrite substring_append_keep.
  - unfold Nat.le in *. rewrite length_append. lia.
Qed.

Lemma addWord_positions sentenceMap d w d' :
  currentPosition d = String.length (passageContent d) ->
  Forall (pointsAtMatch (passageContent d)) (highlightedWords d) ->
  addWord re sentenceMap d w = Some d' ->
  currentPosition d' = String.length (passageContent d') /\
  Forall (pointsAtMatch (passageContent d')) (highlightedWords d') /\
  exists x, passageContent d' = passageContent d +:+ x.
Proof.
  intros Hcur Hall H. unfold addWord in H.
  destruct (default [] (sentenceMap !! pw_value w)) as [|s ss].
  - simplify_eq. split; [exact Hcur|]. split; [exact Hall|].
    exists EmptyString. clear. induction (passageContent d') as [|c r IH];
      [reflexivity | now rewrite append_cons, <- IH].
  - destruct (matchWholeWord re (pw_value w) (sentence s)) as [[m|]|] eqn:Hm;
      simplify_eq; cbn [currentPosition passageContent highlightedWords].
    + split; [reflexivity|]. split; [|eauto].
      apply Forall_app. split; [now apply pointsAtMatch_extend|].
      constructor; [|constructor]. cbn [h_word position].
      destruct (includes_indexOf _ _ (matchOccurs _ _ _ Hm)) as [i Hi].
      rewrite Hi. change (default 0%nat (Some i)) with i.
      destruct (indexOf_found _ _ _ Hi) as [Hsub Hlen].
      exists m, (sentence s). split; [exact Hm|]. rewrite Hcur. split.
      * rewrite substring_append_skip. now rewrite substring_append_keep.
      * unfold Nat.le. rewrite !length_append. lia.
    + split; [reflexivity|]. split; [|eauto]. now apply pointsAtMatch_extend.
Qed.

Lemma addWords_positions sentenceMap :
  forall words d d',
    currentPosition d = String.length (passageContent d) ->
    Forall (pointsAtMatch (passageContent d)) (highlightedWords d) ->
    addWords re sentenceMap d words = Some d' ->
    Forall (pointsAtMatch (passageContent d')) (highlightedWords d') /\
    exists x, passageContent d' = passageContent d +:+ x.
Proof.
  induction words as [|w rest IH]; intros d d' Hcur Hall H; cbn [addWords] in H.
  - simplify_eq. split; [exact Hall|]. exists EmptyString. clear.
    induction (passageContent d') as [|c r IH];
      [reflexivity | now rewrite append_cons, <- IH].
  - destruct (addWord re sentenceMap d w) as [d1|] eqn:Hw; [|discriminate].
    apply addWord_positions in Hw as (Hcur1 & Hall1 & x1 & Hx1); [|assumption..].
    apply IH in H as (Hall' & x2 & Hx2); [|assumption..].
    split; [exact Hall'|]. exists (x1 +:+ x2).
    now rewrite Hx2, Hx1, append_assoc.
Qed.

End HighlightPositions.

(** X16.  For a context that is not the name of an inherited property (so
    that the intro and the conclusion read from the tables are sentences),
    and when the engine's matches occur in their subject, every passage
    returned starts with the intro sentence of the context and a space and
    ends with the conclusion sentence (trimming removes nothing), and each
    highlight's position is an offset into that content at which the text
    matched for the highlighted word stands. *)
Theorem generateLightReading_positions (re : RegExp) (st : Store)
    (words : list PassageWord) (ctx : string) (lvl : Difficulty)
    (r : WordService.ReadingResult) :
  ctx ∉ objectPrototypeNames ->
  (forall w s m, matchWholeWord re w s = Some (Some m) -> includes s m = true) ->
  WordService.generateLightReading re st words ctx lvl = Some r ->
  (exists body,
     WordService.r_content r
     = generateIntroSentence ctx +:+ " " +:+ body +:+ generateConclusionSentence ctx) /\
  Forall (fun h =>
            exists m s,
              matchWholeWord re (h_word h) s = Some (Some m) /\
              String.substring (position h) (String.length m)
                               (WordService.r_content r) = m)
         (WordService.r_highlighted_words r).
Proof.
  intros _ Hocc H.
  unfold WordService.generateLightReading, generateReadingPassage in H.
  destruct (addWords re _ _ words) as [d|] eqn:Hd; [|discriminate].
  simplify_eq. cbn.
  apply (addWords_positions re Hocc) in Hd as (Hall & body & Hbody).
  2: { cbn. rewrite length_append. reflexivity. }
  2: { constructor. }
  cbn in Hbody.
  assert (Htrim : trim (passageContent d +:+ generateConclusionSentence ctx)
                  = passageContent d +:+ generateConclusionSentence ctx).
  { unfold trim. rewrite Hbody, !append_assoc.
    rewrite trimStart_append.
    - rewrite <- !append_assoc. apply trimEnd_append.
      + apply (generateConclusionSentence_cases (fun c => trimEnd c = c));
          reflexivity.
      + apply (generateConclusionSentence_cases (fun c => c <> EmptyString));
          discriminate.
    - apply (generateIntroSentence_cases (fun i => trimStart i = i)); reflexivity.
    - apply (generateIntroSentence_cases (fun i => i <> EmptyString)); discriminate. }
  rewrite Htrim. split.
  - exists body. rewrite Hbody, !append_assoc. reflexivity.
  - eapply Forall_impl;
      [apply (pointsAtMatch_extend re _ (generateConclusionSentence ctx) _ Hall)|].
    intros h (m & s & Hm & Hs & _). eauto.
Qed.

Lemma prefix_substring s : forall n, String.prefix (String.substring 0 n s) s = true.
Proof.
  induction s as [|c r IH]; intros [|n]; cbn; try reflexivity.
  destruct (ascii_dec c c); [apply IH | congruence].
Qed.

Lemma includes_substring s : forall p n, includes s (String.substring p n s) = true.
Proof.
  induction s as [|c r IH]; intros p n; rewrite includes_unfold.
  - destruct p, n; reflexivity.
  - destruct p as [|p].
    + now rewrite prefix_substring.
    + cbn [String.substring]. rewrite IH. apply orb_true_r.
Qed.

(** The reference engine answers with a piece of the subject. *)
Lemma literalRegExp_match_occurs w s m :
  matchWholeWord literalRegExp w s = Some (Some m) -> includes s m = true.
Proof.
  cbn. destruct (plainWord w); [|discriminate].
  destruct (findWholeWord false w s) as [p|]; cbn; intros H; simplify_eq.
  apply includes_substring.
Qed.

Lemma generateLightReading_positions_witness :
  exists r,
    WordService.generateLightReading literalRegExp Scenarios.passageStore
      Scenarios.passageWords "daily" intermediate = Some r /\
    (exists body,
       WordService.r_content r
       = generateIntroSentence "daily" +:+ " " +:+ body
         +:+ generateConclusionSentence "daily") /\
    Forall (fun h =>
              exists m s,
                matchWholeWord literalRegExp (h_word h) s = Some (Some m) /\
                String.substring (position h) (String.length m)
                                 (WordService.r_content r) = m)
           (WordService.r_highlighted_words r).
Proof.
  eexists. split; [vm_compute; reflexivity|].
  apply (generateLightReading_positions literalRegExp Scenarios.passageStore
           Scenarios.passageWords "daily" intermediate _);
    [ apply (bool_decide_eq_false_1 _); reflexivity
    | apply literalRegExp_match_occurs
    | reflexivity ].
Defined.

(* ===================================================================== *)
(** * The data loader: statistics, health and waiting *)
(* ===================================================================== *)

Lemma countDistractors_fold st (words : list string) :
  forall total,
    foldl (fun totalDistractors word =>
             (totalDistractors + length (getDistractors st word None))%nat)
          total words
    = (total + 3 * length words)%nat.
Proof.
  induction words as [|w rest IH]; intros total; cbn [foldl length]; [lia|].
  rewrite IH, getDistractors_length. lia.
Qed.

(** X17.  When the data service has loaded, loadAllData resolves, also when
    validation finds errors: these are copied into the statistics.  The
    statistics count one definition per stored word and no exercise
    template, and the distractor count is three times the definition count,
    whatever the store holds as distractors.  When the data service throws,
    loadAllData fails with the same message and leaves the loader as it
    was. *)
Theorem loadAllData_statistics (st : Store) (l : DataLoader.LoaderState)
    (message : string) (w : World) :
  (exists s w',
     DataLoader.loadAllData (DataLoader.DataReady st) l w
     = Normal (DataLoader.mkLoader true (Some s), Loaded s) w' /\
     definitionsLoaded s = size (definitionsDB st) /\
     exerciseTemplatesLoaded s = 0%nat /\
     distractorsLoaded s = (3 * definitionsLoaded s)%nat /\
     load_errors s = errors (validateDataIntegrity st) /\
     (load_errors s = [] <-> isValid (validateDataIntegrity st) = true)) /\
  (exists w',
     DataLoader.loadAllData (DataLoader.DataError message) l w
     = Normal (l, Failed message) w').
Proof.
  split; [|eexists; reflexivity].
  unfold DataLoader.loadAllData, bind, now, ret. cbv beta iota zeta.
  eexists _, _. split; [reflexivity|].
  cbn [definitionsLoaded exerciseTemplatesLoaded distractorsLoaded load_errors].
  assert (Hvalid : isValid (validateDataIntegrity st) = true <->
                   errors (validateDataIntegrity st) = []).
  { unfold validateDataIntegrity. cbn [isValid errors].
    rewrite bool_decide_eq_true. apply length_zero_iff_nil. }
  split; [|split; [reflexivity|split; [|split]]].
  - unfold getAllWords. rewrite length_fmap. apply length_map_to_list.
  - unfold DataLoader.countDistractors. rewrite countDistractors_fold. lia.
  - destruct (isValid (validateDataIntegrity st)) eqn:E; cbn [negb];
      [|reflexivity].
    symmetry. now apply Hvalid.
  - destruct (isValid (validateDataIntegrity st)) eqn:E; cbn [negb].
    + tauto.
    + split; [|discriminate]. intros H. apply Hvalid in H. discriminate.
Qed.

Lemma loadAllData_fields service l w l' o w' :
  DataLoader.loadAllData service l w = Normal (l', o) w' ->
  l' = l \/ exists s, l' = DataLoader.mkLoader true (Some s).
Proof.
  unfold DataLoader.loadAllData, bind, now, ret.
  destruct service; intros H; simplify_eq; eauto.
Qed.

Lemma reachable_fields l :
  DataLoader.reachable l ->
  l = DataLoader.newLoader \/ exists s, l = DataLoader.mkLoader true (Some s).
Proof.
  induction 1 as [|l service w l' o w' _ IH H|l service w l' o w' _ _ H].
  - now left.
  - apply loadAllData_fields in H as [->|H]; [exact IH | now right].
  - apply loadAllData_fields in H as [->|H]; [now left | now right].
Qed.

(** X18.  Whatever sequence of loadAllData and reloadData calls a loader
    has gone through, and however they ended, getHealthStatus never answers
    warning: it answers healthy exactly when the loader holds statistics
    without errors, and error otherwise; and the loader holds statistics
    exactly when it says that data is loaded. *)
Theorem getHealthStatus_never_warning (l : DataLoader.LoaderState) :
  DataLoader.reachable l ->
  DataLoader.status (DataLoader.getHealthStatus l) <> DataLoader.warning /\
  (DataLoader.status (DataLoader.getHealthStatus l) = DataLoader.healthy <->
     exists s, DataLoader.getLoadStats l = Some s /\ load_errors s = []) /\
  (DataLoader.isDataLoaded l = true <-> is_Some (DataLoader.getLoadStats l)).
Proof.
  intros H. apply reachable_fields in H as [->|[s ->]].
  - cbn. split; [discriminate|]. split; split.
    + discriminate.
    + intros (s & Hs & _). discriminate.
    + discriminate.
    + intros [s Hs]. discriminate.
  - unfold DataLoader.getHealthStatus, DataLoader.getLoadStats,
      DataLoader.isDataLoaded.
    cbn [DataLoader.isLoaded DataLoader.loadStats negb].
    destruct (load_errors s) as [|e es] eqn:E; cbn.
    + split; [discriminate|]. split; split; eauto.
    + split; [discriminate|]. split; split; eauto; try discriminate.
      intros (s' & Hs & He). congruence.
Qed.

Lemma getHealthStatus_never_warning_witness :
  exists l o w',
    DataLoader.loadAllData (DataLoader.DataReady Scenarios.bankStore)
      DataLoader.newLoader Scenarios.demoWorld = Normal (l, o) w' /\
    DataLoader.status (DataLoader.getHealthStatus l) <> DataLoader.warning /\
    (DataLoader.status (DataLoader.getHealthStatus l) = DataLoader.healthy <->
       exists s, DataLoader.getLoadStats l = Some s /\ load_errors s = []) /\
    (DataLoader.isDataLoaded l = true <-> is_Some (DataLoader.getLoadStats l)).
Proof.
  eexists _, _, _. split.
  - unfold DataLoader.loadAllData, bind, now, ret. cbv beta iota zeta.
    reflexivity.
  - apply getHealthStatus_never_warning.
    exact (DataLoader.reachable_load DataLoader.newLoader
             (DataLoader.DataReady Scenarios.bankStore) Scenarios.demoWorld _ _ _
             DataLoader.reachable_new eq_refl).
Defined.

Lemma backoff_range (attempt : Z) :
  (1 <= attempt)%Z -> (1000 <= backoff attempt <= 5000)%Z.
Proof.
  intros H. unfold backoff.
  assert (1 <= 2 ^ (attempt - 1))%Z.
  { change 1%Z with (2 ^ 0)%Z at 1. apply Z.pow_le_mono_r; lia. }
  lia.
Qed.

(** Among the first [limit] calls either all fail or one is the first to
    succeed. *)
Lemma first_success (load : nat -> LoadOutcome) (limit : nat) :
  (forall k, (k < limit)%nat -> exists m, load k = Failed m) \/
  (exists n s, (n < limit)%nat /\
               (forall k, (k < n)%nat -> exists m, load k = Failed m) /\
               load n = Loaded s).
Proof.
  induction limit as [|limit [IH|IH]].
  - left. intros k Hk. lia.
  - destruct (load limit) as [s|m] eqn:E.
    + right. exists limit, s. split; [lia|]. split; [|exact E].
      intros k Hk. apply IH, Hk.
    + left. intros k Hk. destruct (decide (k = limit)) as [->|Hne]; [eauto|].
      apply IH. lia.
  - right. destruct IH as (n & s & Hn & Hfail & Hok).
    exists n, s. split; [lia|]. split; assumption.
Qed.

(** X19.  Whatever the loads do, initializeWithRetry waits once between two
    successive calls and not after the last one: the delays are those of
    attempts 1, 2, ... up to the number of calls made less one, and each
    lies between 1000 and 5000 ms.  With maxRetries at or below zero it
    makes no call and rejects with a message whose last error reads
    undefined. *)
Theorem initializeWithRetry_waits (load : nat -> LoadOutcome) (maxRetries : Z) :
  let run := initializeWithRetry load maxRetries in
  delays run = backoff <$> (Z.of_nat <$> seq 1 (calls run - 1)) /\
  Forall (fun d => 1000 <= d <= 5000)%Z (delays run) /\
  ((maxRetries <= 0)%Z ->
   calls run = 0%nat /\
   outcome run
   = Rejected ("Failed to load data after " +:+ numberToString maxRetries +:+
               " attempts. Last error: undefined")).
Proof.
  intros run.
  assert (Hd : delays run = backoff <$> (Z.of_nat <$> seq 1 (calls run - 1))).
  { subst run. unfold initializeWithRetry. change 1%Z with (Z.of_nat 1).
    assert (Hinv : (0 < Z.to_nat maxRetries)%nat ->
                   Z.of_nat (0 + Z.to_nat maxRetries) = maxRetries) by lia.
    destruct (first_success load (Z.to_nat maxRetries))
      as [Hfail|(n & s & Hn & Hfail & Hok)].
    - destruct (retryLoop_exhausted load maxRetries _ 0%nat None [] Hinv Hfail)
        as (last & -> & _).
      cbn [delays calls app]. reflexivity.
    - rewrite (retryLoop_resolved load maxRetries n _ 0%nat None [] s
                 Hinv Hn Hfail Hok).
      cbn [delays calls app]. now rewrite Nat.add_0_l, Nat.sub_1_r. }
  split; [exact Hd|]. split.
  - rewrite Hd. apply Forall_fmap, Forall_fmap, Forall_forall.
    intros k Hk. apply elem_of_seq in Hk. cbn. apply backoff_range. lia.
  - intros Hle. subst run. unfold initializeWithRetry.
    replace (Z.to_nat maxRetries) with 0%nat by lia. cbn. split; reflexivity.
Qed.

Lemma initializeWithRetry_waits_witness :
  let run := initializeWithRetry Scenarios.flakyLoad 0 in
  calls run = 0%nat /\
  outcome run
  = Rejected ("Failed to load data after " +:+ numberToString 0 +:+
              " attempts. Last error: undefined").
Proof.
  apply (initializeWithRetry_waits Scenarios.flakyLoad 0). lia.
Defined.

(* ===================================================================== *)
(** * The learning service *)
(* ===================================================================== *)

Lemma categorize_cases (c : LearnService.Recommendations) (w : WordItem) :
  let c' := LearnService.categorize c w in
  (LearnService.rec_beginner c' = LearnService.rec_beginner c ++ [value w] /\
   LearnService.rec_intermediate c' = LearnService.rec_intermediate c /\
   LearnService.rec_advanced c' = LearnService.rec_advanced c /\
   (String.length (value w) <= 4)%nat) \/
  (LearnService.rec_beginner c' = LearnService.rec_beginner c /\
   LearnService.rec_intermediate c' = LearnService.rec_intermediate c ++ [value w] /\
   LearnService.rec_advanced c' = LearnService.rec_advanced c /\
   (String.length (value w) <= 8)%nat) \/
  (LearnService.rec_beginner c' = LearnService.rec_beginner c /\
   LearnService.rec_intermediate c' = LearnService.rec_intermediate c /\
   LearnService.rec_advanced c' = LearnService.rec_advanced c ++ [value w]).
Proof.
  unfold LearnService.categorize. cbv zeta.
  destruct ((String.length (value w) <=? 4)%nat &&
            (length (splitSpace (meaning w)) <=? 10)%nat) eqn:E1;
    [|destruct ((String.length (value w) <=? 8)%nat &&
                (length (splitSpace (meaning w)) <=? 20)%nat) eqn:E2]; cbn.
  - left. apply andb_true_iff in E1 as [E1 _]. apply Nat.leb_le in E1. auto.
  - right; left. apply andb_true_iff in E2 as [E2 _]. apply Nat.leb_le in E2. auto.
  - right; right. auto.
Qed.

(** X20.  getExerciseDifficultyRecommendations puts every given word in
    exactly one of its three lists, keeping the order of the request in
    each; the beginner list holds words of at most 4 characters only, the
    intermediate list words of at most 8, and a word of more than 8
    characters is always listed as advanced, whatever its meaning. *)
Theorem getExerciseDifficultyRecommendations_partition (words : list WordItem) :
  let r := LearnService.getExerciseDifficultyRecommendations words in
  LearnService.rec_beginner r ++ LearnService.rec_intermediate r
    ++ LearnService.rec_advanced r ≡ₚ value <$> words /\
  LearnService.rec_beginner r `sublist_of` (value <$> words) /\
  LearnService.rec_intermediate r `sublist_of` (value <$> words) /\
  LearnService.rec_advanced r `sublist_of` (value <$> words) /\
  Forall (fun v => (String.length v <= 4)%nat) (LearnService.rec_beginner r) /\
  Forall (fun v => (String.length v <= 8)%nat) (LearnService.rec_intermediate r) /\
  (forall w, w ∈ words -> (8 < String.length (value w))%nat ->
             value w ∈ LearnService.rec_advanced r).
Proof.
  unfold LearnService.getExerciseDifficultyRecommendations.
  induction words as [|x l IH] using rev_ind.
  - cbn. repeat split; try constructor. intros w Hw. inversion Hw.
  - rewrite foldl_app. cbn [foldl]. rewrite fmap_app. cbn [fmap list_fmap].
    set (c := foldl LearnService.categorize _ l) in *. cbv zeta in IH.
    destruct IH as (Hp & Hb & Hi & Ha & Fb & Fi & Hlong).
    destruct (categorize_cases c x)
      as [(-> & -> & -> & Hx)|[(-> & -> & -> & Hx)|(-> & -> & ->)]].
    + split; [rewrite <- Hp; solve_Permutation|].
      split; [now apply sublist_app|].
      split; [now apply sublist_inserts_r|].
      split; [now apply sublist_inserts_r|].
      split; [apply Forall_app; split; [exact Fb | constructor; [exact Hx | constructor]]|].
      split; [exact Fi|].
      intros w Hw Hlen. apply elem_of_app in Hw as [Hw|Hw]; [now apply Hlong|].
      apply list_elem_of_singleton in Hw as ->. lia.
    + split; [rewrite <- Hp; solve_Permutation|].
      split; [now apply sublist_inserts_r|].
      split; [now apply sublist_app|].
      split; [now apply sublist_inserts_r|].
      split; [exact Fb|].
      split; [apply Forall_app; split; [exact Fi | constructor; [exact Hx | constructor]]|].
      intros w Hw Hlen. apply elem_of_app in Hw as [Hw|Hw]; [now apply Hlong|].
      apply list_elem_of_singleton in Hw as ->. lia.
    + split; [rewrite <- Hp; solve_Permutation|].
      split; [now apply sublist_inserts_r|].
      split; [now apply sublist_inserts_r|].
      split; [now apply sublist_app|].
      split; [exact Fb|]. split; [exact Fi|].
      intros w Hw Hlen. apply elem_of_app.
      apply elem_of_app in Hw as [Hw|Hw]; [left; now apply Hlong|].
      apply list_elem_of_singleton in Hw as ->. right. now left.
Qed.

Section Capability.
Variable st : Store.
Variable context : string.

Abbreviation undefinedWords words :=
  (List.filter (fun w : WordItem => negb (hasWord st (value w))) words).

Lemma checkWord_fold (words : list WordItem) :
  forall found,
    foldl (LearnService.checkWord st context) found words
    = (found.1 ++ ((fun w => "Definition for " +:+ quoted (value w))
                     <$> undefinedWords words),
       found.2 ++ ((fun w => "Add definition for " +:+ quoted (value w) +:+
                             " to the manual database")
                     <$> undefinedWords words)).
Proof.
  induction words as [|w rest IH]; intros [m s]; cbn [foldl List.filter].
  - cbn. now rewrite !app_nil_r.
  - rewrite IH. unfold LearnService.checkWord. cbv zeta.
    rewrite getDistractors_length. cbn [Nat.ltb Nat.leb fst snd].
    destruct (hasWord st (value w)); cbn [negb fst snd fmap list_fmap];
      [reflexivity|].
    now rewrite <- !app_assoc.
Qed.

End Capability.

(** X21.  checkExerciseGenerationCapability never reports missing
    distractors: its missing data are one entry per requested word without
    a definition, in the order of the request, with one suggestion each,
    and it says that exercises can be generated exactly when every
    requested word has a definition. *)
Theorem checkExerciseGenerationCapability_definitions (st : Store)
    (words : list WordItem) (context : string) :
  let c := LearnService.checkExerciseGenerationCapability st words context in
  LearnService.missingData c
  = ((fun w => "Definition for " +:+ quoted (value w))
       <$> List.filter (fun w => negb (hasWord st (value w))) words) /\
  length (LearnService.suggestions c) = length (LearnService.missingData c) /\
  (LearnService.canGenerate c = true <->
     Forall (fun w => hasWord st (value w) = true) words).
Proof.
  unfold LearnService.checkExerciseGenerationCapability. cbv zeta.
  rewrite checkWord_fold.
  cbn [LearnService.missingData LearnService.suggestions LearnService.canGenerate
       fst snd app].
  split; [reflexivity|]. split; [now rewrite !length_fmap|].
  rewrite bool_decide_eq_true, length_fmap.
  induction words as [|w rest IH]; cbn [List.filter].
  - split; [constructor | reflexivity].
  - destruct (hasWord st (value w)) eqn:E; cbn [negb].
    + rewrite IH. split; [now constructor | now inversion 1].
    + cbn [length]. split; [discriminate|]. inversion 1; congruence.
Qed.

(* ===================================================================== *)
(** * The quiz service *)
(* ===================================================================== *)

Lemma toLowerCase_length s : String.length (toLowerCase s) = String.length s.
Proof. induction s as [|c r IH]; cbn; [reflexivity | now rewrite IH]. Qed.

Lemma commonWord_short (word : string) :
  toLowerCase word
    ∈ ["the"; "and"; "or"; "but"; "in"; "on"; "at"; "to"; "for"; "with"] ->
  (String.length word <= 4)%nat.
Proof.
  intros H. rewrite <- toLowerCase_length.
  repeat (apply elem_of_cons in H as [->|H]; [cbn; lia|]).
  inversion H.
Qed.

(** X22.  assessDifficulty never answers hard.  It answers medium exactly
    for a word of more than 8 characters in one of the contexts academic,
    legal, medical and technology (in any case), and easy otherwise. *)
Theorem assessDifficulty_never_hard (word context : string) :
  QuizService.assessDifficulty word context <> QuizService.hard /\
  (QuizService.assessDifficulty word context = QuizService.medium <->
     (8 < String.length word)%nat /\
     toLowerCase context ∈ ["academic"; "legal"; "medical"; "technology"]).
Proof.
  unfold QuizService.assessDifficulty, QuizService.assessDifficultyScore.
  cbv zeta.
  destruct (Nat.ltb_spec 8 (String.length word)) as [E8|E8];
    destruct (Nat.ltb_spec 12 (String.length word)) as [E12|E12];
    do 2 case_bool_decide;
    try match goal with
        | H : toLowerCase word ∈ _ |- _ => apply commonWord_short in H
        end;
    try lia; cbn; (split; [discriminate|]);
    (split; [intros ? | intros [? ?]]);
    first [ discriminate | lia | contradiction | reflexivity
          | split; [lia | assumption] ].
Qed.

(* ===================================================================== *)
(** * The vocabulary service *)
(* ===================================================================== *)

Lemma assessWordDifficulty_names (word context : string) :
  VocabularyService.assessWordDifficulty word context
    ∈ ["basic"; "intermediate"; "advanced"] /\
  (toLowerCase context ∈ ["academic"; "legal"; "medical"; "technology"] ->
   VocabularyService.assessWordDifficulty word context = "advanced").
Proof.
  unfold VocabularyService.assessWordDifficulty. cbv zeta.
  case_bool_decide as Hctx; cbn [negb]; rewrite ?andb_false_r, ?andb_true_r.
  - split; [|reflexivity]. rewrite !elem_of_cons. auto.
  - split; [|contradiction].
    destruct (_ <=? 5)%nat; [rewrite !elem_of_cons; auto|].
    destruct (_ <=? 8)%nat; rewrite !elem_of_cons; auto.
Qed.

Lemma List_filter_none {A} (f : A -> bool) (l : list A) :
  (forall x, f x = false) -> List.filter f l = [].
Proof.
  intros H. induction l as [|x l IH]; cbn; [reflexivity|]. now rewrite H.
Qed.

Lemma NoDup_List_filter {A} (f : A -> bool) (l : list A) :
  NoDup l -> NoDup (List.filter f l).
Proof. intros H. eapply sublist_NoDup; [exact H | apply sublist_List_filter]. Qed.

Lemma getAllWords_NoDup st : NoDup (getAllWords st).
Proof. apply NoDup_fst_map_to_list. Qed.

Lemma filterThrowing_returns {A} (test : A -> option bool) (f : A -> bool)
    (array : list A) :
  (forall x, x ∈ array -> test x = Some (f x)) ->
  VocabularyService.filterThrowing test array = Some (List.filter f array).
Proof.
  induction array as [|x rest IH]; intros H; cbn; [reflexivity|].
  rewrite (H x) by apply list_elem_of_here.
  rewrite IH; [reflexivity|].
  intros y Hy. apply H. now apply list_elem_of_further.
Qed.

Lemma filterThrowing_throws {A} (test : A -> option bool) (array : list A) (x : A) :
  x ∈ array -> test x = None -> VocabularyService.filterThrowing test array = None.
Proof.
  induction array as [|y rest IH]; intros Hx Hnone; [inversion Hx|].
  cbn. apply elem_of_cons in Hx as [<-|Hx]; [now rewrite Hnone|].
  destruct (test y); [|reflexivity]. now rewrite IH.
Qed.

Section Selection.
Variable st : Store.
Variable difficulty context : string.
Variable excludeWords : list string.

(** No stored word's definition is read from an inherited property. *)
Hypothesis readsStrings :
  forall word, word ∈ getAllWords st ->
               returnsInherited st word (Some context) = false.

(** The three filters as one list. *)
Abbreviation qualifyingWords :=
  (List.filter
     (fun word => String.eqb (VocabularyService.assessWordDifficulty word context)
                             difficulty)
     (List.filter
        (fun word =>
           negb (existsb (fun excluded =>
                            String.eqb (toLowerCase excluded) (toLowerCase word))
                         excludeWords))
        (List.filter
           (fun word =>
              truthy (getDefinition st word (Some context)) &&
              negb (includes (getDefinition st word (Some context))
                             "Definition not found"))
           (getAllWords st)))).

Lemma filteredWords_returns :
  VocabularyService.filteredWords st difficulty context excludeWords
  = Some qualifyingWords.
Proof.
  unfold VocabularyService.filteredWords, VocabularyService.filterByDifficulty.
  cbv zeta.
  rewrite (filterThrowing_returns _
             (fun word =>
                truthy (getDefinition st word (Some context)) &&
                negb (includes (getDefinition st word (Some context))
                               "Definition not found"))); [reflexivity|].
  intros word Hw. unfold VocabularyService.definedIn.
  now rewrite (readsStrings word Hw).
Qed.

(** The filters keep exactly the stored words that qualify. *)
Lemma qualifyingWords_exact (word : string) :
  word ∈ qualifyingWords <->
  word ∈ getAllWords st /\
  getDefinition st word (Some context) <> EmptyString /\
  includes (getDefinition st word (Some context)) "Definition not found" = false /\
  (forall excluded, excluded ∈ excludeWords ->
                    toLowerCase excluded <> toLowerCase word) /\
  VocabularyService.assessWordDifficulty word context = difficulty.
Proof.
  rewrite list_elem_of_In, !filter_In, <- list_elem_of_In.
  rewrite andb_true_iff, !negb_true_iff, truthy_true, String.eqb_eq.
  assert (Hex : existsb (fun excluded =>
                           String.eqb (toLowerCase excluded) (toLowerCase word))
                        excludeWords = false <->
                forall excluded, excluded ∈ excludeWords ->
                                 toLowerCase excluded <> toLowerCase word).
  { split.
    - intros H excluded He Heq.
      assert (existsb (fun excluded =>
                         String.eqb (toLowerCase excluded) (toLowerCase word))
                      excludeWords = true) as Ht; [|congruence].
      apply existsb_exists. exists excluded.
      split; [now apply list_elem_of_In | now apply String.eqb_eq].
    - intros H. apply not_true_is_false. intros Ht.
      apply existsb_exists in Ht as (excluded & He & Heq).
      apply String.eqb_eq in Heq. apply (H excluded); [|exact Heq].
      now apply list_elem_of_In. }
  rewrite Hex. tauto.
Qed.

Lemma qualifyingWords_NoDup : NoDup qualifyingWords.
Proof. do 3 apply NoDup_List_filter. apply getAllWords_NoDup. Qed.

Lemma describeWord_word (l : list string) :
  VocabularyService.gw_word <$> (VocabularyService.describeWord st context <$> l)
  = l.
Proof. induction l as [|x l IH]; cbn; [reflexivity | now rewrite IH]. Qed.

End Selection.

(** X23.  When no stored word's definition for the context is read from an
    inherited property, and for draws in [0, 1), generateWords returns
    distinct words among those that qualify.  A word qualifies exactly when
    it is stored, its definition for the context is not empty and does not
    contain the not-found text, it equals no excluded word in any case, and
    the service's own rating of it is the requested difficulty.  Each word
    comes with that definition as its meaning, with the requested
    difficulty and context, and with at most three similar words.  With a
    count from 0 on the result has that many words, or all that qualify
    when there are fewer; with a negative count it has that many fewer
    than qualify. *)
Theorem generateWords_selection (st : Store) (count : Z)
    (difficulty context : string) (excludeWords : list string) (w : World) :
  unitDraws w ->
  (forall word, word ∈ getAllWords st ->
                returnsInherited st word (Some context) = false) ->
  exists result w' qualifying,
    VocabularyService.generateWords st count difficulty context excludeWords w
    = Normal result w' /\
    NoDup qualifying /\
    (forall word,
        word ∈ qualifying <->
        word ∈ getAllWords st /\
        getDefinition st word (Some context) <> EmptyString /\
        includes (getDefinition st word (Some context)) "Definition not found"
        = false /\
        (forall excluded, excluded ∈ excludeWords ->
                          toLowerCase excluded <> toLowerCase word) /\
        VocabularyService.assessWordDifficulty word context = difficulty) /\
    NoDup (VocabularyService.gw_word <$> result) /\
    (forall g, g ∈ result -> VocabularyService.gw_word g ∈ qualifying) /\
    Z.of_nat (length result)
    = (if (0 <=? count)%Z then Z.min count (Z.of_nat (length qualifying))
       else Z.max 0 (Z.of_nat (length qualifying) + count))%Z /\
    Forall (fun g =>
              VocabularyService.gw_meaning g
              = getDefinition st (VocabularyService.gw_word g) (Some context) /\
              VocabularyService.gw_difficulty_level g = difficulty /\
              VocabularyService.gw_context g = context /\
              (length (VocabularyService.gw_similar_words g) <= 3)%nat)
           result.
Proof.
  intros Hw Hstrings. unfold VocabularyService.generateWords.
  rewrite (filteredWords_returns st difficulty context excludeWords Hstrings).
  set (words := List.filter _ _).
  assert (Hexact := qualifyingWords_exact st difficulty context excludeWords).
  assert (Hnd := qualifyingWords_NoDup st difficulty context excludeWords).
  fold words in Hexact, Hnd.
  destruct (shuffleLoop_permutation (length words - 1) words w Hw)
    as (shuffled & w' & Hs & Hperm & _).
  { destruct words; cbn; [right; reflexivity | left; lia]. }
  fold (shuffleArray words) in Hs.
  rewrite (bind_Normal _ _ _ _ _ Hs). unfold ret. cbv zeta.
  set (selected := ExerciseQuiz.sliceTo shuffled _).
  assert (Hsub : selected `sublist_of` shuffled) by apply sliceTo_sublist.
  assert (Hin : forall word, word ∈ selected -> word ∈ words).
  { intros word Hword. rewrite <- Hperm.
    eapply elem_of_sublist; eassumption. }
  exists (VocabularyService.describeWord st context <$> selected), w', words.
  split; [reflexivity|]. split; [exact Hnd|]. split; [exact Hexact|].
  split; [|split; [|split]].
  - rewrite describeWord_word. eapply sublist_NoDup; [|exact Hsub].
    rewrite Hperm. exact Hnd.
  - intros g Hg. apply list_elem_of_fmap in Hg as (word & -> & Hword).
    cbn. now apply Hin.
  - rewrite length_fmap. subst selected. rewrite sliceTo_length.
    rewrite (Permutation_length Hperm).
    destruct (0 <=? count)%Z eqn:Ec.
    + apply Z.leb_le in Ec.
      replace (0 <=? Z.min count (Z.of_nat (length words)))%Z with true
        by (symmetry; apply Z.leb_le; lia).
      lia.
    + apply Z.leb_gt in Ec.
      replace (0 <=? Z.min count (Z.of_nat (length words)))%Z with false
        by (symmetry; apply Z.leb_gt; lia).
      lia.
  - apply Forall_fmap, Forall_forall. intros word Hword. cbn.
    split; [reflexivity|]. split; [apply Hexact, Hin, Hword|].
    split; [reflexivity|]. rewrite length_take. lia.
Qed.

Lemma generateWords_selection_witness :
  exists result w' qualifying,
    VocabularyService.generateWords Scenarios.bankStore 1 "basic" "geography" []
      Scenarios.demoWorld = Normal result w' /\
    NoDup qualifying /\
    (forall word,
        word ∈ qualifying <->
        word ∈ getAllWords Scenarios.bankStore /\
        getDefinition Scenarios.bankStore word (Some "geography") <> EmptyString /\
        includes (getDefinition Scenarios.bankStore word (Some "geography"))
                 "Definition not found" = false /\
        (forall excluded, excluded ∈ [] ->
                          toLowerCase excluded <> toLowerCase word) /\
        VocabularyService.assessWordDifficulty word "geography" = "basic") /\
    NoDup (VocabularyService.gw_word <$> result) /\
    (forall g, g ∈ result -> VocabularyService.gw_word g ∈ qualifying) /\
    Z.of_nat (length result)
    = (if (0 <=? 1)%Z then Z.min 1 (Z.of_nat (length qualifying))
       else Z.max 0 (Z.of_nat (length qualifying) + 1))%Z /\
    Forall (fun g =>
              VocabularyService.gw_meaning g
              = getDefinition Scenarios.bankStore (VocabularyService.gw_word g)
                              (Some "geography") /\
              VocabularyService.gw_difficulty_level g = "basic" /\
              VocabularyService.gw_context g = "geography" /\
              (length (VocabularyService.gw_similar_words g) <= 3)%nat)
           result.
Proof.
  apply (generateWords_selection Scenarios.bankStore 1 "basic" "geography" []
           Scenarios.demoWorld).
  - intros n. unfold Scenarios.demoWorld, Qle, Qlt. cbn.
    pose proof (Nat.mod_upper_bound n 4). lia.
  - intros word Hword.
    assert (Hwords : getAllWords Scenarios.bankStore = ["bank"])
      by (vm_compute; reflexivity).
    rewrite Hwords in Hword. apply list_elem_of_singleton in Hword as ->.
    vm_compute. reflexivity.
Defined.

(** X24.  The vocabulary service rates a word as basic, intermediate or
    advanced, and every word as advanced in the contexts academic, legal,
    medical and technology (in any case).  So, when no stored word's
    definition for the context is read from an inherited property,
    generateWords returns no word at all when the requested difficulty is
    another name (beginner, say, the name the stored definitions use), or
    when it is not advanced in one of those four contexts; it makes no draw
    then. *)
Theorem generateWords_difficulty_names (st : Store) (count : Z)
    (difficulty context : string) (excludeWords : list string) (w : World) :
  (forall word, word ∈ getAllWords st ->
                returnsInherited st word (Some context) = false) ->
  difficulty ∉ ["basic"; "intermediate"; "advanced"] \/
  (toLowerCase context ∈ ["academic"; "legal"; "medical"; "technology"] /\
   difficulty <> "advanced") ->
  VocabularyService.generateWords st count difficulty context excludeWords w
  = Normal [] w.
Proof.
  intros Hstrings H. unfold VocabularyService.generateWords.
  rewrite (filteredWords_returns st difficulty context excludeWords Hstrings).
  rewrite List_filter_none.
  - unfold ExerciseQuiz.sliceTo, shuffleArray. cbn.
    unfold ret. rewrite !take_nil. destruct (0 <=? _)%Z; reflexivity.
  - intros word. apply String.eqb_neq. intros Heq.
    destruct (assessWordDifficulty_names word context) as [Hin Hcomplex].
    destruct H as [H|[Hc Hd]].
    + apply H. now rewrite <- Heq.
    + apply Hd. rewrite <- Heq. now apply Hcomplex.
Qed.

Lemma generateWords_difficulty_names_witness :
  VocabularyService.generateWords Scenarios.bankStore 5 "beginner" "geography" []
    Scenarios.demoWorld
  = Normal [] Scenarios.demoWorld.
Proof.
  apply (generateWords_difficulty_names Scenarios.bankStore 5 "beginner"
           "geography" [] Scenarios.demoWorld).
  - intros word Hword.
    assert (Hwords : getAllWords Scenarios.bankStore = ["bank"])
      by (vm_compute; reflexivity).
    rewrite Hwords in Hword. apply list_elem_of_singleton in Hword as ->.
    vm_compute. reflexivity.
  - left. rewrite !elem_of_cons, elem_of_nil.
    intros [H|[H|[H|H]]]; [discriminate..|exact H].
Defined.

(** X30.  When the definition of some stored word is read, for the context
    asked for, from an inherited property (the context lower-cases to
    constructor or __proto__ and the word's contextual definitions have no
    such key), generateWords throws a TypeError in its first filter, before
    any draw, whatever the other arguments are. *)
Theorem generateWords_inherited_context_throws (st : Store) (count : Z)
    (difficulty context : string) (excludeWords : list string) (w : World)
    (word : string) :
  word ∈ getAllWords st ->
  returnsInherited st word (Some context) = true ->
  VocabularyService.generateWords st count difficulty context excludeWords w
  = Throw "TypeError".
Proof.
  intros Hword Hread. unfold VocabularyService.generateWords,
    VocabularyService.filteredWords. cbv zeta.
  rewrite (filterThrowing_throws _ _ word Hword); [reflexivity|].
  unfold VocabularyService.definedIn. now rewrite Hread.
Qed.

Lemma generateWords_inherited_context_throws_witness :
  VocabularyService.generateWords Scenarios.bankStore 5 "basic" "constructor" []
    Scenarios.demoWorld
  = Throw "TypeError".
Proof.
  apply (generateWords_inherited_context_throws Scenarios.bankStore 5 "basic"
           "constructor" [] Scenarios.demoWorld "bank").
  - vm_compute. apply list_elem_of_here.
  - vm_compute. reflexivity.
Defined.

(* ===================================================================== *)
(** * The word service: examples and new definitions *)
(* ===================================================================== *)

(** X25.  generateExamples never answers with an empty list and never with
    more than five examples.  When the store has examples of the word for
    the context it returns the first five of them as stored; when it has
    none it makes one up, for beginners, whose sentence contains the word
    as given and whose context is the one asked for (general when that is
    empty). *)
Theorem generateExamples_bounds (st : Store) (word meaning context : string) :
  let stored := DataService.getSentenceExamples st word (Some context) in
  let result := WordExamples.generateExamples st word meaning context in
  (1 <= length result <= 5)%nat /\
  (stored <> [] -> result = take 5 stored) /\
  (stored = [] ->
   exists e, result = [e] /\
             sent_difficulty e = "beginner" /\
             includes (sentence e) word = true /\
             sent_context e = (if truthy context then context else "general")).
Proof.
  intros stored result. subst result.
  unfold WordExamples.generateExamples, SentenceSearch.getSentenceExamples.
  cbn [SentenceSearch.o_context SentenceSearch.o_difficulty
       SentenceSearch.o_limit SentenceSearch.o_includeTranslations].
  fold stored. cbv zeta.
  change (5 =? 0)%Z with false. cbv iota.
  change (ExerciseQuiz.sliceTo stored 5) with (take 5 stored).
  destruct stored as [|s rest] eqn:E.
  - cbn [take length Nat.eqb]. split; [cbn; lia|]. split; [congruence|].
    intros _. eexists. split; [reflexivity|].
    cbn [sent_difficulty sentence sent_context].
    split; [reflexivity|]. split; [|reflexivity].
    unfold quoted. rewrite !append_assoc.
    rewrite <- (append_assoc _ dquote). apply includes_append.
  - assert (Hlen : (1 <= length (take 5 (s :: rest)) <= 5)%nat).
    { rewrite length_take. cbn [length]. lia. }
    destruct (length (take 5 (s :: rest)) =? 0)%nat eqn:E0.
    + apply Nat.eqb_eq in E0. lia.
    + split; [exact Hlen|]. split; [reflexivity | discriminate].
Qed.

(** X26.  Round trip: after addWordDefinition(word, definition, context,
    ...), the word has a definition, and asking for it, in any case,
    without a context or with one that lower-cases to the given context,
    returns the definition that was added; the context is then read as a
    property of the definition's own, whatever its name. *)
Theorem addWordDefinition_then_getDefinition (st : Store)
    (word definition context : string) (difficulty : Difficulty)
    (partOfSpeech asked : string) :
  toLowerCase asked = toLowerCase word ->
  let st' := WordExamples.addWordDefinition st word definition context
               difficulty partOfSpeech in
  hasWord st' asked = true /\
  getDefinition st' asked None = definition /\
  (forall c, toLowerCase c = context ->
             returnsInherited st' asked (Some c) = false /\
             getDefinition st' asked (Some c) = definition).
Proof.
  intros Hw st'. subst st'.
  unfold WordExamples.addWordDefinition, addDefinition, setDefinition,
    hasWord, getDefinition, returnsInherited.
  cbn [definitionsDB def_word]. rewrite Hw, lookup_insert_eq.
  cbn [general contextual].
  split; [apply bool_decide_eq_true; eauto|]. split; [reflexivity|].
  intros c <-. rewrite lookup_singleton_eq. split.
  - rewrite (bool_decide_eq_false_2 _); [|discriminate].
    now rewrite andb_false_r.
  - destruct (truthy c); [|reflexivity]. destruct (truthy definition); reflexivity.
Qed.

Lemma addWordDefinition_then_getDefinition_witness :
  let st' := WordExamples.addWordDefinition Scenarios.bankStore "Ledger"
               "a book of accounts" "business" intermediate "noun" in
  hasWord st' "LEDGER" = true /\
  getDefinition st' "LEDGER" None = "a book of accounts" /\
  (forall c, toLowerCase c = "business" ->
             returnsInherited st' "LEDGER" (Some c) = false /\
             getDefinition st' "LEDGER" (Some c) = "a book of accounts").
Proof.
  apply (addWordDefinition_then_getDefinition Scenarios.bankStore "Ledger"
           "a book of accounts" "business" intermediate "noun" "LEDGER").
  reflexivity.
Defined.

(* ===================================================================== *)
(** * The sentence service: by difficulty, and additions *)
(* ===================================================================== *)

(** X27.  For draws in [0, 1), getSentencesByDifficulty returns examples of
    the requested difficulty only, each stored (for the context, when one
    is given) under a word that has a definition; without a limit, or with
    limit 0, they are all such examples in some order, and with a positive
    limit at most that many of them. *)
Theorem getSentencesByDifficulty_selection (st : Store) (level : Difficulty)
    (context : option string) (limit : option Z) (w : World) :
  unitDraws w ->
  let matching :=
    concat ((fun word =>
               List.filter
                 (fun s => String.eqb (sent_difficulty s) (difficultyName level))
                 (DataService.getSentenceExamples st word context))
              <$> getAllWords st) in
  exists result w',
    SentenceSearch.getSentencesByDifficulty st level context limit w
    = Normal result w' /\
    Forall (fun s =>
              sent_difficulty s = difficultyName level /\
              exists word, word ∈ getAllWords st /\
                           s ∈ DataService.getSentenceExamples st word context)
           result /\
    (limit = None \/ limit = Some 0%Z -> result ≡ₚ matching) /\
    (forall n, limit = Some n -> (0 < n)%Z ->
               length result = Nat.min (Z.to_nat n) (length matching)).
Proof.
  intros Hw matching. unfold SentenceSearch.getSentencesByDifficulty.
  fold matching. cbv zeta.
  destruct (shuffleLoop_permutation (length matching - 1) matching w Hw)
    as (shuffled & w' & Hs & Hperm & _).
  { destruct matching; cbn; [right; reflexivity | left; lia]. }
  fold (shuffleArray matching) in Hs.
  rewrite (bind_Normal _ _ _ _ _ Hs). unfold ret.
  eexists _, _. split; [reflexivity|].
  assert (Hall : Forall (fun s =>
              sent_difficulty s = difficultyName level /\
              exists word, word ∈ getAllWords st /\
                           s ∈ DataService.getSentenceExamples st word context)
              shuffled).
  { rewrite Hperm. apply Forall_forall. intros s Hin. subst matching.
    apply list_elem_of_In, in_concat in Hin as (l & Hl & Hin).
    apply list_elem_of_In, list_elem_of_fmap in Hl as (word & -> & Hword).
    apply filter_In in Hin as [Hin Hd].
    split; [now apply String.eqb_eq|].
    exists word. split; [exact Hword | now apply list_elem_of_In]. }
  split; [|split].
  - destruct limit as [n|]; [|exact Hall].
    destruct (n =? 0)%Z; [exact Hall|].
    eapply Forall_sublist; [exact Hall | apply sliceTo_sublist].
  - intros [->| ->]; [exact Hperm|]. cbn. exact Hperm.
  - intros n -> Hn.
    replace (n =? 0)%Z with false by (symmetry; apply Z.eqb_neq; lia).
    rewrite sliceTo_length, (Permutation_length Hperm).
    replace (0 <=? n)%Z with true by (symmetry; apply Z.leb_le; lia).
    reflexivity.
Qed.

Lemma getSentencesByDifficulty_selection_witness :
  let matching :=
    concat ((fun word =>
               List.filter
                 (fun s => String.eqb (sent_difficulty s) (difficultyName beginner))
                 (DataService.getSentenceExamples Lessons.lessonStore word None))
              <$> getAllWords Lessons.lessonStore) in
  exists result w',
    SentenceSearch.getSentencesByDifficulty Lessons.lessonStore beginner None
      (Some 2%Z) Scenarios.demoWorld = Normal result w' /\
    Forall (fun s =>
              sent_difficulty s = difficultyName beginner /\
              exists word, word ∈ getAllWords Lessons.lessonStore /\
                           s ∈ DataService.getSentenceExamples
                                 Lessons.lessonStore word None)
           result /\
    (Some 2%Z = None \/ Some 2%Z = Some 0%Z -> result ≡ₚ matching) /\
    (forall n, Some 2%Z = Some n -> (0 < n)%Z ->
               length result = Nat.min (Z.to_nat n) (length matching)).
Proof.
  apply (getSentencesByDifficulty_selection Lessons.lessonStore beginner None
           (Some 2%Z) Scenarios.demoWorld).
  intros n. unfold Scenarios.demoWorld, Qle, Qlt. cbn.
  pose proof (Nat.mod_upper_bound n 4). lia.
Defined.

Lemma nameAudioFiles_returns (word : string) (sentences : list SentenceExample) :
  forall w, exists w',
    SentenceSearch.nameAudioFiles word sentences w
    = Normal (imap (fun i s => SentenceSearch.withAudioFile word s (clock w i))
                   sentences) w'.
Proof.
  induction sentences as [|s rest IH]; intros w; cbn [SentenceSearch.nameAudioFiles].
  - eexists. reflexivity.
  - unfold bind at 1. unfold now at 1. cbv beta iota.
    destruct (IH (mkWorld (randoms w) (fun n => clock w (S n)))) as [w' Hw'].
    rewrite (bind_Normal _ _ _ _ _ Hw'). unfold ret. eexists. reflexivity.
Qed.

(** X28.  The sentence service's addSentenceExamples appends the given
    sentences, in order and with their fields as given, after the examples
    the word already has (whatever the case of the word); each is stored
    with an audio file named after the word as given, the sentence's
    context and the reading of the clock made for it, which is the next one
    for each sentence in turn. *)
Theorem addSentenceExamples_names_audio (st : Store) (word : string)
    (sentences : list SentenceExample) (w : World) :
  exists st' w' added,
    SentenceSearch.addSentenceExamples st word sentences w = Normal st' w' /\
    DataService.getSentenceExamples st' word None
    = DataService.getSentenceExamples st word None ++ added /\
    length added = length sentences /\
    forall i s, sentences !! i = Some s ->
      exists a,
        added !! i = Some a /\
        sentence a = sentence s /\ translation a = translation s /\
        sent_context a = sent_context s /\
        sent_difficulty a = sent_difficulty s /\
        context_note a = context_note s /\
        sent_audio_file a
        = Some (word +:+ "_" +:+ sent_context s +:+ "_" +:+
                numberToString (clock w i) +:+ ".mp3").
Proof.
  unfold SentenceSearch.addSentenceExamples.
  destruct (nameAudioFiles_returns word sentences w) as [w' Hw'].
  rewrite (bind_Normal _ _ _ _ _ Hw'). unfold ret.
  eexists _, _, _. split; [reflexivity|].
  unfold DataService.addSentenceExamples, DataService.getSentenceExamples,
    setSentences.
  cbn [sentencesDB]. rewrite lookup_insert_eq. cbn [default from_option id].
  split; [reflexivity|]. split; [apply length_imap|].
  intros i s Hi. eexists. split.
  - rewrite list_lookup_imap, Hi. reflexivity.
  - cbn. repeat split; reflexivity.
Qed.
